(** * H5P library repository: identities, validation pipeline, dependency
      resolution and installation

    A shallow embedding of the parts of the H5P server library that the
    specification talks about:

    - [LibraryName]       build/src/LibraryName.js
    - [ValidatorBuilder]  build/src/helpers/ValidatorBuilder.js
    - [H5PEditor]         build/src/H5PEditor.js (getLibraryOverview,
                          listAssets, resolveDependencies)
    - [LibraryManager]    only its declaration file is available, the install
                          operations are modelled from the specification.
    - [H5PEditor]         also validateLanguageCode, getLibraryData,
                          listLibraryLanguageFiles, findLibrariesInParameters
    - [FileContentUserDataStorage]
                          build/src/implementation/fs/
                          FileContentUserDataStorage.ts

    JavaScript strings are sequences of UTF-16 code units, so a string is a
    [list N] here and a character class is a predicate on code units. *)

From Stdlib Require Import ZArith NArith String Ascii Lia.
From stdpp Require Import base tactics option list numbers gmap.

Local Open Scope N_scope.

(** ** JavaScript strings *)

Abbreviation jsstring := (list N).

(** The code units of a string literal. *)
Definition str (s : string) : jsstring :=
  List.map N_of_ascii (list_ascii_of_string s).
#[global] Arguments str : simpl never.

(** ** Results of fallible code *)

(** What the code throws: a plain [Error] (a programming error, never meant
    to be caught and shown to a user) or an [H5pError] carrying an error id,
    its replacements and an HTTP status. *)
Inductive exn : Type :=
| Error (message : jsstring)
| H5pError (errorId : jsstring) (replacements : list (jsstring * jsstring))
           (httpStatusCode : Z).

Inductive result (A : Type) : Type :=
| Ok (a : A)
| Throw (e : exn).
Arguments Ok {A} a.
Arguments Throw {A} e.

(** Sequencing: an exception ends the computation. *)
#[global] Instance result_bind : MBind result := fun A B k r =>
  match r with
  | Ok a => k a
  | Throw e => Throw e
  end.
#[global] Instance result_ret : MRet result := fun A a => Ok a.

Definition is_Ok {A} (r : result A) : Prop := exists a, r = Ok a.
Definition is_Throw {A} (r : result A) : Prop := exists e, r = Throw e.
Definition is_programming_error {A} (r : result A) : Prop :=
  exists m, r = Throw (Error m).

(** ** Character classes of the regular expressions *)

Module Char.

Definition hyphen : N := 45.
Definition dot : N := 46.
Definition space : N := 32.

(** [\d] *)
Definition is_digit (c : N) : bool := (48 <=? c) && (c <=? 57).

(** [\w]: letters, digits and the underscore. The expressions carry the
    [i] flag but not the [u] flag; without [u] the case folding never maps
    a code unit of 128 or more onto an ASCII one, so [i] adds nothing to
    a class that already holds both cases. *)
Definition is_word (c : N) : bool :=
  is_digit c || ((65 <=? c) && (c <=? 90)) || ((97 <=? c) && (c <=? 122))
  || (c =? 95).

(** [[\w.]] *)
Definition is_name (c : N) : bool := is_word c || (c =? dot).

(** [\s]: the WhiteSpace and LineTerminator code points of ECMAScript. *)
Definition is_space (c : N) : bool :=
  ((9 <=? c) && (c <=? 13)) || (c =? 32) || (c =? 160) || (c =? 5760)
  || ((8192 <=? c) && (c <=? 8202)) || (c =? 8232) || (c =? 8233)
  || (c =? 8239) || (c =? 8287) || (c =? 12288) || (c =? 65279).

Definition is_hyphen (c : N) : bool := c =? hyphen.

(** [[-\s]] *)
Definition is_hyphen_or_space (c : N) : bool := is_hyphen c || is_space c.

End Char.

(** The longest prefix of [s] whose characters satisfy [p], and the rest. *)
Fixpoint span (p : N -> bool) (s : jsstring) : jsstring * jsstring :=
  match s with
  | c :: s' =>
      if p c then let '(a, b) := span p s' in (c :: a, b) else ([], s)
  | [] => ([], [])
  end.

(** ** Numbers *)

(** A Number is an IEEE 754 double. Modelled are [NaN], the two infinities
    and the doubles that are integers: [Int z] stands for the double of
    value [z], which is to be one ([Number.is_double]; every integer up to
    2^53 is, beyond that a double has 53 significant bits). Numbers with a
    fraction are left out: the code gets its Numbers from parseInt and
    from the version fields of library.json. The zero of negative sign is
    taken with 0: the code looks at a version with typeof, isNaN, [===]
    and a template literal, none of which tells the two apart. *)
Inductive number : Type :=
| NaN
| Int (z : Z)
| Infinity (negative : bool).

(** Primitive values, as far as the version fields can hold them. *)
Inductive value : Type :=
| VUndefined
| VNull
| VBoolean (b : bool)
| VNumber (n : number)
| VString (s : jsstring).

Module Number.

(** Decimal digits of a natural number, most significant first. *)
Fixpoint to_digits (fuel : nat) (n : N) (acc : jsstring) : jsstring :=
  match fuel with
  | O => acc
  | S fuel' =>
      let acc' := (48 + n mod 10) :: acc in
      if n / 10 =? 0 then acc' else to_digits fuel' (n / 10) acc'
  end.

Definition decimal (n : N) : jsstring :=
  to_digits (S (N.to_nat (N.log2 n))) n [].

(** The value of a string of digits. *)
Definition of_digits (ds : jsstring) : N :=
  foldl (fun a c => 10 * a + (c - 48)) 0 ds.

(** The double nearest to the natural number [n], a tie going to the even
    significand; [None] when that is beyond the largest double, where the
    Number is Infinity. From 2^53 on, the [e] low bits of [n] are rounded
    away, [e] being what leaves 53 bits. *)
Definition nearest (n : N) : option N :=
  if n <? 2 ^ 53 then Some n
  else
    let e := N.log2 n - 52 in
    let q := n / 2 ^ e in
    let r := n mod 2 ^ e in
    let half := 2 ^ (e - 1) in
    let q' := if (half <? r) || ((r =? half) && N.odd q) then q + 1 else q in
    if q' * 2 ^ e <? 2 ^ 1024 then Some (q' * 2 ^ e) else None.

(** The integer [z] is the value of a double. *)
Definition is_double (z : Z) : bool :=
  bool_decide (nearest (Z.abs_N z) = Some (Z.abs_N z)).

(** The Number of an integer given by its sign and its absolute value. *)
Definition of_integer (negative : bool) (n : N) : number :=
  match nearest n with
  | Some m => Int (if negative then - Z.of_N m else Z.of_N m)
  | None => Infinity negative
  end.

(** [c] multiplied out is a decimal that reads back as the double [n]. *)
Definition reads_as (n c : N) : bool := bool_decide (nearest c = Some n).

(** Number::toString prints the decimal with the fewest significant digits
    that reads back as the Number and, if there are several, the one
    closest to it, at equal distance the one with the even last digit
    (what ECMAScript recommends for the last digit, and what Node.js
    prints). [candidate j n] is that decimal among the multiples of 10^j,
    if one of them reads back as [n]: the multiples that do are
    neighbours, so it is one of the two that enclose [n]. *)
Definition candidate (j : nat) (n : N) : option N :=
  let p := 10 ^ N.of_nat j in
  let lo := n / p * p in
  let hi := lo + p in
  match reads_as n lo, reads_as n hi with
  | true, true =>
      match n - lo ?= hi - n with
      | Lt => Some lo
      | Gt => Some hi
      | Eq => Some (if N.even (lo / p) then lo else hi)
      end
  | true, false => Some lo
  | false, true => Some hi
  | false, false => None
  end.

(** The fewest significant digits are those of a multiple of the highest
    power of ten. *)
Fixpoint shortest_upto (j : nat) (n : N) : N :=
  match j with
  | O => n
  | S j' =>
      match candidate j n with
      | Some m => m
      | None => shortest_upto j' n
      end
  end.

Definition shortest (n : N) : N := shortest_upto (length (decimal n)) n.

(** Trailing zeros removed (for the mantissa of the exponent notation). *)
Fixpoint strip_zeros (rev_ds : jsstring) : jsstring :=
  match rev_ds with
  | 48 :: r => strip_zeros r
  | _ => rev_ds
  end.

(** Number::toString for the double of the natural number [n]: the digits
    of its shortest decimal if they are 21 at most; otherwise the first
    digit, the further significant digits after a point (if there are
    any), [e+] and the decimal exponent. *)
Definition nat_to_string (n : N) : jsstring :=
  let ds := decimal (shortest n) in
  if shortest n <? 10 ^ 21 then ds
  else
    match ds with
    | [] => []
    | d :: rest =>
        let fraction := rev (strip_zeros (rev rest)) in
        d :: match fraction with
             | [] => []
             | _ => Char.dot :: fraction
             end
          ++ str "e+" ++ decimal (N.of_nat (length rest))
    end.

Definition to_string (x : number) : jsstring :=
  match x with
  | NaN => str "NaN"
  | Int z =>
      if (z <? 0)%Z then Char.hyphen :: nat_to_string (Z.to_N (- z))
      else nat_to_string (Z.to_N z)
  | Infinity negative =>
      if negative then str "-Infinity" else str "Infinity"
  end.

(** [Number.parseInt(s, 10)]: leading white space is skipped, a sign is
    read, then the longest run of decimal digits; no digit gives [NaN].
    The value of the digits becomes a Number: the nearest double, all
    digits counting, as Node.js reads them (ECMAScript would also allow
    to take the digits after the twentieth for zeros). *)
Definition parseInt (s : jsstring) : number :=
  let s1 := snd (span Char.is_space s) in
  let '(negative, s2) :=
    match s1 with
    | 45 :: r => (true, r)
    | 43 :: r => (false, r)
    | _ => (false, s1)
    end in
  match fst (span Char.is_digit s2) with
  | [] => NaN
  | ds => of_integer negative (of_digits ds)
  end.

Definition isNaN (x : number) : bool :=
  match x with NaN => true | _ => false end.

(** [===] on numbers: [NaN] equals nothing. *)
Definition strict_eq (x y : number) : bool :=
  match x, y with
  | Int a, Int b => (a =? b)%Z
  | Infinity a, Infinity b => eqb a b
  | _, _ => false
  end.

End Number.

Module Value.

Inductive type : Type :=
| TUndefined | TObject | TBoolean | TNumber | TString.

Definition typeof (v : value) : type :=
  match v with
  | VUndefined => TUndefined
  | VNull => TObject
  | VBoolean _ => TBoolean
  | VNumber _ => TNumber
  | VString _ => TString
  end.

(** ToString, as a template literal applies it. *)
Definition to_string (v : value) : jsstring :=
  match v with
  | VUndefined => str "undefined"
  | VNull => str "null"
  | VBoolean true => str "true"
  | VBoolean false => str "false"
  | VNumber n => Number.to_string n
  | VString s => s
  end.

(** [Number.isNaN(v)]: false for whatever is not a Number. *)
Definition isNaN (v : value) : bool :=
  match v with
  | VNumber n => Number.isNaN n
  | _ => false
  end.

(** [===] *)
Definition strict_eq (v w : value) : bool :=
  match v, w with
  | VUndefined, VUndefined => true
  | VNull, VNull => true
  | VBoolean a, VBoolean b => eqb a b
  | VNumber a, VNumber b => Number.strict_eq a b
  | VString a, VString b => bool_decide (a = b)
  | _, _ => false
  end.

End Value.

(** ** LibraryName.js *)

Record LibraryName : Type := mkLibraryName {
  machineName : jsstring;
  majorVersion : value;
  minorVersion : value
}.

Record options : Type := mkOptions {
  useHyphen : bool;
  useWhitespace : bool
}.

Module LibraryName.

(** The default of the [options] parameter of fromUberName and
    toUberName. *)
Definition default_options : options :=
  {| useHyphen := true; useWhitespace := false |}.

(** [/^[\w.]+$/i.test(s)]: without the [m] flag [$] is the end of the
    input. *)
Definition test_machineName (s : jsstring) : bool :=
  match s with
  | [] => false
  | _ => forallb Char.is_name s
  end.

(** [/^([\w.]+)SEP(\d+)\.(\d+)$/.exec(s)] for a one-character separator
    class [sep]: the three captured groups. Every quantifier is greedy and
    is followed by a character outside its class, so backtracking never
    finds another split than the longest runs. [exec_versions] is the
    part [(\d+)\.(\d+)$] after the separator. *)
Definition exec_versions (s : jsstring) : option (jsstring * jsstring) :=
  let '(major, r3) := span Char.is_digit s in
  match major, r3 with
  | _ :: _, 46 :: r4 =>
      let '(minor, r5) := span Char.is_digit r4 in
      match minor, r5 with
      | _ :: _, [] => Some (major, minor)
      | _, _ => None
      end
  | _, _ => None
  end.

Definition exec (sep : N -> bool) (s : jsstring)
  : option (jsstring * jsstring * jsstring) :=
  let '(name, r1) := span Char.is_name s in
  match name, r1 with
  | _ :: _, c :: r2 =>
      if sep c then
        match exec_versions r2 with
        | Some (major, minor) => Some (name, major, minor)
        | None => None
        end
      else None
  | _, _ => None
  end.

Definition validateMachineName (machineName : jsstring) : result unit :=
  if negb (test_machineName machineName) then
    Throw (Error (str "Machine name " ++ [34] ++ machineName ++ [34]
                  ++ str " is illegal."))
  else Ok tt.

(** [typeof v !== 'number' || Number.isNaN(v)] *)
Definition invalid_version (v : value) : bool :=
  negb (match Value.typeof v with Value.TNumber => true | _ => false end)
  || Value.isNaN v.

Definition validate (library : LibraryName) : result unit :=
  _ ← validateMachineName (machineName library);
  if invalid_version (majorVersion library) then
    Throw (Error (str
      "Major version of library is invalid. Only numbers are allowed"))
  else if invalid_version (minorVersion library) then
    Throw (Error (str
      "Minor version of library is invalid. Only numbers are allowed"))
  else Ok tt.

(** The conversion the constructor applies to a version argument. *)
Definition parse_if_string (v : value) : value :=
  match v with
  | VString s => VNumber (Number.parseInt s)
  | _ => v
  end.

(** [new LibraryName(machineName, majorVersion, minorVersion)] *)
Definition new (machineName : jsstring) (majorVersion minorVersion : value)
  : result LibraryName :=
  let this := {| machineName := machineName;
                 majorVersion := parse_if_string majorVersion;
                 minorVersion := parse_if_string minorVersion |} in
  _ ← validate this;
  Ok this.

Definition equal (library1 library2 : LibraryName) : bool :=
  bool_decide (machineName library1 = machineName library2)
  && Value.strict_eq (majorVersion library1) (majorVersion library2)
  && Value.strict_eq (minorVersion library1) (minorVersion library2).

Definition nameRegex (o : options) : N -> bool :=
  if useHyphen o && useWhitespace o then Char.is_hyphen_or_space
  else if useHyphen o then Char.is_hyphen
  else Char.is_space.

Definition example (o : options) : jsstring :=
  if useHyphen o && useWhitespace o then
    str "H5P.Example-1.0 or H5P.Example 1.0"
  else if useHyphen o && negb (useWhitespace o) then str "H5P.Example-1.0"
  else str "H5P.Example 1.0".

Definition fromUberName (ubername : jsstring) (o : options)
  : result LibraryName :=
  if negb (useHyphen o) && negb (useWhitespace o) then
    Throw (Error (str "You must call fromUberName with either the useHyphen or useWhitespace option, or both!"))
  else
    match exec (nameRegex o) ubername with
    | None =>
        Throw (H5pError (str "invalid-ubername-pattern")
                 [(str "example", example o); (str "name", ubername)] 400)
    | Some (name, major, minor) =>
        new name (VNumber (Number.parseInt major))
                 (VNumber (Number.parseInt minor))
    end.

(** The template literal [`${machineName}SEP${majorVersion}.${minorVersion}`] *)
Definition template (sep : N) (libraryName : LibraryName) : jsstring :=
  machineName libraryName ++ [sep]
  ++ Value.to_string (majorVersion libraryName) ++ [Char.dot]
  ++ Value.to_string (minorVersion libraryName).

Definition toUberName (libraryName : LibraryName) (o : options)
  : result jsstring :=
  if useHyphen o then
    let ubername := template Char.hyphen libraryName in
    if negb (bool_decide (is_Some (exec Char.is_hyphen ubername))) then
      Throw (Error (str "Ubername " ++ ubername
                    ++ str " is not a valid ubername with hyphen separator."))
    else Ok ubername
  else if useWhitespace o then
    let ubername := template Char.space libraryName in
    if negb (bool_decide (is_Some (exec Char.is_space ubername))) then
      Throw (Error (str "Ubername " ++ ubername
                    ++ str " is not a valid ubername with whitespace separator."))
    else Ok ubername
  else
    Throw (Error (str
      "You must specify either the useHyphen or useWhitespace option")).

End LibraryName.

(** ** helpers/ValidatorBuilder.js *)

Module ValidatorBuilder.
Section Rules.

(** [V]: the defined values a rule receives and returns ([None] is
    [undefined]); [P]: the path prefix; [St]: everything a rule can read
    or change while it runs, the shared error object included; [E]: what a
    rule may throw. *)
Context {V P St E : Type}.

Inductive outcome : Type :=
| Return (v : option V)
| Raise (e : E).

(** An (awaited) rule call: [await rule(returnValue, pathPrefix, error)]. *)
Definition rule : Type := option V -> P -> St -> outcome * St.

Record builder : Type := mkBuilder { rules : list rule }.

Definition new : builder := {| rules := [] |}.

Definition addRule (this : builder) (r : rule) : builder :=
  {| rules := rules this ++ [r] |}.

Definition addRuleWhen (this : builder) (r : rule) (condition : bool)
  : builder :=
  if condition then addRule this r else this.

(** The loop of [validate]: [returnValue] is what the previous rule
    returned, [st] the state it left. *)
Fixpoint loop (rs : list rule) (returnValue : option V) (pathPrefix : P)
  (st : St) : outcome * St :=
  match rs with
  | [] => (Return returnValue, st)
  | r :: rs' =>
      match r returnValue pathPrefix st with
      | (Return None, st') => (Return None, st')
      | (Return (Some v), st') => loop rs' (Some v) pathPrefix st'
      | (Raise e, st') => (Raise e, st')
      end
  end.

Definition validate (this : builder) (data : option V) (pathPrefix : P)
  (st : St) : outcome * St :=
  loop (rules this) data pathPrefix st.

(** One rule invocation as an observer of the run sees it: the position
    of the rule in the list, what it was given and what it answered. *)
Record call : Type := mkCall {
  position : nat;
  input : option V;
  before : St;
  answer : outcome;
  after : St
}.

(** The invocations [loop] makes, in the order it makes them. *)
Fixpoint calls_from (i : nat) (rs : list rule) (returnValue : option V)
  (pathPrefix : P) (st : St) : list call :=
  match rs with
  | [] => []
  | r :: rs' =>
      let '(o, st') := r returnValue pathPrefix st in
      mkCall i returnValue st o st' ::
      match o with
      | Return (Some v) => calls_from (S i) rs' (Some v) pathPrefix st'
      | _ => []
      end
  end.

Definition calls (this : builder) (data : option V) (pathPrefix : P)
  (st : St) : list call :=
  calls_from 0 (rules this) data pathPrefix st.

(** Sequential composition of two rules: the second one runs on what the
    first one returned, unless the first one returned [undefined] or
    threw. *)
Definition and_then (f g : rule) : rule := fun x p st =>
  match f x p st with
  | (Return (Some v), st') => g (Some v) p st'
  | other => other
  end.

(** The left-to-right composition [((r1 ; r2) ; r3) ; ...] of a rule
    list; the empty list leaves the data as it is. *)
Definition compose (rs : list rule) : rule :=
  match rs with
  | [] => fun x _ st => (Return x, st)
  | r :: rs' => foldl and_then r rs'
  end.

End Rules.
Arguments outcome : clear implicits.
Arguments rule : clear implicits.
Arguments builder : clear implicits.
Arguments call : clear implicits.

(** The error object handed to the rules, with what the rules use of it. *)
Record AggregateH5pError : Type := mkAggregate {
  errorId : jsstring;
  httpStatusCode : Z;
  errors : list exn
}.

Definition default_error : AggregateH5pError :=
  {| errorId := str "package-validation-failed"; httpStatusCode := 400;
     errors := [] |}.

Definition addError (error : AggregateH5pError) (e : exn)
  : AggregateH5pError :=
  {| errorId := errorId error; httpStatusCode := httpStatusCode error;
     errors := errors error ++ [e] |}.

Definition hasErrors (error : AggregateH5pError) : bool :=
  match errors error with [] => false | _ => true end.

(** [throwErrorsNowRule], for a state that is the error object and the rest
    [W] of the world. *)
Definition throwErrorsNowRule {V P W : Type}
  : rule V P (AggregateH5pError * W) AggregateH5pError :=
  fun data _ st =>
    if hasErrors (fst st) then (Raise (fst st), st) else (Return data, st).

End ValidatorBuilder.

(** ** Installed libraries *)

(** The metadata of a library (library.json), with the fields the code
    reads. [identity] holds machineName, majorVersion and minorVersion. *)
Record InstalledLibrary : Type := mkInstalledLibrary {
  identity : LibraryName;
  patchVersion : N;
  title : jsstring;
  runnable : bool;
  metadataSettings : option (N * N);
  preloadedDependencies : list LibraryName;
  editorDependencies : list LibraryName;
  dynamicDependencies : list LibraryName;
  preloadedJs : list jsstring;
  preloadedCss : list jsstring
}.

(** ** H5PEditor.js: getLibraryOverview *)

Record LibraryOverviewForClient : Type := mkOverview {
  ov_majorVersion : value;
  ov_metadataSettings : option (N * N);
  ov_minorVersion : value;
  ov_name : jsstring;
  ov_restricted : bool;
  ov_runnable : bool;
  ov_title : jsstring;
  ov_tutorialUrl : jsstring;
  ov_uberName : jsstring
}.

Module Overview.
Section Overview.

(** [libraryManager.getLibrary(lib, language)]: the library, [undefined]
    when it is not installed, or an exception of the storage. *)
Context {Lang : Type}.
Variable getLibrary : LibraryName -> Lang -> result (option InstalledLibrary).

(** The options literal [{ useWhitespace: true }]: useHyphen is absent,
    hence falsy. *)
Definition overview_options : options :=
  {| useHyphen := false; useWhitespace := true |}.

Definition overview_of (loadedLibrary : InstalledLibrary)
  : LibraryOverviewForClient :=
  let n := identity loadedLibrary in
  {| ov_majorVersion := majorVersion n;
     ov_metadataSettings := metadataSettings loadedLibrary;
     ov_minorVersion := minorVersion n;
     ov_name := machineName n;
     ov_restricted := false;
     ov_runnable := runnable loadedLibrary;
     ov_title := title loadedLibrary;
     ov_tutorialUrl := [];
     ov_uberName := LibraryName.template Char.space n |}.

(** The body of the asynchronous callback: [undefined] when the library
    is not there or loading it throws. *)
Definition load_overview (lib : LibraryName) (language : Lang)
  : option LibraryOverviewForClient :=
  match getLibrary lib language with
  | Ok (Some loadedLibrary) => Some (overview_of loadedLibrary)
  | Ok None => None
  | Throw _ => None
  end.

(** [ubernames.map(name => LibraryName.fromUberName(name, ...))]: the
    first name that does not parse throws out of the whole call. *)
Fixpoint parse_all (ubernames : list jsstring) : result (list LibraryName) :=
  match ubernames with
  | [] => Ok []
  | name :: rest =>
      lib ← LibraryName.fromUberName name overview_options;
      libs ← parse_all rest;
      Ok (lib :: libs)
  end.

(** Promise.all keeps the order of its input; the two filters drop the
    [undefined] entries (fromUberName never returns one). *)
Definition getLibraryOverview (ubernames : list jsstring) (language : Lang)
  : result (list LibraryOverviewForClient) :=
  libs ← parse_all ubernames;
  Ok (omap id (List.map (fun lib => load_overview lib language) libs)).

End Overview.
End Overview.

(** ** LibraryManager: installation (InstallCoordinator of the specification)

    The implementation of LibraryManager is not among the sources (only its
    declaration file is), so this module follows sections 4.4, 5, 6 and 7 of
    the specification. *)

Module LibraryManager.

Abbreviation bytes := (list Byte.byte).

(** Modelled from the spec: the storage backend of section 6, missing from
    the sources. Named byte blobs under a library key and a relative path,
    one metadata record per library key, and the named locks that are
    currently held. *)
Record storage : Type := mkStorage {
  files : gmap (jsstring * jsstring) bytes;
  metadata : gmap jsstring InstalledLibrary;
  locks : gset jsstring
}.

(** Modelled from the spec: the staging location a caller supplies, missing
    from the sources: the parsed metadata of the candidate and its files in
    the order they are copied. *)
Record staging : Type := mkStaging {
  candidate : InstalledLibrary;
  staged : list (jsstring * bytes)
}.

(** Modelled from the spec: "the library's canonical directory key",
    missing from the sources: the ubername machineName-major.minor. *)
Definition libraryKey (l : InstalledLibrary) : jsstring :=
  LibraryName.template Char.hyphen (identity l).

(** Modelled from the spec: the storage operation
    [write(libraryKey, relativePath, bytes)] of section 6, missing from the
    sources. *)
Definition write (key path : jsstring) (content : bytes) (st : storage)
  : storage :=
  {| files := <[(key, path) := content]> (files st);
     metadata := metadata st; locks := locks st |}.

(** Modelled from the spec: the removal of one file of the old version
    (step 4 of section 4.4), missing from the sources. *)
Definition remove (key path : jsstring) (st : storage) : storage :=
  {| files := delete (key, path) (files st);
     metadata := metadata st; locks := locks st |}.

(** Modelled from the spec: the storage operation
    [writeMetadata(libraryKey, InstalledLibrary)] of section 6, missing
    from the sources. *)
Definition writeMetadata (key : jsstring) (m : InstalledLibrary)
  (st : storage) : storage :=
  {| files := files st; metadata := <[key := m]> (metadata st);
     locks := locks st |}.

(** Modelled from the spec: the storage operation [delete(libraryKey)]
    (recursive) of section 6, missing from the sources: every file under
    the key and the metadata record go. *)
Definition deleteLibrary (key : jsstring) (st : storage) : storage :=
  {| files := filter (fun kv => kv.1.1 ≠ key) (files st);
     metadata := delete key (metadata st); locks := locks st |}.

(** Modelled from the spec: [acquire] of the lock provider of section 6,
    missing from the sources. A lock that somebody else holds is not
    acquired within the acquisition timeout. *)
Definition acquire (name : jsstring) (st : storage) : option storage :=
  if decide (name ∈ locks st) then None
  else Some {| files := files st; metadata := metadata st;
               locks := {[name]} ∪ locks st |}.

(** Modelled from the spec: [release] of the lock provider of section 6,
    missing from the sources. *)
Definition release (name : jsstring) (st : storage) : storage :=
  {| files := files st; metadata := metadata st;
     locks := locks st ∖ {[name]} |}.

(** Modelled from the spec: the storage operation [list(libraryKey)] of
    section 6, missing from the sources: the paths stored under a library
    key. *)
Definition listFiles (key : jsstring) (st : storage) : list jsstring :=
  omap (fun kv => if decide (kv.1.1 = key) then Some kv.1.2 else None)
       (map_to_list (files st)).

(** Modelled from the spec: the two branches of section 4.4 that commit,
    missing from the sources. *)
Inductive branch : Type := FreshInstall | Upgrading.

(** Modelled from the spec: the failures of sections 4.4 and 7, missing
    from the sources: the lock was not acquired; a required file is not
    staged; the storage failed during the commit and the library was
    rolled back; the rollback failed too. *)
Inductive failure : Type :=
| InstallLockTimeout
| MissingRequiredFile (path : jsstring)
| StorageFailure (key : jsstring)
| RepositoryInconsistent (key : jsstring).

(** Modelled from the spec: what an install reports (the declaration file
    says: newly installed, updated, or nothing happened), missing from the
    sources. *)
Inductive install_result : Type :=
| New
| Patch (oldVersion : InstalledLibrary)
| Skipped
| Failed (why : failure).

(** Modelled from the spec: the storage operations of the commit phase
    (step 4 of section 4.4), missing from the sources. *)
Inductive operation : Type :=
| Write (path : jsstring) (content : bytes)
| Remove (path : jsstring)
| WriteMetadata (m : InstalledLibrary).

(** Modelled from the spec: one operation of the commit, carried out
    under the library key; missing from the sources. *)
Definition apply (key : jsstring) (o : operation) (st : storage) : storage :=
  match o with
  | Write path content => write key path content st
  | Remove path => remove key path st
  | WriteMetadata m => writeMetadata key m st
  end.

(** Modelled from the spec: step 4 of section 4.4, missing from the
    sources. Every staged file is copied, then (for an upgrade) the files
    of the old version that the new one does not have are removed, and the
    metadata record is written last. *)
Definition commit_operations (b : branch) (key : jsstring) (s : staging)
  (st : storage) : list operation :=
  List.map (fun f => Write f.1 f.2) (staged s)
  ++ match b with
     | FreshInstall => []
     | Upgrading =>
         List.map Remove
           (List.filter
              (fun p => negb (bool_decide (p ∈ List.map fst (staged s))))
              (listFiles key st))
     end
  ++ [WriteMetadata (candidate s)].

(** Modelled from the spec: the commit of section 4.4 under the I/O
    failures of section 7, missing from the sources. The operations are
    carried out one after the other; [fault] is the position of the
    operation at which the storage backend raises an I/O error, if it
    does. The answer tells whether all of them succeeded. *)
Fixpoint commit (key : jsstring) (fault : option nat) (i : nat)
  (ops : list operation) (st : storage) : bool * storage :=
  match ops with
  | [] => (true, st)
  | o :: ops' =>
      if decide (fault = Some i) then (false, st)
      else commit key fault (S i) ops' (apply key o st)
  end.

(** Modelled from the spec: step 7 of section 4.4, missing from the
    sources. The first file the metadata declares that is not staged. *)
Definition checkConsistency (s : staging) : option jsstring :=
  List.find (fun p => negb (bool_decide (p ∈ List.map fst (staged s))))
            (preloadedJs (candidate s) ++ preloadedCss (candidate s)).

(** Modelled from the spec: steps 4, 5 and 7 of section 4.4, missing from
    the sources. The consistency check comes before any write; a failure
    during the commit deletes everything under the library key, for a
    fresh install and for an upgrade alike. [rollback_fails] says whether
    that deletion fails in its turn. *)
Definition commit_or_rollback (b : branch) (s : staging)
  (fault : option nat) (rollback_fails : bool) (st : storage)
  : bool * option failure * storage :=
  let key := libraryKey (candidate s) in
  match checkConsistency s with
  | Some path => (false, Some (MissingRequiredFile path), st)
  | None =>
      let '(ok, st') := commit key fault 0 (commit_operations b key s st) st in
      if ok then (true, None, st')
      else if rollback_fails then (false, Some (RepositoryInconsistent key), st')
      else (false, Some (StorageFailure key), deleteLibrary key st')
  end.

(** Modelled from the spec: the FreshInstall branch of section 4.4
    ([installLibrary] of the declaration file: "rolls back changes if the
    library installation failed"), missing from the sources. *)
Definition installLibrary (s : staging) (fault : option nat)
  (rollback_fails : bool) (st : storage) : install_result * storage :=
  match commit_or_rollback FreshInstall s fault rollback_fails st with
  | (_, Some why, st') => (Failed why, st')
  | (_, None, st') => (New, st')
  end.

(** Modelled from the spec: the Upgrading branch of section 4.4
    ([updateLibrary] of the declaration file: "removes the library if
    there is an error"), missing from the sources. *)
Definition updateLibrary (old : InstalledLibrary) (s : staging)
  (fault : option nat) (rollback_fails : bool) (st : storage)
  : install_result * storage :=
  match commit_or_rollback Upgrading s fault rollback_fails st with
  | (_, Some why, st') => (Failed why, st')
  | (_, None, st') => (Patch old, st')
  end.

(** Modelled from the spec: the decision of step 3 of section 4.4 and
    [isPatchedVersion], missing from the sources: the installed library
    that the candidate would patch. *)
Definition isPatchedLibrary (l : InstalledLibrary) (st : storage)
  : option InstalledLibrary :=
  match metadata st !! libraryKey l with
  | Some installed =>
      if patchVersion installed <? patchVersion l then Some installed
      else None
  | None => None
  end.

(** Modelled from the spec: the state machine of section 4.4, missing from
    the sources: lock, decision, commit or rollback, release of the lock on
    every path. *)
Definition installFromDirectory (s : staging) (fault : option nat)
  (rollback_fails : bool) (st : storage) : install_result * storage :=
  let name := machineName (identity (candidate s)) in
  match acquire name st with
  | None => (Failed InstallLockTimeout, st)
  | Some st1 =>
      let '(r, st2) :=
        match metadata st1 !! libraryKey (candidate s) with
        | None => installLibrary s fault rollback_fails st1
        | Some installed =>
            match isPatchedLibrary (candidate s) st1 with
            | Some old => updateLibrary old s fault rollback_fails st1
            | None => (Skipped, st1)
            end
        end in
      (r, release name st2)
  end.

End LibraryManager.

(** ** H5PEditor.js: listAssets and resolveDependencies *)

Module Assets.
Section Assets.

(** [T]: a parsed language object. *)
Context {T : Type}.

Record assets : Type := mkAssets {
  scripts : list jsstring;
  styles : list jsstring;
  translations : gmap jsstring T
}.

(** What a call of listAssets reads and does not change:
    - [repo]: what [libraryManager.getLibrary] answers for the library
      stored under an ubername: nothing there ([undefined]), an exception,
      or the metadata;
    - [getLanguage]: [libraryManager.getLanguage] followed by
      [JSON.parse]: an exception of the former, or the parsed object if
      there is a truthy one;
    - [getAddonsForLibrary]: the addons that the installed addons and the
      configuration give for a machine name (an entry may be
      [undefined]), or an exception;
    - [libraryFile]: [urlGenerator.libraryFile];
    - [alterLibraryFiles]: the optional customization hook. *)
Record environment : Type := mkEnvironment {
  repo : gmap jsstring (result InstalledLibrary);
  getLanguage : jsstring -> result (option T);
  getAddonsForLibrary : jsstring -> result (list (option LibraryName));
  libraryFile : InstalledLibrary -> jsstring -> jsstring;
  alterLibraryFiles :
    option (LibraryName -> list jsstring -> list jsstring
            -> list jsstring * list jsstring)
}.

Variable env : environment.

(** A call of listAssets between two of its suspension points, and a
    chain of resolveDependencies. Several chains are in flight at once
    (Promise.all), all sharing the object [loaded].
    - [Null]: the call returned [null], the key was in [loaded];
    - [Loading]: the key is entered in [loaded]; the call awaits the
      library, its translation and its addons;
    - [Resolving]: the call awaits its three chains;
    - [Chain resolved current dependencies]: the chain awaits
      [listAssets] of the dependency it shifted last. *)
Inductive task : Type :=
| Null
| Loading (libraryName : LibraryName)
| Resolving (libraryName : LibraryName) (library : InstalledLibrary)
    (translation : option T) (preloaded editor addons : chain)
| Returned (a : assets)
| Rejected (e : exn)
with chain : Type :=
| Chain (resolved : list assets) (current : task)
    (dependencies : list (option LibraryName))
| Resolved (resolved : list assets)
| Broken (e : exn).

(** [loaded] is used as a set of ubernames ([key in loaded],
    [loaded[key] = true]). An ubername holds a hyphen, so it is never the
    name of a property that [{}] inherits. *)
Abbreviation loaded_set := (gset jsstring).

(** The synchronous head of listAssets, up to the first [await]. *)
Definition start (loaded : loaded_set) (libraryName : LibraryName)
  : loaded_set * task :=
  match LibraryName.toUberName libraryName LibraryName.default_options with
  | Throw e => (loaded, Rejected e)
  | Ok key =>
      if decide (key ∈ loaded) then (loaded, Null)
      else ({[key]} ∪ loaded, Loading libraryName)
  end.

(** [resolve(dependencies.shift())] inside resolveDependencies: a falsy
    dependency (the end of the list, too) settles the chain. *)
Definition resolve (loaded : loaded_set) (resolved : list assets)
  (dependencies : list (option LibraryName)) : loaded_set * chain :=
  match dependencies with
  | Some dependency :: rest =>
      let '(loaded', t) := start loaded dependency in
      (loaded', Chain resolved t rest)
  | _ => (loaded, Resolved resolved)
  end.

Definition library_missing (key : jsstring) : exn :=
  H5pError (str "library-missing") [(str "library", key)] 404.

(** listAssets from the first [await] to the [Promise.all] of the three
    chains: the chains start in the order preloaded, editor, addons, each
    as far as the first [await] of its first listAssets. *)
Definition expand (loaded : loaded_set) (libraryName : LibraryName)
  : loaded_set * task :=
  match LibraryName.toUberName libraryName LibraryName.default_options with
  | Throw e => (loaded, Rejected e)
  | Ok key =>
      match repo env !! key, getLanguage env key with
      | Some (Throw e), _ => (loaded, Rejected e)
      | _, Throw e => (loaded, Rejected e)
      | None, _ => (loaded, Rejected (library_missing key))
      | Some (Ok library), Ok translation =>
          match getAddonsForLibrary env
                  (machineName (identity library)) with
          | Throw e => (loaded, Rejected e)
          | Ok addonsForLibrary =>
              let '(l1, c1) :=
                resolve loaded [] (Some <$> preloadedDependencies library) in
              let '(l2, c2) :=
                resolve l1 [] (Some <$> editorDependencies library) in
              let '(l3, c3) := resolve l2 [] addonsForLibrary in
              (l3, Resolving libraryName library translation c1 c2 c3)
          end
      end
  end.

(** [assets.translations[k] = dependency.translations[k]] for every key of
    the dependency. *)
Definition add_dependency (a : assets) (dependency : assets) : assets :=
  {| scripts := scripts a ++ scripts dependency;
     styles := styles a ++ styles dependency;
     translations := translations dependency ∪ translations a |}.

(** The files of the library itself, after the customization hook. *)
Definition own_files (libraryName : LibraryName) (library : InstalledLibrary)
  : list jsstring * list jsstring :=
  match alterLibraryFiles env with
  | Some hook => hook libraryName (preloadedJs library) (preloadedCss library)
  | None => (preloadedJs library, preloadedCss library)
  end.

Definition own_scripts (libraryName : LibraryName)
  (library : InstalledLibrary) : list jsstring :=
  libraryFile env library <$> (own_files libraryName library).1.

Definition own_styles (libraryName : LibraryName)
  (library : InstalledLibrary) : list jsstring :=
  libraryFile env library <$> (own_files libraryName library).2.

(** listAssets after the [Promise.all] of the chains. *)
Definition finish (libraryName : LibraryName) (library : InstalledLibrary)
  (translation : option T) (combinedDependencies : list (list assets))
  : assets :=
  let a := foldl (foldl add_dependency)
             {| scripts := []; styles := []; translations := ∅ |}
             combinedDependencies in
  {| scripts := scripts a ++ own_scripts libraryName library;
     styles := styles a ++ own_styles libraryName library;
     translations :=
       match translation with
       | Some parsedLanguageObject =>
           <[machineName libraryName := parsedLanguageObject]>
             (translations a)
       | None => translations a
       end |}.

(** One step of the computation. The path says which of the pending
    continuations runs next: [i :: p] goes into chain [i] (0, 1, 2) of a
    [Resolving] call, and there into the call that the chain awaits, as
    long as that call has not settled. *)
Fixpoint advance (p : list nat) (loaded : loaded_set) (t : task)
  {struct t} : option (loaded_set * task) :=
  match t with
  | Loading libraryName => Some (expand loaded libraryName)
  | Resolving libraryName library translation c1 c2 c3 =>
      match p with
      | [] =>
          match c1, c2, c3 with
          | Resolved r1, Resolved r2, Resolved r3 =>
              Some (loaded,
                    Returned (finish libraryName library translation
                                [r1; r2; r3]))
          | _, _, _ => None
          end
      | 0%nat :: p' =>
          match c1 with
          | Broken e => Some (loaded, Rejected e)
          | _ =>
              '(loaded', c1') ← advance_chain p' loaded c1;
              Some (loaded',
                    Resolving libraryName library translation c1' c2 c3)
          end
      | 1%nat :: p' =>
          match c2 with
          | Broken e => Some (loaded, Rejected e)
          | _ =>
              '(loaded', c2') ← advance_chain p' loaded c2;
              Some (loaded',
                    Resolving libraryName library translation c1 c2' c3)
          end
      | _ :: p' =>
          match c3 with
          | Broken e => Some (loaded, Rejected e)
          | _ =>
              '(loaded', c3') ← advance_chain p' loaded c3;
              Some (loaded',
                    Resolving libraryName library translation c1 c2 c3')
          end
      end
  | Null | Returned _ | Rejected _ => None
  end
with advance_chain (p : list nat) (loaded : loaded_set) (c : chain)
  {struct c} : option (loaded_set * chain) :=
  match c with
  | Chain resolved current dependencies =>
      match current with
      | Null => Some (resolve loaded resolved dependencies)
      | Returned a => Some (resolve loaded (resolved ++ [a]) dependencies)
      | Rejected e => Some (loaded, Broken e)
      | _ =>
          '(loaded', current') ← advance p loaded current;
          Some (loaded', Chain resolved current' dependencies)
      end
  | Resolved _ | Broken _ => None
  end.

(** [listAssets(libraryName, language)] with the default [loaded = {}],
    up to its first [await]. *)
Definition listAssets (libraryName : LibraryName) : loaded_set * task :=
  start ∅ libraryName.

(** A schedule is the list of paths of the steps taken. *)
Fixpoint run (schedule : list (list nat)) (c : loaded_set * task)
  : option (loaded_set * task) :=
  match schedule with
  | [] => Some c
  | p :: schedule' =>
      c' ← advance p c.1 c.2;
      run schedule' c'
  end.

Definition settled (t : task) : bool :=
  match t with
  | Returned _ | Rejected _ | Null => true
  | _ => false
  end.

(** The path of a step that a call can take: the leftmost one. *)
Fixpoint ready (t : task) : list nat :=
  match t with
  | Resolving _ _ _ c1 c2 c3 =>
      match ready_chain c1, ready_chain c2, ready_chain c3 with
      | Some p, _, _ => 0%nat :: p
      | None, Some p, _ => 1%nat :: p
      | None, None, Some p => 2%nat :: p
      | None, None, None => []
      end
  | _ => []
  end
with ready_chain (c : chain) : option (list nat) :=
  match c with
  | Chain _ current _ => Some (ready current)
  | Broken _ => Some []
  | Resolved _ => None
  end.

(** The schedule that always takes the leftmost step, [n] steps long at
    most. *)
Fixpoint leftmost (n : nat) (c : loaded_set * task) : loaded_set * task :=
  match n with
  | O => c
  | S n' =>
      if settled c.2 then c
      else match advance (ready c.2) c.1 c.2 with
           | Some c' => leftmost n' c'
           | None => c
           end
  end.

End Assets.
Arguments assets : clear implicits.
Arguments environment : clear implicits.
Arguments task : clear implicits.
Arguments chain : clear implicits.
End Assets.

(** * Vocabulary of the statements

    The notions that the theorems below are stated with, and the concrete
    data of their examples. *)

(** ** LibraryName.js *)

Module LibraryNameSpec.

(** The options with both separator modes disabled. *)
Definition no_separator : options :=
  {| useHyphen := false; useWhitespace := false |}.

(** The separator that toUberName writes under the options [o]. *)
Definition separator (o : options) : N :=
  if useHyphen o then Char.hyphen else Char.space.

(** What the constructor makes of a version argument: a Number other
    than [NaN] as it is, a string through parseInt, nothing else. *)
Definition version_of (v : value) : option number :=
  match v with
  | VNumber NaN => None
  | VNumber n => Some n
  | VString s =>
      match Number.parseInt s with
      | NaN => None
      | n => Some n
      end
  | _ => None
  end.

(** A version that is a non-negative integer. *)
Definition non_negative_integer (v : value) : Prop :=
  exists z : Z, v = VNumber (Int z) /\ (0 <= z)%Z.

(** A valid identity: a machine name matching [^[A-Za-z0-9_.]+$] and
    non-negative integer versions. *)
Definition valid_identity (l : LibraryName) : Prop :=
  LibraryName.test_machineName (machineName l) = true
  /\ non_negative_integer (majorVersion l)
  /\ non_negative_integer (minorVersion l).

End LibraryNameSpec.

(** ** helpers/ValidatorBuilder.js *)

Module ValidatorBuilderExample.
Import ValidatorBuilder.

(** Two rules on numbers, the state being the list of the rules that
    ran: the first one returns [undefined], the second one doubles. *)
Definition skip_rest : rule nat unit (list nat) unit :=
  fun _ _ log => (Return None, log ++ [1%nat]).

Definition double : rule nat unit (list nat) unit :=
  fun x _ log => (Return ((fun n => 2 * n)%nat <$> x), log ++ [2%nat]).

End ValidatorBuilderExample.

(** ** H5PEditor.js: getLibraryOverview *)

Module OverviewSpec.
Import Overview.

Section Spec.

Context {Lang : Type}.
Variable getLibrary : LibraryName -> Lang -> result (option InstalledLibrary).

(** The library behind an ubername, if the name parses and the library
    can be loaded. *)
Definition loadable (language : Lang) (ubername : jsstring)
  : option InstalledLibrary :=
  match LibraryName.fromUberName ubername overview_options with
  | Ok lib =>
      match getLibrary lib language with
      | Ok (Some loadedLibrary) => Some loadedLibrary
      | _ => None
      end
  | Throw _ => None
  end.

End Spec.

Definition example_library : InstalledLibrary :=
  {| identity := {| machineName := str "H5P.Example";
                    majorVersion := VNumber (Int 1);
                    minorVersion := VNumber (Int 0) |};
     patchVersion := 2; title := str "Example"; runnable := true;
     metadataSettings := None; preloadedDependencies := [];
     editorDependencies := []; dynamicDependencies := [];
     preloadedJs := []; preloadedCss := [] |}.

(** A library manager that knows H5P.Example 1.0, fails on H5P.Broken and
    has nothing else. *)
Definition example_getLibrary (lib : LibraryName) (_ : unit)
  : result (option InstalledLibrary) :=
  if bool_decide (machineName lib = str "H5P.Example") then
    Ok (Some example_library)
  else if bool_decide (machineName lib = str "H5P.Broken") then
    Throw (Error (str "storage"))
  else Ok None.

End OverviewSpec.

(** ** LibraryManager: installation *)

Module LibraryManagerExample.
Import LibraryManager.

(** The scenario of the specification: Foo.Bar 1.0 is installed with
    patch version 2; a candidate comes with patch version 3 (an upgrade)
    or 2 (a reinstallation). *)
Definition foo_bar (patch : N) (js : list jsstring) : InstalledLibrary :=
  {| identity := {| machineName := str "Foo.Bar";
                    majorVersion := VNumber (Int 1);
                    minorVersion := VNumber (Int 0) |};
     patchVersion := patch; title := str "Foo"; runnable := true;
     metadataSettings := None; preloadedDependencies := [];
     editorDependencies := []; dynamicDependencies := [];
     preloadedJs := js; preloadedCss := [] |}.

Definition foo_bar_key : jsstring := str "Foo.Bar-1.0".

Definition repository : storage :=
  {| files := {[ (foo_bar_key, str "a.js") := [Byte.x31];
                 (foo_bar_key, str "old.js") := [Byte.x32] ]};
     metadata := {[ foo_bar_key := foo_bar 2 [str "a.js"; str "old.js"] ]};
     locks := ∅ |}.

Definition candidate_with_patch (patch : N) : staging :=
  {| candidate := foo_bar patch [str "a.js"; str "b.js"];
     staged := [(str "a.js", [Byte.x33]); (str "b.js", [Byte.x34])] |}.

(** A repository that holds nothing; one in which a file lies under the
    key of Foo.Bar 1.0 without a metadata record (what a crash between
    file copy and metadata write leaves); and the repository of the
    scenario while another install attempt holds the lock of Foo.Bar. *)
Definition empty_repository : storage :=
  {| files := ∅; metadata := ∅; locks := ∅ |}.

Definition stray_repository : storage :=
  {| files := {[ (foo_bar_key, str "old.js") := [Byte.x32] ]};
     metadata := ∅; locks := ∅ |}.


End LibraryManagerExample.

(** ** H5PEditor.js: listAssets and resolveDependencies *)

Module AssetsSpec.
Import Assets.

Scheme task_chain_ind := Induction for task Sort Prop
  with chain_task_ind := Induction for chain Sort Prop.
Combined Scheme task_and_chain_ind from task_chain_ind, chain_task_ind.

Section Spec.

Context {T : Type}.
Variable env : environment T.

Local Open Scope nat_scope.

(** The ubername under which listAssets enters a library in [loaded]. *)
Definition key (libraryName : LibraryName) : result jsstring :=
  LibraryName.toUberName libraryName LibraryName.default_options.

(** *** A bound on the number of steps *)

(** The number of dependencies that listAssets starts for the library
    stored under a key. *)
Definition fan_out (k : jsstring) : nat :=
  match repo env !! k with
  | Some (Ok library) =>
      length (preloadedDependencies library)
      + length (editorDependencies library)
      + match getAddonsForLibrary env (machineName (identity library)) with
        | Ok addonsForLibrary => length addonsForLibrary
        | Throw _ => 0
        end
  | _ => 0
  end.

(** The steps that a library not yet entered in [loaded] may still cost. *)
Definition cost (k : jsstring) : nat :=
  match repo env !! k with
  | Some _ => 2 * fan_out k + 1
  | None => 0
  end.

Definition unloaded_cost (loaded : gset jsstring) (k : jsstring) : nat :=
  if decide (k ∈ loaded) then 0 else cost k.

(** The cost of all stored libraries that are not in [loaded]. *)
Definition potential (loaded : gset jsstring) : nat :=
  sum_list (unloaded_cost loaded <$> elements (dom (repo env))).

(** The steps that the calls in flight may still take themselves. *)
Fixpoint weight (t : task T) : nat :=
  match t with
  | Loading libraryName =>
      1 + match key libraryName with Ok k => cost k | Throw _ => 0 end
  | Resolving _ _ _ c1 c2 c3 =>
      1 + weight_chain c1 + weight_chain c2 + weight_chain c3
  | Null | Returned _ | Rejected _ => 0
  end
with weight_chain (c : chain T) : nat :=
  match c with
  | Chain _ current dependencies =>
      1 + weight current + 2 * length dependencies
  | Resolved _ | Broken _ => 0
  end.

(** A bound on the number of steps from a configuration on. *)
Definition bound (c : gset jsstring * task T) : nat :=
  potential c.1 + weight c.2.

(** A step into a chain of a [Resolving] call, as [advance] takes it. *)
Definition into_chain (p : list nat) (loaded : gset jsstring) (c : chain T)
  (rebuild : chain T -> task T) : option (gset jsstring * task T) :=
  match c with
  | Broken e => Some (loaded, Rejected e)
  | _ =>
      match advance_chain env p loaded c with
      | Some (loaded', c') => Some (loaded', rebuild c')
      | None => None
      end
  end.

(** The steps of the leftmost schedule. *)
Fixpoint leftmost_schedule (n : nat) (c : gset jsstring * task T)
  : list (list nat) :=
  match n with
  | O => []
  | S n' =>
      if settled c.2 then []
      else match advance env (ready c.2) c.1 c.2 with
           | Some c' => ready c.2 :: leftmost_schedule n' c'
           | None => []
           end
  end.

(** *** The dependency graph and the libraries in the assets *)

(** A library as listAssets sees it: the name it was asked for and the
    metadata it loaded. *)
Definition entry : Type := LibraryName * InstalledLibrary.

(** The dependencies that a chain gets to: a falsy one ends the chain. *)
Fixpoint effective (dependencies : list (option LibraryName))
  : list LibraryName :=
  match dependencies with
  | Some d :: rest => d :: effective rest
  | _ => []
  end.

(** The dependencies of a library: preloaded, editor, addons. *)
Definition dependencies_of (library : InstalledLibrary) : list LibraryName :=
  preloadedDependencies library ++ editorDependencies library
  ++ match getAddonsForLibrary env (machineName (identity library)) with
     | Ok addonsForLibrary => effective addonsForLibrary
     | Throw _ => []
     end.

(** The dependency graph: the ubernames that the ubername [root] leads
    to. *)
Inductive reachable (root : jsstring) : jsstring -> Prop :=
| reachable_root : reachable root root
| reachable_dependency (k : jsstring) (library : InstalledLibrary)
    (d : LibraryName) (k' : jsstring) :
    reachable root k -> repo env !! k = Some (Ok library) ->
    d ∈ dependencies_of library -> key d = Ok k' -> reachable root k'.

(** The library stored under the ubername of the name. *)
Definition stored (e : entry) (k : jsstring) : Prop :=
  key e.1 = Ok k /\ repo env !! k = Some (Ok e.2).

(** The files of the libraries [es], one library after the other. *)
Definition scripts_of (es : list entry) : list jsstring :=
  es ≫= (fun e => own_scripts env e.1 e.2).

Definition styles_of (es : list entry) : list jsstring :=
  es ≫= (fun e => own_styles env e.1 e.2).

Definition emits (es : list entry) (a : assets T) : Prop :=
  scripts a = scripts_of es /\ styles a = styles_of es.

Definition emits_all (es : list entry) (resolved : list (assets T)) : Prop :=
  resolved ≫= scripts = scripts_of es /\ resolved ≫= styles = styles_of es.

Definition key_of (e : entry) : jsstring :=
  match key e.1 with Ok k => k | Throw _ => [] end.

Definition marked (loaded : gset jsstring) (d : LibraryName) : Prop :=
  exists k, key d = Ok k /\ k ∈ loaded.

Definition marked_some (loaded : gset jsstring) (o : option LibraryName)
  : Prop :=
  exists d, o = Some d /\ marked loaded d.

(** A library whose files are in the assets: it is the stored one, and
    all its dependencies are entered in [loaded]. *)
Definition complete (loaded : gset jsstring) (e : entry) : Prop :=
  (exists k, stored e k)
  /\ forall d, d ∈ dependencies_of e.2 -> marked loaded d.

(** What holds of a call in flight, [ks] being the ubernames it has
    entered in [loaded] itself, down to the calls of its chains. *)
Fixpoint inv (loaded : gset jsstring) (t : task T) (ks : list jsstring)
  {struct t} : Prop :=
  match t with
  | Null => ks = []
  | Rejected _ => True
  | Loading n => exists k, key n = Ok k /\ k ∈ loaded /\ ks = [k]
  | Returned a =>
      exists es, emits es a /\ Forall (complete loaded) es
                 /\ ks ≡ₚ key_of <$> es
  | Resolving n library _ c1 c2 c3 =>
      exists k addonsForLibrary ks1 ks2 ks3,
        stored (n, library) k /\ k ∈ loaded
        /\ getAddonsForLibrary env (machineName (identity library))
           = Ok addonsForLibrary
        /\ inv_chain loaded (Some <$> preloadedDependencies library) c1 ks1
        /\ inv_chain loaded (Some <$> editorDependencies library) c2 ks2
        /\ inv_chain loaded addonsForLibrary c3 ks3
        /\ ks ≡ₚ k :: ks1 ++ ks2 ++ ks3
  end
with inv_chain (loaded : gset jsstring)
  (source : list (option LibraryName)) (c : chain T) (ks : list jsstring)
  {struct c} : Prop :=
  match c with
  | Broken _ => True
  | Resolved resolved =>
      exists es, emits_all es resolved /\ Forall (complete loaded) es
                 /\ ks ≡ₚ key_of <$> es
                 /\ forall d, d ∈ effective source -> marked loaded d
  | Chain resolved current dependencies =>
      match current with
      | Rejected _ => True
      | _ =>
          exists consumed es kt,
            source = consumed ++ dependencies
            /\ Forall (marked_some loaded) consumed
            /\ emits_all es resolved /\ Forall (complete loaded) es
            /\ inv loaded current kt
            /\ ks ≡ₚ (key_of <$> es) ++ kt
      end
  end.

(** The keys that a step enters in [loaded]: new ones, of reachable
    libraries. *)
Definition fresh (root : jsstring) (loaded loaded' : gset jsstring)
  (new : list jsstring) : Prop :=
  NoDup new
  /\ (forall k, k ∈ loaded' <-> k ∈ loaded \/ k ∈ new)
  /\ (forall k, k ∈ new -> k ∉ loaded)
  /\ (forall k, k ∈ new -> reachable root k).

(** What holds of a configuration that listAssets of the library stored
    under [root] has reached. *)
Definition consistent (root : jsstring) (c : gset jsstring * task T)
  : Prop :=
  exists ks,
    inv c.1 c.2 ks /\ NoDup ks /\ (forall k, k ∈ ks <-> k ∈ c.1)
    /\ (forall k, k ∈ c.1 -> reachable root k) /\ root ∈ c.1.

(** *** Libraries that can be loaded *)

(** Every library that the dependency graph reaches from [root] can be
    loaded: it is installed, its language and its addons are read without
    an exception, and its dependencies have names that toUberName
    renders. *)
Definition available (root : jsstring) : Prop :=
  forall k, reachable root k ->
    exists library,
      repo env !! k = Some (Ok library)
      /\ is_Ok (getLanguage env k)
      /\ is_Ok (getAddonsForLibrary env (machineName (identity library)))
      /\ forall d, d ∈ dependencies_of library -> is_Ok (key d).

(** A repository that is closed: whatever is stored can be loaded, and
    names only stored libraries as its dependencies. *)
Definition closed : Prop :=
  forall k r, repo env !! k = Some r ->
    exists library,
      r = Ok library
      /\ is_Ok (getLanguage env k)
      /\ is_Ok (getAddonsForLibrary env (machineName (identity library)))
      /\ forall d, d ∈ dependencies_of library ->
           exists k', key d = Ok k' /\ is_Some (repo env !! k').

(** No call in flight has thrown. *)
Fixpoint clean (t : task T) : Prop :=
  match t with
  | Rejected _ => False
  | Resolving _ _ _ c1 c2 c3 =>
      clean_chain c1 /\ clean_chain c2 /\ clean_chain c3
  | _ => True
  end
with clean_chain (c : chain T) : Prop :=
  match c with
  | Broken _ => False
  | Chain _ current _ => clean current
  | Resolved _ => True
  end.

End Spec.
End AssetsSpec.

(** A repository with a cycle: A needs B (preloaded) and C (editor), B needs
    A and C, C needs B. *)
Module AssetsExample.
Import Assets.

Definition version_1_0 (name : string) : LibraryName :=
  {| machineName := str name; majorVersion := VNumber (Int 1);
     minorVersion := VNumber (Int 0) |}.

Definition library (name : string) (preloaded editor : list LibraryName)
  (js : string) : jsstring * result InstalledLibrary :=
  (str name ++ str "-1.0",
   Ok {| identity := version_1_0 name; patchVersion := 0;
         title := str name; runnable := true; metadataSettings := None;
         preloadedDependencies := preloaded;
         editorDependencies := editor;
         dynamicDependencies := [];
         preloadedJs := [str js]; preloadedCss := [] |}).

Definition cyclic : environment unit :=
  {| repo :=
       list_to_map
         [library "A" [version_1_0 "B"] [version_1_0 "C"] "a.js";
          library "B" [version_1_0 "A"; version_1_0 "C"] [] "b.js";
          library "C" [version_1_0 "B"] [] "c.js"];
     getLanguage := fun _ => Ok None;
     getAddonsForLibrary := fun _ => Ok [];
     libraryFile := fun l file =>
       machineName (identity l) ++ str "/" ++ file;
     alterLibraryFiles := None |}.

Definition cyclic_assets : assets unit :=
  {| scripts := [str "B/b.js"; str "C/c.js"; str "A/a.js"];
     styles := []; translations := ∅ |}.

End AssetsExample.

(** ** LibraryName.js: the shape of an ubername *)

Module UberNameSpec.

(** A string that [\d+] matches as a whole. *)
Definition digits (s : jsstring) : Prop :=
  s <> [] /\ forallb Char.is_digit s = true.

(** The Number that parseInt makes of a string of digits: the double
    nearest to their value, Infinity beyond the largest double. *)
Definition number_of (ds : jsstring) : value :=
  VNumber (Number.of_integer false (Number.of_digits ds)).

(** A Number that is not negative: the double of an integer from 0 on,
    or Infinity. *)
Definition non_negative (v : value) : Prop :=
  (exists z : Z, v = VNumber (Int z) /\ (0 <= z)%Z
                 /\ Number.is_double z = true)
  \/ v = VNumber (Infinity false).

(** The error of an ubername that does not match the pattern. *)
Definition invalid_ubername_pattern (o : options) (ubername : jsstring)
  : exn :=
  H5pError (str "invalid-ubername-pattern")
    [(str "example", LibraryName.example o); (str "name", ubername)] 400.

End UberNameSpec.

(** ** H5PEditor.js: language codes, language files, library data and the
       libraries in content parameters *)

Module H5PEditor.

(** [[a-z]] and [[A-Z]] under the [i] flag (without [u]): the ASCII
    letters of either case. *)
Definition is_letter (c : N) : bool :=
  ((65 <=? c) && (c <=? 90)) || ((97 <=? c) && (c <=? 122)).

(** [/^[a-z]{2,3}(-[A-Z]{2,6})?$/i.test(s)]. The run of letters at the
    head is followed by a hyphen or by the end of the input, neither of
    which is a letter, so the run has to be the whole first part. *)
Definition test_languageCode (s : jsstring) : bool :=
  let '(language, rest) := span is_letter s in
  (2 <=? length language)%nat && (length language <=? 3)%nat
  && match rest with
     | [] => true
     | 45 :: variant =>
         forallb is_letter variant
         && (2 <=? length variant)%nat && (length variant <=? 6)%nat
     | _ => false
     end.

Definition validateLanguageCode (languageCode : jsstring) : result unit :=
  if negb (test_languageCode languageCode) then
    Throw (Error (str "Language code " ++ languageCode
                  ++ str " is invalid."))
  else Ok tt.

(** *** getLibraryData *)

Section LibraryData.

(** [libraryExists]: [libraryManager.libraryExists]; [load]: the rest of
    getLibraryData once the library is known to exist (the Promise.all of
    listAssets and of five reads of the library manager, and the object
    built from their results). *)
Context {A : Type}.
Variable libraryExists : LibraryName -> result bool.
Variable load : LibraryName -> jsstring -> result A.

Definition library_not_found (name : jsstring) : exn :=
  H5pError (str "library-not-found") [(str "name", name)] 404.

(** [Number.parseInt(v, 10)] for an argument that need not be a string:
    parseInt reads the string that the argument converts to. *)
Definition parseInt_of (v : value) : number :=
  Number.parseInt (Value.to_string v).

Definition getLibraryData (machineName : jsstring)
  (majorVersion minorVersion : value) (language : jsstring) : result A :=
  let majorVersionAsNr := parseInt_of majorVersion in
  let minorVersionAsNr := parseInt_of minorVersion in
  library ← LibraryName.new machineName (VNumber majorVersionAsNr)
              (VNumber minorVersionAsNr);
  _ ← validateLanguageCode language;
  found ← libraryExists library;
  if negb found then
    name ← LibraryName.toUberName library LibraryName.default_options;
    Throw (library_not_found name)
  else load library language.

End LibraryData.

(** *** listLibraryLanguageFiles *)

(** A promise of the list given to Promise.all: already rejected when
    Promise.all looks at it (fromUberName threw in the synchronous head of
    the callback), or settled later, after the [await]. A promise that is
    rejected already is reported before any that settles later. *)
Inductive promise (B : Type) : Type :=
| RejectedAtOnce (e : exn)
| SettledLater (r : result B).
Arguments RejectedAtOnce {B} e.
Arguments SettledLater {B} r.

Definition rejected_at_once {B} (p : promise B) : option exn :=
  match p with RejectedAtOnce e => Some e | SettledLater _ => None end.

Definition rejected_later {B} (p : promise B) : option exn :=
  match p with SettledLater (Throw e) => Some e | _ => None end.

Definition fulfilled {B} (p : promise B) : option B :=
  match p with SettledLater (Ok b) => Some b | _ => None end.

Section LanguageFiles.

(** [getLanguage]: [libraryManager.getLanguage], a string, [null] or an
    exception. The library manager is asynchronous: the exception is the
    rejection of the promise that getLanguage returns, and reaches the
    callback at its [await]. [first_rejection]: when several of the
    getLanguage calls fail, Promise.all reports the failure that comes
    first in time, which is up to the storage. *)
Variable getLanguage : LibraryName -> jsstring -> result (option jsstring).
Variable first_rejection : list exn -> exn.

(** The asynchronous callback of [libraryUbernames.map]. *)
Definition language_entry (language name : jsstring)
  : promise (option jsstring * jsstring) :=
  match LibraryName.fromUberName name Overview.overview_options with
  | Throw e => RejectedAtOnce e
  | Ok lib =>
      SettledLater (languageString ← getLanguage lib language;
                    Ok (languageString, name))
  end.

(** [await Promise.all(promises)] *)
Definition promise_all {B} (promises : list (promise B)) : result (list B) :=
  match omap rejected_at_once promises with
  | e :: _ => Throw e
  | [] =>
      match omap rejected_later promises with
      | [] => Ok (omap fulfilled promises)
      | es => Throw (first_rejection es)
      end
  end.

(** The callback of [reduce]: a falsy language string ([null] or the
    empty string) is left out. *)
Definition add_language (builtObject : gmap jsstring jsstring)
  (entry : option jsstring * jsstring) : gmap jsstring jsstring :=
  match entry with
  | (Some (c :: s), name) => <[name := c :: s]> builtObject
  | _ => builtObject
  end.

Definition listLibraryLanguageFiles (libraryUbernames : list jsstring)
  (language : jsstring) : result (gmap jsstring jsstring) :=
  _ ← validateLanguageCode language;
  entries ← promise_all (language_entry language <$> libraryUbernames);
  Ok (foldl add_language ∅ entries).

End LanguageFiles.

(** *** findLibrariesInParameters *)

(** The content parameters (content.json): a primitive value, an array,
    or an object with its own properties in the order [Object.keys] gives
    them. *)
#[local] Unset Elimination Schemes.
Inductive parameters : Type :=
| Primitive (v : value)
| Array (elements : list parameters)
| Object (properties : list (jsstring * parameters)).
#[local] Set Elimination Schemes.

(** [.] of a regular expression without the [s] flag: anything but a line
    terminator. *)
Definition is_line_terminator (c : N) : bool :=
  (c =? 10) || (c =? 13) || (c =? 8232) || (c =? 8233).

(** [\d+\.\d+] at the head of [s]. *)
Definition version_ahead (s : jsstring) : bool :=
  match span Char.is_digit s with
  | (_ :: _, 46 :: d :: _) => Char.is_digit d
  | _ => false
  end.

(** [s.match(/.+ \d+\.\d+/)] finds something: the expression is not
    anchored, so it matches when some space follows a character that is
    not a line terminator (the last one of [.+]) and is followed by a
    version. [previous] is the character before the head of [s]. *)
Fixpoint match_from (previous : N) (s : jsstring) : bool :=
  match s with
  | [] => false
  | c :: s' =>
      ((c =? 32) && negb (is_line_terminator previous) && version_ahead s')
      || match_from c s'
  end.

Definition match_library (s : jsstring) : bool :=
  match s with
  | [] => false
  | c :: s' => match_from c s'
  end.

(** The object [collect]: its own properties in the order of their
    creation (an ubername holds a space, so none of them is an array
    index, and [Object.values] keeps that order). *)
Abbreviation collected := (list (jsstring * LibraryName)).

(** [collect[key] = library] *)
Fixpoint assign (key : jsstring) (library : LibraryName)
  (collect : collected) : collected :=
  match collect with
  | [] => [(key, library)]
  | (k, l) :: rest =>
      if decide (k = key) then (k, library) :: rest
      else (k, l) :: assign key library rest
  end.

(** [forEach] with a callback that changes a state and may throw. *)
Definition forEach {B S : Type} (callback : B -> S -> result S)
  : list B -> S -> result S :=
  fix each (l : list B) (s : S) : result S :=
    match l with
    | [] => Ok s
    | b :: l' => s' ← callback b s; each l' s'
    end.

(** What findLibrariesInParameters returns: [collect] itself for
    parameters that are no object, [Object.values(collect)] otherwise. *)
Inductive found : Type :=
| Collect (collect : collected)
| Values (libraries : list LibraryName).

(** The state of [collect] after the call; the recursive calls are made
    for this effect alone. *)
Fixpoint crawl (p : parameters) (collect : collected) : result collected :=
  match p with
  | Primitive _ => Ok collect
  | Array elements => forEach crawl elements collect
  | Object properties =>
      forEach
        (fun (property : jsstring * parameters) collect =>
           let '(key, value) := property in
           match decide (key = str "library"), value with
           | left _, Primitive (VString s) =>
               if match_library s then
                 library ← LibraryName.fromUberName s
                             Overview.overview_options;
                 Ok (assign s library collect)
               else Ok collect
           | _, _ => crawl value collect
           end)
        properties collect
  end.

Definition findLibrariesInParameters (p : parameters) (collect : collected)
  : result found :=
  match p with
  | Primitive _ => Ok (Collect collect)
  | _ => collect' ← crawl p collect; Ok (Values (snd <$> collect'))
  end.

End H5PEditor.

Module H5PEditorSpec.
Import H5PEditor.

(** A language code: two or three letters, and possibly a hyphen and two
    to six letters after them. *)
Definition language_code (s : jsstring) : Prop :=
  exists language : jsstring,
    forallb is_letter language = true
    /\ (2 <= length language <= 3)%nat
    /\ (s = language
        \/ exists variant : jsstring,
             s = language ++ Char.hyphen :: variant
             /\ forallb is_letter variant = true
             /\ (2 <= length variant <= 6)%nat).

(** A version that prints as digits: an integer from 0 up to, and not
    including, 10^21. *)
Definition in_range (n : number) : Prop :=
  exists z : Z, n = Int z /\ (0 <= z < 10 ^ 21)%Z.

End H5PEditorSpec.

Module LanguageFilesSpec.
Import H5PEditor.

(** An ubername that getLibraryOverview and listLibraryLanguageFiles can
    parse: they accept white space as the separator, and no hyphen. *)
Definition parses (name : jsstring) : Prop :=
  is_Ok (LibraryName.fromUberName name Overview.overview_options).

Section Spec.

Variable getLanguage : LibraryName -> jsstring -> result (option jsstring).

(** The language string of a library, when there is a truthy one. *)
Definition language_string (language name : jsstring) : option jsstring :=
  match LibraryName.fromUberName name Overview.overview_options with
  | Ok lib =>
      match getLanguage lib language with
      | Ok (Some (c :: s)) => Some (c :: s)
      | _ => None
      end
  | Throw _ => None
  end.

(** getLanguage throws for the library of this ubername. *)
Definition language_fails (language name : jsstring) (e : exn) : Prop :=
  exists lib,
    LibraryName.fromUberName name Overview.overview_options = Ok lib
    /\ getLanguage lib language = Throw e.

End Spec.

Definition example_getLanguage (lib : LibraryName) (language : jsstring)
  : result (option jsstring) :=
  if bool_decide (machineName lib = str "H5P.Example") then
    Ok (Some (str "{}"))
  else if bool_decide (machineName lib = str "H5P.Broken") then
    Throw (Error (str "storage"))
  else Ok None.

End LanguageFilesSpec.

Module ParametersSpec.
Import H5PEditor.

(** The library references of the parameters, in the order in which
    findLibrariesInParameters comes to them. *)
Fixpoint library_strings (p : parameters) : list jsstring :=
  match p with
  | Primitive _ => []
  | Array elements => elements ≫= library_strings
  | Object properties =>
      properties ≫= (fun property =>
        let '(key, value) := property in
        match decide (key = str "library"), value with
        | left _, Primitive (VString s) =>
            if match_library s then [s] else []
        | _, _ => library_strings value
        end)
  end.

(** The induction principle of the parameters, with the elements of an
    array and the values of an object as premises. *)
Section Induction.

Variable P : parameters -> Prop.
Hypothesis primitive : forall v, P (Primitive v).
Hypothesis array : forall elements, Forall P elements -> P (Array elements).
Hypothesis object :
  forall properties,
    Forall (fun property => P property.2) properties ->
    P (Object properties).

Fixpoint parameters_ind (p : parameters) : P p :=
  match p with
  | Primitive v => primitive v
  | Array elements =>
      array elements
        ((fix each (l : list parameters) : Forall P l :=
            match l with
            | [] => Forall_nil_2 P
            | e :: l' => Forall_cons_2 P e l' (parameters_ind e) (each l')
            end) elements)
  | Object properties =>
      object properties
        ((fix each (l : list (jsstring * parameters))
            : Forall (fun property => P property.2) l :=
            match l with
            | [] => Forall_nil_2 _
            | e :: l' =>
                Forall_cons_2 (fun property => P property.2) e l'
                  (parameters_ind e.2) (each l')
            end) properties)
  end.

End Induction.

(** The names of the properties of [collect]. *)
Abbreviation keys :=
  (fmap (M:=list) (fst : jsstring * LibraryName -> jsstring)).

(** The properties of [collect] were parsed from their names. *)
Definition parsed (collect : collected) : Prop :=
  Forall (fun kv =>
            LibraryName.fromUberName kv.1 Overview.overview_options
            = Ok kv.2) collect.

(** What a run of the crawl that does not throw leaves in [collect]. *)
Definition crawled (strings : list jsstring) (collect collect' : collected)
  : Prop :=
  (NoDup (keys collect) -> NoDup (keys collect'))
  /\ (parsed collect -> parsed collect')
  /\ Forall LanguageFilesSpec.parses strings
  /\ forall s, s ∈ keys collect' <-> s ∈ keys collect \/ s ∈ strings.

(** Content parameters with a well-formed reference, a reference with a
    tab and, further in, the first reference again. *)
Definition example_parameters : parameters :=
  Object
    [(str "library", Primitive (VString (str "H5P.Column 1.16")));
     (str "params",
      Object
        [(str "content",
          Array
            [Object
               [(str "library",
                 Primitive (VString (str "H5P.Text" ++ 9 :: str "1.1")))];
             Object
               [(str "library",
                 Primitive (VString (str "H5P.Column 1.16")))]])])].

End ParametersSpec.

(** ** H5PEditor.js: what listAssets returns for the library itself *)

Module AssetsOrderSpec.
Import Assets AssetsSpec.

Section Spec.

Context {T : Type}.
Variable env : environment T.

(** The assets end with the files of the library [n] itself, and hold
    its translation under its machine name. *)
Definition own_last (n : LibraryName) (a : assets T) : Prop :=
  exists (root : jsstring) (library : InstalledLibrary)
         (dependencies : assets T),
    key n = Ok root /\ repo env !! root = Some (Ok library)
    /\ scripts a = scripts dependencies ++ own_scripts env n library
    /\ styles a = styles dependencies ++ own_styles env n library
    /\ forall translation,
         getLanguage env root = Ok (Some translation) ->
         translations a !! machineName n = Some translation.

(** What holds of the outermost call of listAssets for [n]. *)
Definition outermost (n : LibraryName) (t : task T) : Prop :=
  match t with
  | Loading n' => n' = n
  | Resolving n' library translation _ _ _ =>
      n' = n
      /\ exists root,
           key n = Ok root /\ repo env !! root = Some (Ok library)
           /\ getLanguage env root = Ok translation
  | Returned a => own_last n a
  | Null | Rejected _ => True
  end.

(** A library that cannot be loaded: nothing is stored under the
    ubername, or getLibrary throws. *)
Definition unavailable (k : jsstring) : Prop :=
  forall library : InstalledLibrary, repo env !! k <> Some (Ok library).

End Spec.
End AssetsOrderSpec.

Module AssetsOrderExample.
Import Assets AssetsExample.

(** A needs B and a library C that is not installed. *)
Definition incomplete : environment unit :=
  {| repo :=
       list_to_map
         [library "A" [version_1_0 "B"; version_1_0 "C"] [] "a.js";
          library "B" [] [] "b.js"];
     getLanguage := fun _ => Ok None;
     getAddonsForLibrary := fun _ => Ok [];
     libraryFile := fun l file =>
       machineName (identity l) ++ str "/" ++ file;
     alterLibraryFiles := None |}.

End AssetsOrderExample.

(** ** helpers/ValidatorBuilder.js: rules that report errors *)

Module ValidatorBuilderErrorsExample.
Import ValidatorBuilder.

(** A rule that adds an error to the error object and goes on, and one
    that tells the pipeline to stop. *)
Definition complain : rule nat unit (AggregateH5pError * unit)
                        AggregateH5pError :=
  fun data _ st =>
    (Return data, (addError (fst st) (Error (str "invalid")), snd st)).

Definition stop : rule nat unit (AggregateH5pError * unit)
                    AggregateH5pError :=
  fun _ _ st => (Return None, st).

End ValidatorBuilderErrorsExample.

(** ** implementation/fs/FileContentUserDataStorage.ts *)

(** The interfaces IUser, IContentUserData and IFinishedUserData are
    declared in a file that is not among the sources (types.ts); they are
    taken as classes with the fields that the storage reads. All these
    fields are strings, but for [contextId], which may be [undefined]
    ([None]), and the flag [invalidate]. *)
Class IUser (U : Type) : Type := {
  id : U -> jsstring
}.

Class IFinishedUserData (F : Type) : Type := {
  finished_contentId : F -> jsstring;
  finished_userId : F -> jsstring
}.

Class IContentUserData (D : Type) : Type := {
  contentId : D -> jsstring;
  contextId : D -> option jsstring;
  dataType : D -> jsstring;
  invalidate : D -> bool;
  subContentId : D -> jsstring;
  userId : D -> jsstring
}.

Module FileContentUserDataStorage.

(** A file of the directory, as [JSON.parse(await readFile(file))] sees
    it: a list of objects, as the storage writes them, or something that
    makes reading or parsing throw. Files that parse to something else
    (the corrupt files of the log messages) are left out. *)
Inductive file (D : Type) : Type :=
| Json (dataList : list D)
| Unreadable.
Arguments Json {D} dataList.
Arguments Unreadable {D}.

(** The files of [this.directory], by their paths: a file has one path,
    the one that [path.join] makes and that [getAllFiles] lists. *)
Abbreviation directory_of D := (gmap jsstring (file D)).

Section FileSystem.

Context {D : Type}.

(** [writeFile] and [rm] may fail: [write_error] and [rm_error] say for
    which paths they do. The storage catches and logs these errors; a
    failed call is taken to leave the file as it was. *)
Variable write_error : jsstring -> bool.
Variable rm_error : jsstring -> bool.

(** [JSON.parse(await readFile(file, 'utf-8'))]; [None] when it throws. *)
Definition readFile (fs : directory_of D) (path : jsstring)
  : option (list D) :=
  match fs !! path with
  | Some (Json dataList) => Some dataList
  | _ => None
  end.

(** [try { await writeFile(file, JSON.stringify(data)) } catch { log }] *)
Definition writeFile (path : jsstring) (data : list D)
  (fs : directory_of D) : directory_of D :=
  if write_error path then fs else <[path := Json data]> fs.

(** [try { await rm(file, { recursive: true, force: true }) }
     catch { log }] *)
Definition rm (path : jsstring) (fs : directory_of D) : directory_of D :=
  if rm_error path then fs else delete path fs.

(** [await getAllFiles(this.directory).toArray()], in the order in which
    the directory is listed. *)
Definition getAllFiles (fs : directory_of D) : list jsstring :=
  (map_to_list fs).*1.

(** [file.endsWith(suffix)] *)
Definition endsWith (path suffix : jsstring) : bool :=
  bool_decide (suffix `suffix_of` path).

End FileSystem.

Section Storage.

Context {U D F : Type} `{!IUser U, !IContentUserData D,
                        !IFinishedUserData F}.
Variable write_error : jsstring -> bool.
Variable rm_error : jsstring -> bool.

(** [checkFilename] and [sanitizeFilename] come from filenameUtils, which
    is not among the sources, and [join] is [path.join]; [directory] is
    [this.directory]. *)
Variable checkFilename : jsstring -> result unit.
Variable sanitizeFilename : jsstring -> nat -> (N -> bool) -> jsstring.
Variable join : jsstring -> jsstring -> jsstring.
Variable directory : jsstring.

(** [/[^A-Za-z0-9\-._]/g] *)
Definition invalid_character (c : N) : bool :=
  negb (Char.is_name c || (c =? Char.hyphen)).

Definition getSafeUserDataFilePath (contentId' : jsstring)
  : result jsstring :=
  _ ← checkFilename contentId';
  Ok (join directory
        (sanitizeFilename (contentId' ++ str "-userdata.json") 80
           invalid_character)).

Definition getSafeFinishedFilePath (contentId' : jsstring)
  : result jsstring :=
  _ ← checkFilename contentId';
  Ok (join directory
        (sanitizeFilename (contentId' ++ str "-finished.json") 80
           invalid_character)).

(** *** User states *)

(** The callback of [find] in getContentUserData. *)
Definition requested (dataType' subContentId' userId' : jsstring)
  (contextId' : option jsstring) (data : D) : bool :=
  bool_decide (dataType data = dataType')
  && bool_decide (subContentId data = subContentId')
  && bool_decide (userId data = userId')
  && bool_decide (contextId data = contextId').

Definition getContentUserData (contentId' dataType' subContentId'
  userId' : jsstring) (contextId' : option jsstring) (fs : directory_of D)
  : result (option D) :=
  file ← getSafeUserDataFilePath contentId';
  match readFile fs file with
  | None => Ok None
  | Some dataList =>
      Ok (List.find (requested dataType' subContentId' userId' contextId')
            dataList)
  end.

Definition getContentUserDataByUser (user : U) (fs : directory_of D)
  : list D :=
  foldl (fun result file =>
           if negb (endsWith file (str "-userdata.json")) then result
           else
             match readFile fs file with
             | None => result
             | Some data =>
                 result
                 ++ List.filter
                      (fun entry => bool_decide (userId entry = id user))
                      data
             end)
        [] (getAllFiles fs).

(** The callback of [filter] in createOrUpdateContentUserData: the
    entries that are kept. *)
Definition another (userData data : D) : bool :=
  negb (bool_decide (contentId data = contentId userData))
  || negb (bool_decide (dataType data = dataType userData))
  || negb (bool_decide (subContentId data = subContentId userData))
  || negb (bool_decide (userId data = userId userData))
  || negb (bool_decide (contextId data = contextId userData)).

Definition createOrUpdateContentUserData (userData : D)
  (fs : directory_of D) : result (directory_of D) :=
  filename ← getSafeUserDataFilePath (contentId userData);
  let oldData := default [] (readFile fs filename) in
  let newUserData := List.filter (another userData) oldData ++ [userData] in
  Ok (writeFile write_error filename newUserData fs).

Definition deleteInvalidatedContentUserData (contentId' : jsstring)
  (fs : directory_of D) : result (directory_of D) :=
  filename ← getSafeUserDataFilePath contentId';
  let oldData := default [] (readFile fs filename) in
  let newUserData :=
    List.filter
      (fun data => negb (bool_decide (contentId data = contentId'))
                   || negb (invalidate data))
      oldData in
  Ok (writeFile write_error filename newUserData fs).

Definition deleteAllContentUserDataByUser (user : U) (fs : directory_of D)
  : directory_of D :=
  foldl (fun fs file =>
           if negb (endsWith file (str "-userdata.json")) then fs
           else
             match readFile fs file with
             | None => fs
             | Some data =>
                 writeFile write_error file
                   (List.filter
                      (fun d => negb (bool_decide (userId d = id user)))
                      data)
                   fs
             end)
        fs (getAllFiles fs).

Definition deleteAllContentUserDataByContentId (contentId' : jsstring)
  (fs : directory_of D) : result (directory_of D) :=
  file ← getSafeUserDataFilePath contentId';
  Ok (rm rm_error file fs).

(** [data.contextId == contextId] compares two values that are strings
    or [undefined], for which [==] is [===]. *)
Definition getContentUserDataByContentIdAndUser (contentId' userId'
  : jsstring) (contextId' : option jsstring) (fs : directory_of D)
  : result (list D) :=
  file ← getSafeUserDataFilePath contentId';
  match readFile fs file with
  | None => Ok []
  | Some dataList =>
      Ok (List.filter
            (fun data => bool_decide (userId data = userId')
                         && bool_decide (contextId data = contextId'))
            dataList)
  end.

(** *** Finished data *)

Definition createOrUpdateFinishedData (finishedData : F)
  (fs : directory_of F) : result (directory_of F) :=
  filename ← getSafeFinishedFilePath (finished_contentId finishedData);
  let oldData := default [] (readFile fs filename) in
  let newData :=
    List.filter
      (fun data =>
         negb (bool_decide
                 (finished_userId data = finished_userId finishedData)))
      oldData
    ++ [finishedData] in
  Ok (writeFile write_error filename newData fs).

(** [None] is [undefined], which is what a file that cannot be read
    gives. *)
Definition getFinishedDataByContentId (contentId' : jsstring)
  (fs : directory_of F) : result (option (list F)) :=
  file ← getSafeFinishedFilePath contentId';
  Ok (readFile fs file).

Definition getFinishedDataByUser (user : U) (fs : directory_of F)
  : list F :=
  foldl (fun result file =>
           if negb (endsWith file (str "-finished.json")) then result
           else
             match readFile fs file with
             | None => result
             | Some data =>
                 result
                 ++ List.filter
                      (fun entry =>
                         bool_decide (finished_userId entry = id user))
                      data
             end)
        [] (getAllFiles fs).

Definition deleteFinishedDataByContentId (contentId' : jsstring)
  (fs : directory_of F) : result (directory_of F) :=
  file ← getSafeFinishedFilePath contentId';
  Ok (rm rm_error file fs).

Definition deleteFinishedDataByUser (user : U) (fs : directory_of F)
  : directory_of F :=
  foldl (fun fs file =>
           if negb (endsWith file (str "-finished.json")) then fs
           else
             match readFile fs file with
             | None => fs
             | Some data =>
                 writeFile write_error file
                   (List.filter
                      (fun d =>
                         negb (bool_decide (finished_userId d = id user)))
                      data)
                   fs
             end)
        fs (getAllFiles fs).

End Storage.

End FileContentUserDataStorage.

Module UserDataSpec.
Import FileContentUserDataStorage.

Section Spec.

Context {D : Type} `{!IContentUserData D}.

(** [path]: the file of a content id (getSafeUserDataFilePath). *)
Variable path : jsstring -> result jsstring.

(** What createOrUpdateContentUserData keeps one entry of. *)
Definition state_key (data : D)
  : jsstring * jsstring * jsstring * jsstring * option jsstring :=
  (contentId data, dataType data, subContentId data, userId data,
   contextId data).

(** No two content ids share a file. *)
Definition one_file_per_content : Prop :=
  forall c c' file : jsstring,
    path c = Ok file -> path c' = Ok file -> c = c'.

(** Every entry is in the file of its content id. *)
Definition kept (fs : directory_of D) : Prop :=
  forall (file : jsstring) (dataList : list D) (data : D),
    fs !! file = Some (Json dataList) -> data ∈ dataList ->
    path (contentId data) = Ok file.

(** What deleteAllContentUserDataByUser makes of the file [name], when
    no write fails. *)
Definition without {U : Type} `{!IUser U} (user : U) (name : jsstring)
  (content : option (file D)) : option (file D) :=
  match content with
  | Some (Json data) =>
      if endsWith name (str "-userdata.json") then
        Some (Json (List.filter
                      (fun d => negb (bool_decide (userId d = id user)))
                      data))
      else content
  | _ => content
  end.

End Spec.

(** A user state with its fields, for the examples. *)
Record user_state : Type := mkUserState {
  state_contentId : jsstring;
  state_contextId : option jsstring;
  state_dataType : jsstring;
  state_invalidate : bool;
  state_subContentId : jsstring;
  state_userId : jsstring;
  state_userState : jsstring
}.

#[global] Instance user_state_data : IContentUserData user_state := {
  contentId := state_contentId;
  contextId := state_contextId;
  dataType := state_dataType;
  invalidate := state_invalidate;
  subContentId := state_subContentId;
  userId := state_userId
}.

#[global] Instance user_state_finished : IFinishedUserData user_state := {
  finished_contentId := state_contentId;
  finished_userId := state_userId
}.

#[global] Instance user_by_id : IUser jsstring := { id := fun u => u }.

Definition example_state (user state : string) : user_state :=
  {| state_contentId := str "42"; state_contextId := None;
     state_dataType := str "state"; state_invalidate := false;
     state_subContentId := str "0"; state_userId := str user;
     state_userState := str state |}.

(** File name helpers that change nothing, in the directory [data]. *)
Definition example_path (contentId' : jsstring) : result jsstring :=
  getSafeUserDataFilePath (fun _ => Ok tt) (fun name _ _ => name)
    (fun directory name => directory ++ 47 :: name) (str "data") contentId'.

Definition example_finished_path (contentId' : jsstring) : result jsstring :=
  getSafeFinishedFilePath (fun _ => Ok tt) (fun name _ _ => name)
    (fun directory name => directory ++ 47 :: name) (str "data") contentId'.

Definition example_directory : directory_of user_state :=
  {[ str "data/42-userdata.json" :=
       Json [example_state "alice" "old"; example_state "bob" "b"] ]}.

(** A user state of the same content that is flagged [invalidate]. *)
Definition invalidated_state (user : string) : user_state :=
  {| state_contentId := str "42"; state_contextId := None;
     state_dataType := str "state"; state_invalidate := true;
     state_subContentId := str "0"; state_userId := str user;
     state_userState := [] |}.

(** The finished data of three users for the content 42. *)
Definition finished_directory : directory_of user_state :=
  {[ str "data/42-finished.json" :=
       Json [example_state "bob" "b"; example_state "alice" "old";
             example_state "carol" "c"] ]}.

Definition invalidated_directory : directory_of user_state :=
  {[ str "data/42-userdata.json" :=
       Json [invalidated_state "alice"; example_state "bob" "b"] ]}.

End UserDataSpec.

(** * Theorems *)

(** * Facts about strings and numbers *)

Section Span.

Variable p : N -> bool.

Lemma span_app (s : jsstring) : (span p s).1 ++ (span p s).2 = s.
Proof.
  induction s as [|c s IH]; simpl; [done|].
  destruct (p c); [|done].
  destruct (span p s) as [a b]; simpl in *. by rewrite IH.
Qed.

Lemma span_prefix (s : jsstring) : forallb p (span p s).1 = true.
Proof.
  induction s as [|c s IH]; simpl; [done|].
  destruct (p c) eqn:Hc; [|done].
  destruct (span p s) as [a b]; simpl in *. by rewrite Hc, IH.
Qed.

(** The run ends at the first character outside the class. *)
Lemma span_stop (a : jsstring) (c : N) (r : jsstring) :
  forallb p a = true -> p c = false -> span p (a ++ c :: r) = (a, c :: r).
Proof.
  induction a as [|x a IH]; simpl; intros Ha Hc.
  - by rewrite Hc.
  - apply andb_true_iff in Ha as [-> Ha]. by rewrite IH.
Qed.

Lemma span_all (a : jsstring) : forallb p a = true -> span p a = (a, []).
Proof.
  induction a as [|x a IH]; simpl; [done|].
  intros [-> Ha]%andb_true_iff. by rewrite IH.
Qed.

(** A character outside the class is never consumed. *)
Lemma span_rest (s : jsstring) (c : N) :
  c ∈ s -> p c = false -> (span p s).2 <> [].
Proof.
  induction s as [|x s IH]; intros Hin Hc; [by apply elem_of_nil in Hin|].
  simpl. destruct (p x) eqn:Hx; [|done].
  apply elem_of_cons in Hin as [->|Hin]; [congruence|].
  destruct (span p s) as [a b]; simpl in *. by apply IH.
Qed.

End Span.

Module CharFacts.
Import Char.

Ltac classes :=
  unfold is_hyphen_or_space, is_name, is_word, is_digit, is_space, is_hyphen,
    hyphen, dot, space in *;
  repeat match goal with
    | H : _ && _ = true |- _ => apply andb_true_iff in H as [? ?]
    | H : _ || _ = true |- _ => apply orb_true_iff in H as [?|?]
    | H : (_ <=? _) = true |- _ => apply N.leb_le in H
    | H : (_ =? _) = true |- _ => apply N.eqb_eq in H
    end.

Ltac refute :=
  apply not_true_is_false; intros ?; classes; lia.

Lemma digit_is_name c : is_digit c = true -> is_name c = true.
Proof.
  intros H. unfold is_name, is_word. by rewrite H.
Qed.

Lemma digits_are_name (ds : jsstring) :
  forallb is_digit ds = true -> forallb is_name ds = true.
Proof.
  induction ds as [|c ds IH]; simpl; [done|].
  intros [Hc Hds]%andb_true_iff. by rewrite (digit_is_name c Hc), IH.
Qed.

Lemma hyphen_not_name c : is_hyphen c = true -> is_name c = false.
Proof. intros H. refute. Qed.

Lemma space_not_name c : is_space c = true -> is_name c = false.
Proof. intros H. refute. Qed.

Lemma hyphen_or_space_not_name c :
  is_hyphen_or_space c = true -> is_name c = false.
Proof. intros H. refute. Qed.

Lemma digit_not_space c : is_digit c = true -> is_space c = false.
Proof. intros H. refute. Qed.

Lemma dot_not_digit : is_digit dot = false.
Proof. reflexivity. Qed.

End CharFacts.

Module NumberFacts.
Import Number.

Lemma of_digits_snoc (ds : jsstring) (c : N) :
  of_digits (ds ++ [c]) = 10 * of_digits ds + (c - 48).
Proof. unfold of_digits. by rewrite foldl_app. Qed.

Lemma digit_of_mod (n : N) : Char.is_digit (48 + n mod 10) = true.
Proof.
  pose proof (N.mod_upper_bound n 10 ltac:(done)) as H.
  unfold Char.is_digit. revert H. generalize (n mod 10). intros m H.
  apply andb_true_iff; split; apply N.leb_le; lia.
Qed.

Ltac divmod n :=
  pose proof (N.div_mod' n 10); pose proof (N.mod_upper_bound n 10 ltac:(done));
  generalize dependent (n mod 10); generalize dependent (n / 10); intros; lia.

Lemma to_digits_step (fuel : nat) (n : N) (acc : jsstring) :
  to_digits (S fuel) n acc =
  if n / 10 =? 0 then (48 + n mod 10) :: acc
  else to_digits fuel (n / 10) ((48 + n mod 10) :: acc).
Proof. reflexivity. Qed.

Lemma to_digits_spec (fuel : nat) : forall (n : N) (acc : jsstring),
  n < 2 ^ N.of_nat (S fuel) ->
  exists ds, to_digits (S fuel) n acc = ds ++ acc /\ ds <> []
             /\ forallb Char.is_digit ds = true /\ of_digits ds = n.
Proof.
  induction fuel as [|fuel IH]; intros n acc Hn.
  - exists [48 + n mod 10]. assert (n / 10 = 0) as Hq.
    { apply N.div_small. change (2 ^ N.of_nat 1) with 2 in Hn. lia. }
    rewrite to_digits_step, Hq. cbn [N.eqb]. repeat split; [done|..].
    + cbn [forallb]. by rewrite digit_of_mod.
    + unfold of_digits; simpl foldl.
      divmod n.
  - rewrite to_digits_step. destruct (n / 10 =? 0) eqn:Hq.
    + apply N.eqb_eq in Hq. exists [48 + n mod 10]. repeat split; [done|..].
      * cbn [forallb]. by rewrite digit_of_mod.
      * unfold of_digits; simpl foldl. divmod n.
    + destruct (IH (n / 10) ((48 + n mod 10) :: acc)) as (ds & Hds & _ & Hall & Hval).
      { rewrite Nat2N.inj_succ, N.pow_succ_r' in Hn.
        apply N.Div0.div_lt_upper_bound. lia. }
      exists (ds ++ [48 + n mod 10]). repeat split.
      * rewrite Hds. by rewrite <- app_assoc.
      * by destruct ds.
      * rewrite forallb_app, Hall. cbn [forallb]. by rewrite digit_of_mod.
      * rewrite of_digits_snoc, Hval. divmod n.
Qed.

Lemma decimal_spec (n : N) :
  decimal n <> [] /\ forallb Char.is_digit (decimal n) = true
  /\ of_digits (decimal n) = n.
Proof.
  unfold decimal.
  destruct (to_digits_spec (N.to_nat (N.log2 n)) n []) as (ds & -> & ? & ? & ?).
  - rewrite Nat2N.inj_succ, N2Nat.id.
    destruct (N.eq_dec n 0) as [->|Hn]; [done|].
    apply N.log2_spec. lia.
  - by rewrite app_nil_r.
Qed.

(** Below 2^53 every integer is a double. *)
Lemma nearest_small (n : N) : n < 2 ^ 53 -> nearest n = Some n.
Proof.
  intros Hn. unfold nearest. by destruct (N.ltb_spec n (2 ^ 53)); [|lia].
Qed.

Lemma pow2_split (a b : N) : b <= a -> 2 ^ a = 2 ^ b * 2 ^ (a - b).
Proof. intros H. rewrite <- N.pow_add_r. f_equal. lia. Qed.

Lemma pow2_pos (a : N) : 0 < 2 ^ a.
Proof. apply N.neq_0_lt_0, N.pow_nonzero. lia. Qed.

(** What [nearest] computes from 2^53 on: a significand [q] of 53 bits
    (2^53 itself when the rounding carries), which is the quotient of [n]
    or the next integer, and the exponent [e]. *)
Lemma nearest_large (n m : N) :
  2 ^ 53 <= n -> nearest n = Some m ->
  exists e q : N,
    e = N.log2 n - 52 /\ 1 <= e /\ m = q * 2 ^ e /\ 2 ^ 52 <= q <= 2 ^ 53
    /\ n / 2 ^ e <= q <= n / 2 ^ e + 1
    /\ (n mod 2 ^ e = 0 -> q = n / 2 ^ e) /\ m < 2 ^ 1024.
Proof.
  intros Hn. unfold nearest.
  destruct (N.ltb_spec n (2 ^ 53)) as [|_]; [lia|].
  assert (53 <= N.log2 n) as Hlog.
  { change 53 with (N.log2 (2 ^ 53)). by apply N.log2_le_mono. }
  destruct (N.log2_spec n ltac:(lia)) as [Hlo Hhi].
  set (e := N.log2 n - 52) in *.
  assert (N.log2 n = 52 + e) as Hk by lia.
  rewrite Hk, N.pow_succ_r', N.pow_add_r in Hhi.
  rewrite Hk, N.pow_add_r in Hlo.
  pose proof (pow2_pos e) as Hp. pose proof (pow2_pos (e - 1)) as Hh.
  pose proof (N.div_mod' n (2 ^ e)) as Hdm.
  pose proof (N.mod_upper_bound n (2 ^ e) ltac:(lia)) as Hr.
  set (P := 2 ^ e) in *. set (q := n / P) in *. set (r := n mod P) in *.
  assert (2 ^ 52 <= q < 2 ^ 53) as Hq.
  { split.
    - apply N.div_le_lower_bound; lia.
    - apply N.Div0.div_lt_upper_bound.
      change (2 ^ 53) with (2 * 2 ^ 52). lia. }
  set (q' := if _ : bool then q + 1 else q).
  assert (q <= q' <= q + 1 /\ (r = 0 -> q' = q)) as [Hq' Hexact].
  { unfold q'. destruct (N.ltb_spec (2 ^ (e - 1)) r);
      destruct (N.eqb_spec r (2 ^ (e - 1))); destruct (N.odd q);
      cbn [orb andb]; split; try lia. }
  destruct (N.ltb_spec (q' * P) (2 ^ 1024)); [|done].
  intros [= <-]. exists e, q'. fold P q r.
  repeat split; try done; try lia.
Qed.

(** Rounding stays on its side of 2^53, and of the double 10^21. *)
Lemma nearest_ge_2p53 (n m : N) :
  2 ^ 53 <= n -> nearest n = Some m -> 2 ^ 53 <= m.
Proof.
  intros Hn Hm.
  destruct (nearest_large n m Hn Hm) as (e & q & _ & He & -> & Hq & _).
  assert (2 <= 2 ^ e).
  { change 2 with (2 ^ 1) at 1. apply N.pow_le_mono_r; lia. }
  change (2 ^ 53) with (2 ^ 52 * 2) at 1. nia.
Qed.

Lemma ten_21_multiple (e : N) :
  e <= 21 -> 10 ^ 21 = 2 ^ e * (2 ^ (21 - e) * 5 ^ 21).
Proof.
  intros He. rewrite N.mul_assoc, <- (pow2_split 21 e He). by vm_compute.
Qed.

Lemma nearest_ge_1e21 (n m : N) :
  10 ^ 21 <= n -> nearest n = Some m -> 10 ^ 21 <= m.
Proof.
  intros Hn Hm.
  assert (2 ^ 53 <= n) as Hbig.
  { etrans; [|done]. by vm_compute. }
  destruct (nearest_large n m Hbig Hm)
    as (e & q & He & He1 & -> & Hq & [Hq' _] & _).
  destruct (N.le_gt_cases e 21) as [Hsmall|Hlarge].
  - rewrite (ten_21_multiple e Hsmall) in *.
    pose proof (pow2_pos e) as Hp.
    set (c := 2 ^ (21 - e) * 5 ^ 21) in *. clearbody c.
    assert (c <= n / 2 ^ e).
    { apply N.div_le_lower_bound; lia. }
    nia.
  - assert (2 ^ 22 <= 2 ^ e) by (apply N.pow_le_mono_r; lia).
    assert (10 ^ 21 <= 2 ^ 52 * 2 ^ 22) by (by vm_compute).
    nia.
Qed.

Lemma nearest_le_1e21 (n m : N) :
  n <= 10 ^ 21 -> nearest n = Some m -> m <= 10 ^ 21.
Proof.
  intros Hn Hm.
  destruct (N.lt_ge_cases n (2 ^ 53)) as [Hsmall|Hbig].
  { rewrite nearest_small in Hm by done. injection Hm as <-. done. }
  destruct (nearest_large n m Hbig Hm)
    as (e & q & He & He1 & -> & Hq & [_ Hq'] & Hexact & _).
  assert (e <= 21) as He21.
  { assert (N.log2 n <= N.log2 (10 ^ 21)) by (by apply N.log2_le_mono).
    change (N.log2 (10 ^ 21)) with 69 in *. lia. }
  pose proof (pow2_pos e) as Hp.
  pose proof (N.div_mod' n (2 ^ e)) as Hdm.
  pose proof (N.mod_upper_bound n (2 ^ e) ltac:(lia)) as Hr.
  rewrite (ten_21_multiple e He21) in *.
  set (c := 2 ^ (21 - e) * 5 ^ 21) in *.
  set (P := 2 ^ e) in *. clearbody c P.
  generalize dependent (n mod P). generalize dependent (n / P).
  intros d Hq' r Hexact Hdm Hr.
  destruct (N.eq_dec r 0) as [H0|H0].
  - rewrite (Hexact H0). rewrite H0 in Hdm. lia.
  - assert (d < c) as Hlt.
    { destruct (N.lt_ge_cases d c) as [|Hge]; [done|].
      apply (N.mul_le_mono_l _ _ P) in Hge. lia. }
    assert (P * q <= P * c); [|lia].
    apply N.mul_le_mono_l. lia.
Qed.

(** What [nearest] gives is a double. *)
Lemma nearest_idempotent (n m : N) :
  nearest n = Some m -> nearest m = Some m.
Proof.
  intros Hm.
  destruct (N.lt_ge_cases n (2 ^ 53)) as [Hsmall|Hbig].
  { rewrite nearest_small in Hm by done. injection Hm as <-.
    by apply nearest_small. }
  destruct (nearest_large n m Hbig Hm)
    as (e & q & _ & He1 & -> & Hq & _ & _ & Hmax).
  pose proof (pow2_pos e) as Hp.
  assert (2 <= 2 ^ e) as Hp2.
  { change 2 with (2 ^ 1) at 1. apply N.pow_le_mono_r; lia. }
  (* the significand and the exponent of the result *)
  assert (exists e' q', q * 2 ^ e = q' * 2 ^ e' /\ 1 <= e'
                        /\ 2 ^ 52 <= q' < 2 ^ 53) as (e' & q' & Heq & He' & Hq').
  { destruct (N.eq_dec q (2 ^ 53)) as [->|Hne].
    - exists (e + 1), (2 ^ 52). rewrite N.pow_add_r.
      change (2 ^ 53) with (2 ^ 52 * 2 ^ 1). split; [lia|]. split; [lia|].
      split; [done|by vm_compute].
    - exists e, q. split; [done|]. split; [done|]. lia. }
  rewrite Heq in *. clear Heq Hq e q He1 Hp Hp2.
  pose proof (pow2_pos e') as Hp.
  assert (N.log2 (q' * 2 ^ e') = 52 + e') as Hlog.
  { apply N.log2_unique; [lia|].
    rewrite N.pow_succ_r', N.pow_add_r.
    change (2 ^ 53) with (2 * 2 ^ 52) in Hq'.
    generalize dependent (2 ^ 52). generalize dependent (2 ^ e').
    intros P _ _ c Hq'. nia. }
  unfold nearest.
  destruct (N.ltb_spec (q' * 2 ^ e') (2 ^ 53)) as [Hlt|_].
  { assert (2 <= 2 ^ e').
    { change 2 with (2 ^ 1) at 1. apply N.pow_le_mono_r; lia. }
    change (2 ^ 53) with (2 ^ 52 * 2) in Hlt. nia. }
  rewrite Hlog. replace (52 + e' - 52) with e' by lia.
  rewrite N.div_mul by lia. rewrite N.Div0.mod_mul.
  pose proof (pow2_pos (e' - 1)) as Hh.
  destruct (N.ltb_spec (2 ^ (e' - 1)) 0); [lia|].
  destruct (N.eqb_spec 0 (2 ^ (e' - 1))); [lia|]. cbn [orb andb].
  by destruct (N.ltb_spec (q' * 2 ^ e') (2 ^ 1024)); [|lia].
Qed.

Lemma is_double_spec (z : Z) :
  is_double z = true <-> nearest (Z.abs_N z) = Some (Z.abs_N z).
Proof. unfold is_double. apply bool_decide_eq_true. Qed.

(** The Number of an integer is never [NaN]; it is a double or an
    infinity. *)
Lemma of_integer_spec (negative : bool) (n : N) :
  (exists z : Z, of_integer negative n = Int z /\ is_double z = true
                 /\ (if negative then z <= 0 else 0 <= z)%Z
                 /\ nearest n = Some (Z.abs_N z))
  \/ (of_integer negative n = Infinity negative /\ nearest n = None).
Proof.
  unfold of_integer. destruct (nearest n) as [m|] eqn:Hm; [left|by right].
  pose proof (nearest_idempotent n m Hm) as Hidem.
  eexists. split; [done|]. rewrite is_double_spec.
  destruct negative; rewrite ?Zabs2N.inj_opp, Zabs2N.id; repeat split;
    try done; lia.
Qed.

Lemma of_integer_small (n : N) :
  n < 2 ^ 53 -> of_integer false n = Int (Z.of_N n).
Proof. intros Hn. unfold of_integer. by rewrite nearest_small. Qed.

(** parseInt of a non-empty string of digits is the Number of its
    value. *)
Lemma parseInt_digits (ds : jsstring) :
  ds <> [] -> forallb Char.is_digit ds = true ->
  parseInt ds = of_integer false (of_digits ds).
Proof.
  intros Hne Hall. destruct ds as [|c ds]; [done|].
  pose proof Hall as Hc. cbn [forallb] in Hc.
  apply andb_true_iff in Hc as [Hc _].
  unfold parseInt. cbn [span].
  rewrite (CharFacts.digit_not_space c Hc). cbn [snd].
  assert (c <> 45 /\ c <> 43) as [H45 H43].
  { revert Hc. clear. unfold Char.is_digit.
    intros [?%N.leb_le ?%N.leb_le]%andb_true_iff. lia. }
  assert ((let '(negative, s2) :=
             match c :: ds with
             | 45 :: r => (true, r)
             | 43 :: r => (false, r)
             | _ => (false, c :: ds)
             end in
           match (span Char.is_digit s2).1 with
           | [] => NaN
           | d :: l => of_integer negative (of_digits (d :: l))
           end) =
          match (span Char.is_digit (c :: ds)).1 with
           | [] => NaN
           | d :: l => of_integer false (of_digits (d :: l))
           end) as ->.
  { destruct c as [|q]; [done|].
    do 6 (destruct q as [q|q|]; try done). }
  by rewrite (span_all _ _ Hall).
Qed.

(** *** The shortest decimal *)

Lemma candidate_reads (j : nat) (n m : N) :
  candidate j n = Some m -> nearest m = Some n.
Proof.
  unfold candidate, reads_as.
  repeat case_bool_decide; try done;
    repeat (destruct (_ ?= _) || destruct (N.even _)); by intros [= <-].
Qed.

Lemma shortest_upto_reads (j : nat) (n : N) :
  nearest n = Some n -> nearest (shortest_upto j n) = Some n.
Proof.
  intros Hn. induction j as [|j IH]; cbn [shortest_upto]; [done|].
  destruct (candidate (S j) n) as [m|] eqn:Hc; [|done].
  by apply candidate_reads in Hc.
Qed.

(** The decimal printed for a double reads back as that double. *)
Lemma shortest_reads (n : N) :
  nearest n = Some n -> nearest (shortest n) = Some n.
Proof. apply shortest_upto_reads. Qed.

(** Below 2^53 it is the integer itself. *)
Lemma candidate_small (j : nat) (n m : N) :
  n < 2 ^ 53 -> candidate j n = Some m -> m = n.
Proof.
  intros Hn Hc. apply candidate_reads in Hc.
  destruct (N.lt_ge_cases m (2 ^ 53)) as [Hsmall|Hbig].
  - rewrite nearest_small in Hc by done. by injection Hc.
  - apply nearest_ge_2p53 in Hc; [lia|done].
Qed.

Lemma shortest_small (n : N) : n < 2 ^ 53 -> shortest n = n.
Proof.
  intros Hn. unfold shortest. generalize (length (decimal n)).
  intros j. induction j as [|j IH]; cbn [shortest_upto]; [done|].
  destruct (candidate (S j) n) as [m|] eqn:Hc; [|done].
  by apply candidate_small in Hc.
Qed.

(** It has 21 digits at most exactly when the double is below 10^21. *)
Lemma shortest_lt_1e21 (n : N) :
  nearest n = Some n -> shortest n < 10 ^ 21 <-> n < 10 ^ 21.
Proof.
  intros Hn. pose proof (shortest_reads n Hn) as Hread. split.
  - intros Hs. destruct (N.eq_dec n (10 ^ 21)) as [->|Hne].
    + by vm_compute in Hs.
    + apply nearest_le_1e21 in Hread; lia.
  - intros Hlt. destruct (N.lt_ge_cases (shortest n) (10 ^ 21)); [done|].
    apply nearest_ge_1e21 in Hread; [lia|done].
Qed.

Lemma nat_to_string_small (n : N) :
  nearest n = Some n -> n < 10 ^ 21 ->
  nat_to_string n = decimal (shortest n).
Proof.
  intros Hd Hn. apply (shortest_lt_1e21 n Hd) in Hn.
  unfold nat_to_string. by destruct (N.ltb_spec (shortest n) (10 ^ 21)); [|lia].
Qed.

(** From 10^21 on, the printed Number holds the letter e (code 101). *)
Lemma nat_to_string_large (n : N) :
  nearest n = Some n -> 10 ^ 21 <= n -> 101 ∈ nat_to_string n.
Proof.
  intros Hd Hn. unfold nat_to_string.
  destruct (N.ltb_spec (shortest n) (10 ^ 21)) as [Hlt|_].
  { apply (shortest_lt_1e21 n Hd) in Hlt. lia. }
  destruct (decimal_spec (shortest n)) as (Hne & _ & _).
  destruct (decimal (shortest n)) as [|d rest]; [done|].
  apply elem_of_cons; right. apply elem_of_app; right.
  change (str "e+") with [101; 43]. apply elem_of_cons; by left.
Qed.

(** *** Printing and reading an integer *)

Lemma is_double_to_N (z : Z) :
  (0 <= z)%Z -> is_double z = true ->
  nearest (Z.to_N z) = Some (Z.to_N z).
Proof.
  intros Hz Hd%is_double_spec.
  replace (Z.to_N z) with (Z.abs_N z); [done|].
  destruct z; [done|done|lia].
Qed.

Lemma to_string_below_1e21 (z : Z) :
  is_double z = true -> (0 <= z < 10 ^ 21)%Z ->
  to_string (Int z) = decimal (shortest (Z.to_N z)).
Proof.
  intros Hd Hz. unfold to_string. destruct (Z.ltb_spec z 0); [lia|].
  apply nat_to_string_small; [apply is_double_to_N; [lia|done]|].
  change (10 ^ 21) with (Z.to_N (10 ^ 21)). lia.
Qed.

(** Up to 2^53 a Number prints as the integer that it is. *)
Lemma to_string_exact (z : Z) :
  (0 <= z < 2 ^ 53)%Z -> to_string (Int z) = decimal (Z.to_N z).
Proof.
  intros Hz.
  assert (Z.to_N z < 2 ^ 53) as Hn.
  { change (2 ^ 53) with (Z.to_N (2 ^ 53)). lia. }
  rewrite to_string_below_1e21.
  - by rewrite shortest_small.
  - apply is_double_spec. replace (Z.abs_N z) with (Z.to_N z) by lia.
    by apply nearest_small.
  - split; [lia|]. etrans; [apply Hz|]. by vm_compute.
Qed.

Lemma to_string_from_1e21 (z : Z) :
  is_double z = true -> (10 ^ 21 <= z)%Z -> 101 ∈ to_string (Int z).
Proof.
  intros Hd Hz. unfold to_string. destruct (Z.ltb_spec z 0); [lia|].
  apply nat_to_string_large; [apply is_double_to_N; [lia|done]|].
  change (10 ^ 21) with (Z.to_N (10 ^ 21)). lia.
Qed.

(** What parseInt returns is [NaN], an infinity or a double. *)
Lemma parseInt_double (s : jsstring) (z : Z) :
  parseInt s = Int z -> is_double z = true.
Proof.
  unfold parseInt.
  match goal with
  | |- context [let '(_, _) := ?e in _] => destruct e as [negative s2]
  end.
  destruct (span Char.is_digit s2).1 as [|d ds]; [done|].
  destruct (of_integer_spec negative (of_digits (d :: ds)))
    as [(z' & -> & Hd & _)|[-> _]]; [|done].
  by intros [= <-].
Qed.

Lemma strict_eq_sym (x y : number) : strict_eq x y = strict_eq y x.
Proof.
  destruct x as [|a|a], y as [|b|b]; cbn [strict_eq]; try done.
  - apply Z.eqb_sym.
  - by destruct a, b.
Qed.

(** [===] on Numbers other than [NaN] tells whether they are the same. *)
Lemma strict_eq_iff (x y : number) :
  isNaN x = false -> strict_eq x y = true <-> x = y.
Proof.
  destruct x as [|a|a], y as [|b|b]; cbn [strict_eq isNaN]; try done.
  - intros _. rewrite Z.eqb_eq. split; [by intros ->|by intros [= ->]].
  - intros _. destruct a, b; cbn [eqb]; split; try done.
Qed.

(** A Number that is an integer from 0 up to, and not including, 10^21
    prints as digits, and parseInt reads these digits back as that
    Number. *)
Lemma parseInt_to_string (z : Z) :
  is_double z = true -> (0 <= z < 10 ^ 21)%Z ->
  to_string (Int z) <> []
  /\ forallb Char.is_digit (to_string (Int z)) = true
  /\ of_integer false (of_digits (to_string (Int z))) = Int z
  /\ parseInt (to_string (Int z)) = Int z.
Proof.
  intros Hd Hz. rewrite to_string_below_1e21 by done.
  destruct (decimal_spec (shortest (Z.to_N z))) as (Hne & Hdigits & Hval).
  assert (of_integer false (of_digits (decimal (shortest (Z.to_N z))))
          = Int z) as Hback.
  { rewrite Hval. unfold of_integer.
    rewrite shortest_reads by (apply is_double_to_N; [lia|done]).
    f_equal. lia. }
  split; [done|]. split; [done|]. split; [done|].
  by rewrite parseInt_digits.
Qed.

End NumberFacts.

(** * LibraryName.js *)

Module LibraryNameFacts.
Import LibraryName.

Lemma span_keeps (p : N -> bool) (s : jsstring) (c : N) :
  c ∈ s -> p c = false -> c ∈ (span p s).2.
Proof.
  induction s as [|x s IH]; intros Hin Hc; [by apply elem_of_nil in Hin|].
  simpl. destruct (p x) eqn:Hx; [|done].
  apply elem_of_cons in Hin as [->|Hin]; [congruence|].
  destruct (span p s) as [a b]; simpl in *. by apply IH.
Qed.

Lemma forallb_bad (p : N -> bool) (s : jsstring) (x : N) :
  x ∈ s -> p x = false -> forallb p s = false.
Proof.
  intros Hin Hx. apply not_true_is_false. intros Hall.
  rewrite forallb_forall in Hall.
  rewrite (Hall x) in Hx; [done|]. by apply list_elem_of_In.
Qed.

Lemma first_bad (p : N -> bool) (s : jsstring) (x : N) :
  x ∈ s -> p x = false ->
  exists pre y post, s = pre ++ y :: post /\ forallb p pre = true
                     /\ p y = false.
Proof.
  induction s as [|z s IH]; intros Hin Hx; [by apply elem_of_nil in Hin|].
  destruct (p z) eqn:Hz.
  - apply elem_of_cons in Hin as [->|Hin]; [congruence|].
    destruct (IH Hin Hx) as (pre & y & post & -> & Hpre & Hy).
    exists (z :: pre), y, post. simpl. by rewrite Hz, Hpre.
  - by exists [], z, s.
Qed.

(** The three separator classes share no character with [[\w.]]. *)
Lemma nameRegex_not_name (o : options) (c : N) :
  nameRegex o c = true -> Char.is_name c = false.
Proof.
  unfold nameRegex.
  destruct (useHyphen o), (useWhitespace o); simpl;
    auto using CharFacts.hyphen_not_name, CharFacts.space_not_name,
      CharFacts.hyphen_or_space_not_name.
Qed.

Section Exec.

Variable sep : N -> bool.
Hypothesis sep_not_name : forall c, sep c = true -> Char.is_name c = false.

Lemma exec_versions_build (d1 d2 : jsstring) :
  d1 <> [] -> forallb Char.is_digit d1 = true ->
  d2 <> [] -> forallb Char.is_digit d2 = true ->
  exec_versions (d1 ++ Char.dot :: d2) = Some (d1, d2).
Proof.
  intros H1 Hd1 H2 Hd2. unfold exec_versions.
  rewrite (span_stop _ _ _ _ Hd1 CharFacts.dot_not_digit).
  destruct d1 as [|y d1]; [done|]. unfold Char.dot.
  rewrite (span_all _ _ Hd2). by destruct d2.
Qed.

(** No character but digits and the one dot is let through. *)
Lemma exec_versions_bad (s : jsstring) (c : N) :
  c ∈ s -> Char.is_digit c = false -> c <> 46 -> exec_versions s = None.
Proof.
  intros Hin Hcd Hc46. unfold exec_versions.
  pose proof (span_keeps Char.is_digit s c Hin Hcd) as Hc3.
  destruct (span Char.is_digit s) as [a r3]. simpl in Hc3.
  destruct a as [|a0 a]; [done|]. destruct r3 as [|d r4]; [done|].
  destruct (decide (d = 46)) as [->|Hd];
    [|by destruct d as [|d]; [|do 6 (destruct d as [d|d|]; try done)]].
  apply elem_of_cons in Hc3 as [->|Hc4]; [done|].
  pose proof (span_rest Char.is_digit r4 c Hc4 Hcd) as Hr5.
  destruct (span Char.is_digit r4) as [b r5]. simpl in Hr5.
  destruct b; [done|]. by destruct r5.
Qed.

(** After a well-formed name and a separator, the match is that of the
    versions. *)
Lemma exec_split (name : jsstring) (c : N) (rest : jsstring) :
  name <> [] -> forallb Char.is_name name = true -> sep c = true ->
  exec sep (name ++ c :: rest)
  = match exec_versions rest with
    | Some (major, minor) => Some (name, major, minor)
    | None => None
    end.
Proof.
  intros Hn Hname Hc. unfold exec.
  rewrite (span_stop _ _ _ _ Hname (sep_not_name c Hc)).
  destruct name as [|x name]; [done|]. by rewrite Hc.
Qed.

(** A string built as name, separator, digits, dot, digits matches, and
    the groups are these parts. *)
Lemma exec_build (name : jsstring) (c : N) (d1 d2 : jsstring) :
  name <> [] -> forallb Char.is_name name = true -> sep c = true ->
  d1 <> [] -> forallb Char.is_digit d1 = true ->
  d2 <> [] -> forallb Char.is_digit d2 = true ->
  exec sep (name ++ c :: d1 ++ Char.dot :: d2) = Some (name, d1, d2).
Proof.
  intros Hn Hname Hc H1 Hd1 H2 Hd2.
  rewrite exec_split by done. by rewrite exec_versions_build.
Qed.

(** Whatever matches has a first group made of [[\w.]] characters only. *)
Lemma exec_name (s name major minor : jsstring) :
  exec sep s = Some (name, major, minor) ->
  name <> [] /\ forallb Char.is_name name = true.
Proof.
  unfold exec. pose proof (span_prefix Char.is_name s) as Hp.
  destruct (span Char.is_name s) as [n r1]. simpl in Hp.
  destruct n as [|x n]; [done|]. destruct r1 as [|c r2]; [done|].
  destruct (sep c); [|done].
  destruct (exec_versions r2) as [[a b]|]; [|done].
  intros [= <- _ _]. done.
Qed.

(** A character outside [[\w.]] before the separator makes the match
    fail. *)
Lemma exec_bad_name (name : jsstring) (x c : N) (rest : jsstring) :
  x ∈ name -> Char.is_name x = false -> sep c = true ->
  exec sep (name ++ c :: rest) = None.
Proof.
  intros Hin Hx Hc.
  assert (Char.is_digit c = false) as Hcd.
  { apply not_true_is_false. intros H%CharFacts.digit_is_name.
    by rewrite (sep_not_name c Hc) in H. }
  assert (c <> 46) as Hc46.
  { intros ->. by specialize (sep_not_name _ Hc). }
  destruct (first_bad Char.is_name name x Hin Hx)
    as (pre & y & post & -> & Hpre & Hy).
  unfold exec. rewrite <- app_assoc. cbn [app].
  rewrite (span_stop _ _ _ _ Hpre Hy).
  destruct pre as [|n0 n]; [done|]. destruct (sep y); [|done].
  rewrite (exec_versions_bad (post ++ c :: rest) c); [done| |done|done].
  apply elem_of_app; right; apply elem_of_cons; by left.
Qed.

End Exec.

End LibraryNameFacts.

Module LibraryNameClaims.
Import LibraryName LibraryNameFacts LibraryNameSpec.

(** C9: with useHyphen and useWhitespace both false, fromUberName and
    toUberName throw a plain Error (a programming error, not the H5pError
    of a rejected ubername), and the same one whatever the input is: the
    input is not looked at. *)
Theorem separator_mode_required :
  exists m1 m2 : jsstring,
    forall (ubername : jsstring) (libraryName : LibraryName),
      fromUberName ubername no_separator = Throw (Error m1)
      /\ toUberName libraryName no_separator = Throw (Error m2).
Proof. eexists _, _. intros ubername libraryName. split; reflexivity. Qed.

(** C8: validateMachineName fails on every string that holds a character
    outside [A-Za-z0-9_.]; and fromUberName fails on every ubername
    [name SEP major.minor], for a separator [c] that the options accept,
    whose part [name] before that separator holds such a character (white
    space and punctuation included). *)
Theorem illegal_machine_name_rejected (name : jsstring) (x : N) :
  x ∈ name -> Char.is_name x = false ->
  is_Throw (validateMachineName name)
  /\ forall (o : options) (c : N) (major minor : jsstring),
       nameRegex o c = true ->
       is_Throw (fromUberName (name ++ c :: major ++ Char.dot :: minor) o).
Proof.
  intros Hin Hx. split.
  - unfold validateMachineName, test_machineName.
    destruct name as [|y name]; [by eexists|].
    rewrite (forallb_bad _ _ _ Hin Hx). by eexists.
  - intros o c major minor Hc. unfold fromUberName.
    destruct (negb (useHyphen o) && negb (useWhitespace o)); [by eexists|].
    rewrite (exec_bad_name _ (nameRegex_not_name o) name x c _ Hin Hx Hc).
    by eexists.
Qed.

Lemma illegal_machine_name_rejected_witness :
  is_Throw (validateMachineName (str "H5P Example"))
  /\ forall (o : options) (c : N) (major minor : jsstring),
       nameRegex o c = true ->
       is_Throw (fromUberName
                   (str "H5P Example" ++ c :: major ++ Char.dot :: minor) o).
Proof.
  apply (illegal_machine_name_rejected (str "H5P Example") 32).
  - apply list_elem_of_In. vm_compute. tauto.
  - reflexivity.
Defined.

Lemma valid_version (v : value) :
  match version_of v with
  | Some n => parse_if_string v = VNumber n /\ Number.isNaN n = false
  | None => invalid_version (parse_if_string v) = true
  end.
Proof.
  destruct v as [| |?|[|?|?]|s]; simpl; try done.
  by destruct (Number.parseInt s).
Qed.

(** C5, as stated, fails: the constructor accepts a negative major
    version. *)
Lemma negative_version_constructed :
  exists library : LibraryName,
    new (str "H5P.Example") (VNumber (Int (-1))) (VNumber (Int 0))
      = Ok library
    /\ ~ non_negative_integer (majorVersion library).
Proof.
  eexists. split; [reflexivity|].
  intros (z & [= <-] & Hz). lia.
Qed.

(** C5, amended: a constructed identity has major and minor versions that
    are Numbers other than NaN, of either sign: a Number argument is kept
    as it is, a string argument is replaced by its parseInt; the
    constructor throws when a version argument is neither, is NaN, or is a
    string that parseInt turns into NaN. *)
Theorem constructor_versions (name : jsstring) (major minor : value) :
  (forall library, new name major minor = Ok library ->
     exists a b : number,
       version_of major = Some a /\ version_of minor = Some b
       /\ Number.isNaN a = false /\ Number.isNaN b = false
       /\ library = {| machineName := name; majorVersion := VNumber a;
                       minorVersion := VNumber b |})
  /\ (forall a b : number,
        test_machineName name = true ->
        version_of major = Some a -> version_of minor = Some b ->
        new name major minor
          = Ok {| machineName := name; majorVersion := VNumber a;
                  minorVersion := VNumber b |})
  /\ (version_of major = None \/ version_of minor = None ->
      is_programming_error (new name major minor)).
Proof.
  pose proof (valid_version major) as Hmajor.
  pose proof (valid_version minor) as Hminor.
  unfold new, validate, validateMachineName, is_programming_error,
    mbind, result_bind, invalid_version in *.
  cbn [machineName majorVersion minorVersion].
  destruct (test_machineName name); simpl;
    [|split; [done|split; [done|intros _; by eexists]]].
  destruct (version_of major) as [a|], (version_of minor) as [b|];
    simpl in *.
  - destruct Hmajor as [-> Ha], Hminor as [-> Hb]. simpl.
    rewrite Ha, Hb. simpl.
    split; [intros ? [= <-]; by eexists _, _|].
    split; [by intros ? ? _ [= <-] [= <-]|by intros [|]].
  - destruct Hmajor as [-> Ha]. simpl. rewrite Ha, Hminor. simpl.
    split; [done|split; [done|intros _; by eexists]].
  - rewrite Hmajor. simpl. split; [done|split; [done|intros _; by eexists]].
  - rewrite Hmajor. simpl. split; [done|split; [done|intros _; by eexists]].
Qed.

Lemma constructor_versions_witness :
  new (str "H5P.Example") (VString (str "1")) (VNumber (Int 0))
  = Ok {| machineName := str "H5P.Example"; majorVersion := VNumber (Int 1);
          minorVersion := VNumber (Int 0) |}.
Proof.
  apply (constructor_versions (str "H5P.Example") (VString (str "1"))
           (VNumber (Int 0))); reflexivity.
Defined.

End LibraryNameClaims.

Module UberNameClaims.
Import LibraryName LibraryNameFacts LibraryNameSpec.

Example exponent_notation :
  Number.to_string (Int (10 ^ 21)) = str "1e+21"
  /\ Number.to_string (Int (12 * 10 ^ 21)) = str "1.2e+22"
  /\ Number.to_string (Int (10 ^ 20)) = str "100000000000000000000".
Proof. by vm_compute. Qed.

(** Beyond 2^53 parseInt rounds to the nearest double, and a Number prints
    with no more digits than it takes to read it back. *)
Example rounding :
  Number.parseInt (str "9007199254740993") = Int 9007199254740992
  /\ Number.parseInt (str "999999999999999999999") = Int (10 ^ 21)
  /\ Number.parseInt (repeat 57 309) = Infinity false
  /\ Number.to_string (Int 123456789012345683968)
     = str "123456789012345680000"
  /\ Number.to_string (Int (2 ^ 64)) = str "18446744073709552000"
  /\ Number.to_string (Int (2 ^ 70)) = str "1.1805916207174113e+21"
  /\ Number.is_double (2 ^ 53 + 1) = false.
Proof. by vm_compute. Qed.

Lemma separator_accepted (o : options) :
  useHyphen o || useWhitespace o = true -> nameRegex o (separator o) = true.
Proof. by destruct o as [[|] [|]]. Qed.

(** What toUberName does once a separator mode is enabled. *)
Lemma toUberName_unfold (l : LibraryName) (o : options) :
  useHyphen o || useWhitespace o = true ->
  toUberName l o
  = let ubername := template (separator o) l in
    match exec (if useHyphen o then Char.is_hyphen else Char.is_space)
            ubername with
    | Some _ => Ok ubername
    | None =>
        Throw (Error (str "Ubername " ++ ubername
                      ++ (if useHyphen o
                          then str " is not a valid ubername with hyphen separator."
                          else str " is not a valid ubername with whitespace separator.")))
    end.
Proof.
  unfold toUberName, separator. destruct (useHyphen o); simpl.
  - intros _. by destruct (exec _ _).
  - intros ->. by destruct (exec _ _).
Qed.

Lemma template_cons (sep : N) (l : LibraryName) :
  template sep l
  = machineName l ++ sep :: Value.to_string (majorVersion l)
      ++ Char.dot :: Value.to_string (minorVersion l).
Proof. reflexivity. Qed.

Lemma writer_separator (o : options) :
  (if useHyphen o then Char.is_hyphen else Char.is_space) (separator o)
  = true.
Proof. unfold separator. by destruct (useHyphen o). Qed.

Lemma writer_not_name (o : options) (c : N) :
  (if useHyphen o then Char.is_hyphen else Char.is_space) c = true ->
  Char.is_name c = false.
Proof.
  destruct (useHyphen o);
    auto using CharFacts.hyphen_not_name, CharFacts.space_not_name.
Qed.

Lemma test_machineName_spec (name : jsstring) :
  test_machineName name = true ->
  name <> [] /\ forallb Char.is_name name = true.
Proof. by destruct name. Qed.

(** C4, as stated, fails: the major version 10^21 is a Number and a
    non-negative integer, but it prints as 1e+21, and toUberName throws. *)
Lemma large_version_not_rendered :
  let identity := {| machineName := str "H5P.Example";
                     majorVersion := VNumber (Int (10 ^ 21));
                     minorVersion := VNumber (Int 0) |} in
  valid_identity identity
  /\ Number.is_double (10 ^ 21) = true
  /\ toUberName identity default_options
     = Throw (Error (str "Ubername H5P.Example-1e+21.0 is not a valid ubername with hyphen separator."))
  /\ ~ exists ubername, toUberName identity default_options = Ok ubername
                        /\ fromUberName ubername default_options = Ok identity.
Proof.
  split; [|split; [|split]].
  - split; [reflexivity|]. split; eexists; (split; [reflexivity|lia]).
  - by vm_compute.
  - by vm_compute.
  - intros (u & Hu & _). by vm_compute in Hu.
Qed.

(** C4, amended: for a machine name matching [^[A-Za-z0-9_.]+$] and
    versions that are Numbers (doubles) with an integer value from 0 up
    to, and not including, 10^21, toUberName gives an ubername that
    fromUberName, under the same options (one separator mode at least),
    parses back into the same identity, also beyond 2^53, where the
    ubername shows the shortest decimal that reads back as the version;
    from 10^21 on, toUberName throws a programming error instead. *)
Theorem ubername_round_trip (name : jsstring) (a b : Z) (o : options) :
  test_machineName name = true -> (0 <= a)%Z -> (0 <= b)%Z ->
  Number.is_double a = true -> Number.is_double b = true ->
  useHyphen o || useWhitespace o = true ->
  let identity := {| machineName := name; majorVersion := VNumber (Int a);
                     minorVersion := VNumber (Int b) |} in
  ((a < 10 ^ 21)%Z -> (b < 10 ^ 21)%Z ->
     exists ubername,
       toUberName identity o = Ok ubername
       /\ fromUberName ubername o = Ok identity
       /\ equal identity identity = true)
  /\ ((10 ^ 21 <= a)%Z \/ (10 ^ 21 <= b)%Z ->
      is_programming_error (toUberName identity o)).
Proof.
  intros Hname Ha Hb Hdouble_a Hdouble_b Ho identity.
  destruct (test_machineName_spec name Hname) as [Hne Hall].
  rewrite (toUberName_unfold identity o Ho). cbn zeta.
  rewrite template_cons.
  cbn [machineName majorVersion minorVersion identity Value.to_string].
  split.
  - intros Ha' Hb'.
    destruct (NumberFacts.parseInt_to_string a Hdouble_a ltac:(lia))
      as (Hna & Hda & _ & Hva).
    destruct (NumberFacts.parseInt_to_string b Hdouble_b ltac:(lia))
      as (Hnb & Hdb & _ & Hvb).
    rewrite (exec_build _ (writer_not_name o)) by auto using writer_separator.
    eexists. split; [done|]. split.
    + unfold fromUberName.
      assert (negb (useHyphen o) && negb (useWhitespace o) = false) as ->
        by by destruct o as [[|] [|]].
      rewrite (exec_build _ (nameRegex_not_name o))
        by auto using separator_accepted.
      rewrite Hva, Hvb.
      unfold new, validate, validateMachineName, mbind, result_bind.
      cbn [machineName majorVersion minorVersion parse_if_string].
      by rewrite Hname.
    + unfold equal, identity. cbn [machineName majorVersion minorVersion
                                     Value.strict_eq Number.strict_eq].
      rewrite bool_decide_eq_true_2 by done. by rewrite !Z.eqb_refl.
  - intros Hlarge.
    rewrite (exec_split _ (writer_not_name o))
      by auto using writer_separator.
    rewrite (exec_versions_bad _ 101); [by eexists| |done|done].
    destruct Hlarge as [Hl|Hl];
      apply NumberFacts.to_string_from_1e21 in Hl; try done.
    + apply elem_of_app; by left.
    + apply elem_of_app; right. apply elem_of_cons; by right.
Qed.

Lemma ubername_round_trip_witness :
  let o := {| useHyphen := false; useWhitespace := true |} in
  let identity := {| machineName := str "H5P.Example";
                     majorVersion := VNumber (Int (2 ^ 64));
                     minorVersion := VNumber (Int 12) |} in
  toUberName identity o = Ok (str "H5P.Example 18446744073709552000.12")
  /\ fromUberName (str "H5P.Example 18446744073709552000.12") o
     = Ok identity.
Proof.
  cbn zeta.
  pose proof (ubername_round_trip (str "H5P.Example") (2 ^ 64) 12
                {| useHyphen := false; useWhitespace := true |})
    as Hround.
  specialize (Hround eq_refl ltac:(lia) ltac:(lia)).
  specialize (Hround ltac:(by vm_compute) ltac:(by vm_compute) eq_refl).
  cbn zeta in Hround. destruct Hround as [Hround _].
  specialize (Hround ltac:(lia) ltac:(lia)).
  destruct Hround as (ubername & Hrender & Hparse & _).
  assert (ubername = str "H5P.Example 18446744073709552000.12") as ->.
  { vm_compute in Hrender. injection Hrender as <-. by vm_compute. }
  split; assumption.
Defined.

End UberNameClaims.

(** * helpers/ValidatorBuilder.js *)

Module ValidatorBuilderFacts.
Import ValidatorBuilder ValidatorBuilderExample.

Section Facts.

Context {V P St E : Type}.
Implicit Types (r : rule V P St E) (rs : list (rule V P St E)).
Implicit Types (x : option V) (p : P) (st : St).
Implicit Types (c : call V St E).

(** The calls recorded are numbered from the start position upwards. *)
Lemma calls_from_positions rs : forall i x p st,
  position <$> calls_from i rs x p st
  = seq i (length (calls_from i rs x p st)).
Proof.
  induction rs as [|r rs IH]; intros i x p st; [done|].
  cbn [calls_from]. destruct (r x p st) as [o st'].
  destruct o as [[v|]|e]; cbn; [|done|done].
  by rewrite IH.
Qed.

Lemma calls_from_length rs : forall i x p st,
  (length (calls_from i rs x p st) <= length rs)%nat.
Proof.
  induction rs as [|r rs IH]; intros i x p st; [done|].
  cbn [calls_from]. destruct (r x p st) as [o st'].
  destruct o as [[v|]|e]; cbn; [|lia|lia].
  specialize (IH (S i) (Some v) p st'). lia.
Qed.

(** A recorded call is the rule at that place of the list, applied to the
    recorded input in the recorded state. *)
Lemma calls_from_sound rs : forall i x p st k c,
  calls_from i rs x p st !! k = Some c ->
  exists r, rs !! k = Some r /\ r (input c) p (before c) = (answer c, after c).
Proof.
  induction rs as [|r rs IH]; intros i x p st k c; [done|].
  cbn [calls_from]. destruct (r x p st) as [o st'] eqn:Hr.
  destruct k as [|k].
  - intros [= <-]. exists r. by cbn.
  - cbn. destruct o as [[v|]|e]; [|done|done]. apply IH.
Qed.

Lemma calls_from_first rs i x p st c :
  calls_from i rs x p st !! 0%nat = Some c -> input c = x /\ before c = st.
Proof.
  destruct rs as [|r rs]; [done|]. cbn [calls_from].
  destruct (r x p st) as [o st']. by intros [= <-].
Qed.

(** The next call starts from what the previous one returned. *)
Lemma calls_from_chain rs : forall i x p st k c c',
  calls_from i rs x p st !! k = Some c ->
  calls_from i rs x p st !! S k = Some c' ->
  exists v, answer c = Return (Some v) /\ input c' = Some v
            /\ before c' = after c.
Proof.
  induction rs as [|r rs IH]; intros i x p st k c c'; [done|].
  cbn [calls_from]. destruct (r x p st) as [o st'].
  destruct k as [|k].
  - intros [= <-]. cbn. destruct o as [[v|]|e]; [|done|done].
    intros [? ?]%calls_from_first. by exists v.
  - cbn [lookup list_lookup]. destruct o as [[v|]|e]; [|done|done].
    apply IH.
Qed.

(** A call that answers [undefined] or throws is the last one, and its
    answer is the result of the loop. *)
Lemma calls_from_stop rs : forall i x p st k c,
  calls_from i rs x p st !! k = Some c ->
  (forall v, answer c <> Return (Some v)) ->
  length (calls_from i rs x p st) = S k
  /\ loop rs x p st = (answer c, after c).
Proof.
  induction rs as [|r rs IH]; intros i x p st k c; [done|].
  cbn [calls_from loop]. destruct (r x p st) as [o st'].
  destruct k as [|k].
  - intros [= <-]. cbn. intros Hstop.
    destruct o as [[v|]|e]; [by destruct (Hstop v)|done|done].
  - cbn [lookup list_lookup]. destruct o as [[v|]|e]; [|done|done].
    intros Hk Hstop. destruct (IH _ _ _ _ _ _ Hk Hstop) as [Hlen Hloop].
    cbn. by rewrite Hlen.
Qed.

(** When every call returns a value, every rule is called, and the loop
    returns what the last one returned. *)
Lemma calls_from_complete rs : forall i x p st,
  (forall c, c ∈ calls_from i rs x p st ->
             exists v, answer c = Return (Some v)) ->
  length (calls_from i rs x p st) = length rs.
Proof.
  induction rs as [|r rs IH]; intros i x p st; [done|].
  cbn [calls_from]. destruct (r x p st) as [o st'] eqn:Hr.
  intros Hall. cbn [length]. f_equal.
  destruct (Hall (mkCall i x st o st')) as [v Hv]; [by left|].
  cbn in Hv. subst o. apply IH. intros c Hc. apply Hall. by right.
Qed.

Lemma calls_from_nil rs i x p st :
  calls_from i rs x p st = [] -> rs = [].
Proof.
  destruct rs as [|r rs]; [done|]. cbn [calls_from].
  by destruct (r x p st).
Qed.

(** The result of the loop is what the last call answered. *)
Lemma calls_from_last rs : forall i x p st c,
  last (calls_from i rs x p st) = Some c ->
  loop rs x p st = (answer c, after c).
Proof.
  induction rs as [|r rs IH]; intros i x p st c; [done|].
  cbn [calls_from loop]. destruct (r x p st) as [o st'].
  destruct o as [[v|]|e]; [|by intros [= <-]|by intros [= <-]].
  destruct (calls_from (S i) rs (Some v) p st') as [|c' cs] eqn:Hcs.
  - apply calls_from_nil in Hcs as ->. by intros [= <-].
  - rewrite last_cons_cons, <- Hcs. apply IH.
Qed.

(** The loop is the composition of the rules. *)
Lemma foldl_and_then rs : forall r x p st,
  foldl and_then r rs x p st
  = match r x p st with
    | (Return (Some v), st') => loop rs (Some v) p st'
    | other => other
    end.
Proof.
  induction rs as [|r' rs IH]; intros r x p st; cbn [foldl loop].
  - by destruct (r x p st) as [[[v|]|e] st'].
  - rewrite IH. unfold and_then at 1.
    by destruct (r x p st) as [[[v|]|e] st'].
Qed.

Lemma loop_compose rs x p st : loop rs x p st = compose rs x p st.
Proof.
  destruct rs as [|r rs]; [done|]. unfold compose.
  rewrite foldl_and_then. cbn [loop].
  by destruct (r x p st) as [[[v|]|e] st'].
Qed.

End Facts.

Section Claims.

Context {V P St E : Type}.

(** C6: when, in a run of the pipeline, the rule at place [i] returns
    [undefined] (the "no further processing needed" sentinel), that call
    is the last one of the run: no later rule is called, and the run
    returns [undefined], in the state that rule left. In particular
    for the rules [r1; r2]. *)
Theorem sentinel_stops_pipeline (this : builder V P St E)
  (data : option V) (pathPrefix : P) (st : St) (i : nat)
  (c : call V St E) :
  calls this data pathPrefix st !! i = Some c ->
  answer c = Return None ->
  (exists r, rules this !! i = Some r
             /\ r (input c) pathPrefix (before c) = (Return None, after c))
  /\ (forall c', c' ∈ calls this data pathPrefix st ->
                 (position c' <= i)%nat)
  /\ validate this data pathPrefix st = (Return None, after c)
  /\ (forall r1 r2, rules this = [r1; r2] -> i = 0%nat ->
        position <$> calls this data pathPrefix st = [0%nat]).
Proof.
  unfold calls, validate. intros Hc Hanswer.
  destruct (calls_from_stop _ _ _ _ _ _ _ Hc) as [Hlen Hloop].
  { intros v. by rewrite Hanswer. }
  pose proof (calls_from_positions (rules this) 0 data pathPrefix st) as Hpos.
  rewrite Hlen in Hpos.
  split; [|split; [|split]].
  - destruct (calls_from_sound _ _ _ _ _ _ _ Hc) as (r & Hr & Happ).
    exists r. by rewrite <- Hanswer.
  - intros c' Hc'.
    assert (position c' ∈ seq 0 (S i)) as Hin.
    { rewrite <- Hpos. by apply list_elem_of_fmap_2. }
    apply elem_of_seq in Hin. lia.
  - by rewrite Hloop, Hanswer.
  - intros r1 r2 _ ->. by rewrite Hpos.
Qed.

(** C7: a run calls the rules in the order of the list, one at each place
    from the first on without a gap; the first call is given the data,
    every further call is given the value that the call before it returned
    and starts in the state that call left; the run returns what the last
    call answered; and the result of the run is that of the left-to-right
    composition of the rules (which ends at the first rule that returns
    [undefined] or throws; without such a rule, every rule is called). *)
Theorem rules_run_in_order (this : builder V P St E)
  (data : option V) (pathPrefix : P) (st : St) :
  let cs := calls this data pathPrefix st in
  position <$> cs = seq 0 (length cs)
  /\ (forall i c, cs !! i = Some c ->
        exists r, rules this !! i = Some r
                  /\ r (input c) pathPrefix (before c) = (answer c, after c))
  /\ (forall c, cs !! 0%nat = Some c -> input c = data /\ before c = st)
  /\ (forall i c c', cs !! i = Some c -> cs !! S i = Some c' ->
        exists v, answer c = Return (Some v) /\ input c' = Some v
                  /\ before c' = after c)
  /\ ((forall c, c ∈ cs -> exists v, answer c = Return (Some v)) ->
      length cs = length (rules this))
  /\ (forall c, last cs = Some c ->
        validate this data pathPrefix st = (answer c, after c))
  /\ validate this data pathPrefix st
     = compose (rules this) data pathPrefix st.
Proof.
  unfold calls, validate. cbn zeta.
  split; [apply calls_from_positions|].
  split; [intros i c; apply calls_from_sound|].
  split; [intros c; apply calls_from_first|].
  split; [intros i c c'; apply calls_from_chain|].
  split; [apply calls_from_complete|].
  split; [intros c; apply calls_from_last|apply loop_compose].
Qed.

End Claims.

Lemma sentinel_stops_pipeline_witness :
  validate (addRule (addRule new skip_rest) double) (Some 3%nat) tt []
  = (Return None, [1%nat]).
Proof.
  apply (sentinel_stops_pipeline (addRule (addRule new skip_rest) double)
           (Some 3%nat) tt [] 0
           (mkCall 0 (Some 3%nat) [] (Return None) [1%nat]));
    reflexivity.
Defined.

Lemma rules_run_in_order_witness :
  validate (addRule (addRule new double) double) (Some 3%nat) tt []
  = compose [double; double] (Some 3%nat) tt [].
Proof.
  apply (rules_run_in_order (addRule (addRule new double) double)
           (Some 3%nat) tt []).
Defined.

End ValidatorBuilderFacts.

(** * H5PEditor.js: getLibraryOverview *)

Module OverviewFacts.
Import Overview OverviewSpec.

Section Facts.

Context {Lang : Type}.
Variable getLibrary : LibraryName -> Lang -> result (option InstalledLibrary).

Local Abbreviation loadable := (OverviewSpec.loadable getLibrary).

Lemma parse_all_Ok (ubernames : list jsstring) :
  Forall (fun name =>
            is_Ok (LibraryName.fromUberName name overview_options))
         ubernames ->
  exists libs,
    parse_all ubernames = Ok libs
    /\ Forall2 (fun name lib =>
                  LibraryName.fromUberName name overview_options = Ok lib)
               ubernames libs.
Proof.
  induction 1 as [|name rest [lib Hlib] _ (libs & Hlibs & Hall)].
  - by exists [].
  - exists (lib :: libs). cbn [parse_all].
    rewrite Hlib, Hlibs. split; [done|]. by constructor.
Qed.

(** C10: when every ubername of the list parses (with a white space
    separator), getLibraryOverview does not fail, whatever loading the
    libraries does: it returns the overview of those libraries of the list
    that are installed and load without an exception, one entry for each
    such ubername, in the order of the list; the others are left out. *)
Theorem overview_skips_unloadable (ubernames : list jsstring)
  (language : Lang) :
  Forall (fun name =>
            is_Ok (LibraryName.fromUberName name overview_options))
         ubernames ->
  getLibraryOverview getLibrary ubernames language
  = Ok (overview_of <$> omap (loadable language) ubernames).
Proof.
  intros Hvalid. unfold getLibraryOverview.
  destruct (parse_all_Ok ubernames Hvalid) as (libs & -> & Hall).
  clear Hvalid. cbn. f_equal.
  induction Hall as [|name lib names libs Hlib _ IH]; [done|].
  cbn [omap list_omap List.map fmap list_fmap].
  unfold loadable at 1, load_overview at 1. rewrite Hlib.
  destruct (getLibrary lib language) as [[loadedLibrary|]|e]; cbn;
    by rewrite IH.
Qed.

End Facts.

Lemma overview_skips_unloadable_witness :
  getLibraryOverview example_getLibrary
    [str "H5P.Missing 1.0"; str "H5P.Example 1.0"; str "H5P.Broken 2.1"] tt
  = Ok [overview_of example_library].
Proof.
  apply (overview_skips_unloadable example_getLibrary
           [str "H5P.Missing 1.0"; str "H5P.Example 1.0";
            str "H5P.Broken 2.1"] tt).
  repeat constructor; by eexists.
Defined.

End OverviewFacts.

(** * LibraryManager: installation *)

Module LibraryManagerFacts.
Import LibraryManager LibraryManagerExample.

Lemma storage_eq (a b : storage) :
  files a = files b -> metadata a = metadata b -> locks a = locks b ->
  a = b.
Proof. destruct a, b; simpl; by intros -> -> ->. Qed.

(** Taking a free lock and giving it back leaves the lock table as it
    was. *)
Lemma release_acquire (name : jsstring) (st st1 : storage) :
  acquire name st = Some st1 ->
  files st1 = files st /\ metadata st1 = metadata st
  /\ locks st1 ∖ {[name]} = locks st.
Proof.
  unfold acquire. destruct (decide (name ∈ locks st)) as [|Hfree]; [done|].
  intros [= <-]. simpl. repeat split.
  apply set_eq. intros x.
  rewrite elem_of_difference, elem_of_union, elem_of_singleton.
  split; [intros [[->|Hx] Hne]; done|].
  intros Hx. split; [by right|]. by intros ->.
Qed.

Lemma acquire_free (name : jsstring) (st : storage) :
  name ∉ locks st -> exists st1, acquire name st = Some st1.
Proof.
  intros Hfree. unfold acquire. rewrite decide_False by done. by eexists.
Qed.

(** Deleting a library wipes out whatever an operation of a commit under
    its key did. *)
Lemma deleteLibrary_apply (key : jsstring) (o : operation) (st : storage) :
  deleteLibrary key (apply key o st) = deleteLibrary key st.
Proof.
  destruct o as [path content|path|m]; apply storage_eq; simpl; try done.
  - apply map_filter_insert_not. intros y Hy. by apply Hy.
  - apply map_filter_delete_not. intros y _ Hy. by apply Hy.
  - apply delete_insert_eq.
Qed.

Lemma deleteLibrary_commit (key : jsstring) (fault : option nat)
  (ops : list operation) : forall (i : nat) (st : storage),
  deleteLibrary key (commit key fault i ops st).2 = deleteLibrary key st.
Proof.
  induction ops as [|o ops IH]; intros i st; simpl; [done|].
  case_decide; [done|]. by rewrite IH, deleteLibrary_apply.
Qed.

(** A fault at one of the operations makes the commit fail. *)
Lemma commit_fault (key : jsstring) (ops : list operation) :
  forall (i k : nat) (st : storage),
    (i <= k < i + length ops)%nat ->
    (commit key (Some k) i ops st).1 = false.
Proof.
  induction ops as [|o ops IH]; intros i k st Hk; simpl in *; [lia|].
  case_decide as Hi; [done|]. apply IH.
  assert (k <> i) by congruence. lia.
Qed.

(** Where nothing is stored under a key, deleting the library changes
    nothing. *)
Lemma deleteLibrary_absent (key : jsstring) (st : storage) :
  metadata st !! key = None ->
  (forall path, files st !! (key, path) = None) ->
  deleteLibrary key st = st.
Proof.
  intros Hmeta Hfiles. apply storage_eq; simpl; [|by apply delete_id|done].
  apply map_filter_id. intros [k path] content Hlook. simpl.
  intros ->. by rewrite Hfiles in Hlook.
Qed.

Lemma deleteLibrary_gone (key : jsstring) (st : storage) :
  metadata (deleteLibrary key st) !! key = None
  /\ forall path, files (deleteLibrary key st) !! (key, path) = None.
Proof.
  split; simpl; [apply lookup_delete_eq|].
  intros path. apply map_lookup_filter_None. right. intros ? _ H.
  by apply H.
Qed.

Lemma deleteLibrary_others (key key' : jsstring) (st : storage) :
  key' <> key ->
  metadata (deleteLibrary key st) !! key' = metadata st !! key'
  /\ forall path,
       files (deleteLibrary key st) !! (key', path)
       = files st !! (key', path).
Proof.
  intros Hne. split; simpl; [by apply lookup_delete_ne|].
  intros path. rewrite map_lookup_filter.
  destruct (files st !! (key', path)); [|done]. simpl.
  by rewrite option_guard_True.
Qed.

(** The outcome of a commit that a fault interrupts, rollback included. *)
Lemma commit_or_rollback_fault (b : branch) (s : staging) (k : nat)
  (st : storage) :
  checkConsistency s = None ->
  (k < length (commit_operations b (libraryKey (candidate s)) s st))%nat ->
  commit_or_rollback b s (Some k) false st
  = (false, Some (StorageFailure (libraryKey (candidate s))),
     deleteLibrary (libraryKey (candidate s)) st).
Proof.
  intros Hcheck Hk. unfold commit_or_rollback. rewrite Hcheck.
  set (key := libraryKey (candidate s)) in *.
  pose proof (commit_fault key (commit_operations b key s st) 0 k st) as Hf.
  pose proof (deleteLibrary_commit key (Some k)
                (commit_operations b key s st) 0 st) as Hd.
  destruct (commit key (Some k) 0 (commit_operations b key s st) st)
    as [ok st']. simpl in *.
  rewrite Hf by lia. by rewrite Hd.
Qed.




(** C1, amended: an install attempt that reaches the commit (the lock is
    free, every required file is staged) and meets a fault at one of the
    storage operations of the commit, the rollback itself succeeding,
    fails, and
    - for a fresh install into a storage that holds nothing under the
      library key, the storage is again exactly what it was before;
    - for an upgrade, the storage is what it was before with the library
      deleted: no metadata and no file is left under its key (the old
      version is not restored), and the other libraries are untouched. *)
Theorem failed_commit_rolls_back (s : staging) (k : nat) (st : storage) :
  let key := libraryKey (candidate s) in
  machineName (identity (candidate s)) ∉ locks st ->
  checkConsistency s = None ->
  (metadata st !! key = None ->
   (forall path, files st !! (key, path) = None) ->
   (k < length (commit_operations FreshInstall key s st))%nat ->
   installFromDirectory s (Some k) false st
   = (Failed (StorageFailure key), st))
  /\ (forall old,
        metadata st !! key = Some old ->
        patchVersion old < patchVersion (candidate s) ->
        (k < length (commit_operations Upgrading key s st))%nat ->
        exists st',
          installFromDirectory s (Some k) false st
          = (Failed (StorageFailure key), st')
          /\ st' = deleteLibrary key st
          /\ metadata st' !! key = None
          /\ (forall path, files st' !! (key, path) = None)
          /\ (forall key', key' <> key ->
                metadata st' !! key' = metadata st !! key'
                /\ forall path, files st' !! (key', path)
                                = files st !! (key', path))
          /\ locks st' = locks st).
Proof.
  intros key Hfree Hcheck. unfold installFromDirectory.
  set (name := machineName (identity (candidate s))) in *.
  destruct (acquire_free name st Hfree) as [st1 Hacq]. rewrite Hacq.
  destruct (release_acquire name st st1 Hacq) as (Hf & Hm & Hl).
  assert (forall b,
            commit_operations b key s st1 = commit_operations b key s st)
    as Hops.
  { intros b. unfold commit_operations, listFiles. by rewrite Hf. }
  assert (release name (deleteLibrary key st1) = deleteLibrary key st)
    as Hrel.
  { apply storage_eq; simpl; congruence. }
  split.
  - intros Hnone Hnofiles Hk. rewrite Hm. fold key. rewrite Hnone.
    unfold installLibrary.
    rewrite commit_or_rollback_fault by (fold key; by rewrite ?Hops).
    fold key. rewrite Hrel. by rewrite deleteLibrary_absent.
  - intros old Hold Hpatch Hk. rewrite Hm. fold key. rewrite Hold.
    unfold isPatchedLibrary. rewrite Hm. fold key. rewrite Hold.
    destruct (N.ltb_spec (patchVersion old) (patchVersion (candidate s)));
      [|lia].
    unfold updateLibrary.
    rewrite commit_or_rollback_fault by (fold key; by rewrite ?Hops).
    fold key. rewrite Hrel. eexists. split; [done|]. split; [done|].
    destruct (deleteLibrary_gone key st) as [? ?].
    split; [done|]. split; [done|].
    split; [intros key' Hne; by apply deleteLibrary_others|done].
Qed.


(** C1, as stated, fails for a fresh install that a write error on the
    second file interrupts, in two ways. When the deletion of the
    rollback fails in its turn, the first file stays under the library
    key without a metadata record: a partial library. And where a file
    lay under the library key before the attempt, the rollback deletes it
    with what the attempt wrote: the repository is not in its pre-attempt
    state. *)
Lemma failed_fresh_install_leaves_traces :
  let s := candidate_with_patch 3 in
  let key := libraryKey (candidate s) in
  let inconsistent :=
    installFromDirectory s (Some 1%nat) true empty_repository in
  let rolled_back :=
    installFromDirectory s (Some 1%nat) false stray_repository in
  (metadata empty_repository !! key = None
   /\ inconsistent.1 = Failed (RepositoryInconsistent key)
   /\ files inconsistent.2 !! (key, str "a.js") = Some [Byte.x33]
   /\ metadata inconsistent.2 !! key = None
   /\ inconsistent.2 <> empty_repository)
  /\ (metadata stray_repository !! key = None
      /\ rolled_back.1 = Failed (StorageFailure key)
      /\ files stray_repository !! (key, str "old.js") = Some [Byte.x32]
      /\ files rolled_back.2 !! (key, str "old.js") = None
      /\ rolled_back.2 <> stray_repository).
Proof.
  cbn zeta. split.
  - split; [reflexivity|]. split; [by vm_compute|].
    split; [by vm_compute|]. split; [by vm_compute|].
    intros Heq.
    apply (f_equal (fun st => files st !! (foo_bar_key, str "a.js")))
      in Heq.
    by vm_compute in Heq.
  - split; [reflexivity|]. split; [by vm_compute|].
    split; [by vm_compute|]. split; [by vm_compute|].
    intros Heq.
    apply (f_equal (fun st => files st !! (foo_bar_key, str "old.js")))
      in Heq.
    by vm_compute in Heq.
Qed.

Lemma failed_commit_rolls_back_witness :
  exists st',
    installFromDirectory (candidate_with_patch 3) (Some 1%nat) false
      repository
    = (Failed (StorageFailure foo_bar_key), st')
    /\ st' = deleteLibrary foo_bar_key repository
    /\ metadata st' !! foo_bar_key = None
    /\ (forall path, files st' !! (foo_bar_key, path) = None)
    /\ (forall key', key' <> foo_bar_key ->
          metadata st' !! key' = metadata repository !! key'
          /\ forall path, files st' !! (key', path)
                          = files repository !! (key', path))
    /\ locks st' = locks repository.
Proof.
  apply (failed_commit_rolls_back (candidate_with_patch 3) 1 repository)
    with (old := foo_bar 2 [str "a.js"; str "old.js"]).
  - apply not_elem_of_empty.
  - reflexivity.
  - reflexivity.
  - reflexivity.
  - vm_compute. lia.
Defined.

End LibraryManagerFacts.

(** * H5PEditor.js: listAssets terminates *)

Module AssetsTermination.
Import Assets AssetsSpec.

Section Termination.

Context {T : Type}.
Variable env : environment T.

Local Open Scope nat_scope.

Local Abbreviation fan_out := (AssetsSpec.fan_out env).
Local Abbreviation cost := (AssetsSpec.cost env).
Local Abbreviation unloaded_cost := (AssetsSpec.unloaded_cost env).
Local Abbreviation potential := (AssetsSpec.potential env).
Local Abbreviation weight := (AssetsSpec.weight env).
Local Abbreviation weight_chain := (AssetsSpec.weight_chain env).
Local Abbreviation bound := (AssetsSpec.bound env).
Local Abbreviation into_chain := (AssetsSpec.into_chain env).

Lemma weight_Loading (n : LibraryName) :
  weight (Loading n)
  = 1 + match key n with Ok k => cost k | Throw _ => 0 end.
Proof. reflexivity. Qed.

Lemma weight_Resolving (n : LibraryName) (library : InstalledLibrary)
  (translation : option T) (c1 c2 c3 : chain T) :
  weight (Resolving n library translation c1 c2 c3)
  = 1 + weight_chain c1 + weight_chain c2 + weight_chain c3.
Proof. reflexivity. Qed.

Lemma weight_chain_Chain (resolved : list (assets T)) (current : task T)
  (dependencies : list (option LibraryName)) :
  weight_chain (Chain resolved current dependencies)
  = 1 + weight current + 2 * length dependencies.
Proof. reflexivity. Qed.

Lemma weight_settled (t : task T) : settled t = true -> weight t = 0.
Proof. by destruct t. Qed.

Lemma weight_chain_Resolved (resolved : list (assets T)) :
  weight_chain (Resolved resolved) = 0.
Proof. reflexivity. Qed.

Lemma weight_chain_Broken (e : exn) : weight_chain (Broken e) = 0.
Proof. reflexivity. Qed.

Ltac weigh :=
  unfold AssetsSpec.bound in *; cbn [fst snd length] in *;
  repeat progress
    rewrite ?weight_Loading, ?weight_Resolving, ?weight_chain_Chain,
      ?weight_chain_Resolved, ?weight_chain_Broken,
      ?(weight_settled Null), ?(weight_settled (Returned _)),
      ?(weight_settled (Rejected _)) in * by done.

Lemma sum_unloaded_mono (loaded : gset jsstring) (k : jsstring)
  (l : list jsstring) :
  sum_list (unloaded_cost ({[k]} ∪ loaded) <$> l)
  <= sum_list (unloaded_cost loaded <$> l).
Proof.
  induction l as [|x l IH]; csimpl; [done|].
  assert (unloaded_cost ({[k]} ∪ loaded) x <= unloaded_cost loaded x).
  { unfold unloaded_cost. repeat case_decide; try lia.
    exfalso. set_solver. }
  lia.
Qed.

Lemma sum_unloaded_mark (loaded : gset jsstring) (k : jsstring)
  (l : list jsstring) :
  k ∈ l -> k ∉ loaded ->
  sum_list (unloaded_cost ({[k]} ∪ loaded) <$> l) + cost k
  <= sum_list (unloaded_cost loaded <$> l).
Proof.
  intros Hin Hk. induction l as [|x l IH]; [by apply elem_of_nil in Hin|].
  csimpl. apply elem_of_cons in Hin as [<-|Hin].
  - pose proof (sum_unloaded_mono loaded k l).
    unfold unloaded_cost at 1 3.
    rewrite decide_True by set_solver. rewrite decide_False by done. lia.
  - specialize (IH Hin).
    assert (unloaded_cost ({[k]} ∪ loaded) x <= unloaded_cost loaded x).
    { unfold unloaded_cost. repeat case_decide; try lia.
      exfalso. set_solver. }
    lia.
Qed.

(** Entering a key in [loaded] pays for the library under it. *)
Lemma potential_mark (loaded : gset jsstring) (k : jsstring) :
  k ∉ loaded -> potential ({[k]} ∪ loaded) + cost k <= potential loaded.
Proof.
  intros Hk. unfold potential.
  destruct (repo env !! k) as [r|] eqn:Hr.
  - apply sum_unloaded_mark; [|done].
    apply elem_of_elements, elem_of_dom. by eexists.
  - pose proof (sum_unloaded_mono loaded k (elements (dom (repo env)))).
    unfold cost. rewrite Hr. lia.
Qed.

Lemma start_bound (loaded loaded' : gset jsstring) (d : LibraryName)
  (t : task T) :
  start loaded d = (loaded', t) ->
  potential loaded' + weight t <= potential loaded + 1.
Proof.
  unfold start. fold (key d). destruct (key d) as [k|e] eqn:Hk.
  - case_decide as Hin; intros [= <- <-]; simpl; [lia|].
    fold (key d). rewrite Hk. pose proof (potential_mark loaded k Hin). lia.
  - intros [= <- <-]. weigh. lia.
Qed.

Lemma resolve_bound (loaded loaded' : gset jsstring) (resolved : list (assets T))
  (dependencies : list (option LibraryName)) (c : chain T) :
  resolve loaded resolved dependencies = (loaded', c) ->
  potential loaded' + weight_chain c
  <= potential loaded + 2 * length dependencies.
Proof.
  unfold resolve. destruct dependencies as [|[d|] rest].
  - intros [= <- <-]. weigh. lia.
  - destruct (start loaded d) as [l t] eqn:Hstart. intros [= <- <-].
    apply start_bound in Hstart. weigh. lia.
  - intros [= <- <-]. weigh. lia.
Qed.

Lemma expand_bound (loaded loaded' : gset jsstring) (n : LibraryName)
  (t : task T) :
  expand env loaded n = (loaded', t) ->
  potential loaded' + weight t < potential loaded + weight (Loading n).
Proof.
  unfold expand. cbn [weight]. fold (key n).
  destruct (key n) as [k|e]; [|intros [= <- <-]; weigh; lia].
  unfold cost, fan_out.
  destruct (repo env !! k) as [[library|e]|] eqn:Hrepo;
    [| intros [= <- <-]; weigh; lia
     | destruct (getLanguage env k); intros [= <- <-]; weigh; lia].
  destruct (getLanguage env k) as [translation|e];
    [|intros [= <- <-]; weigh; lia].
  destruct (getAddonsForLibrary env (machineName (identity library)))
    as [addonsForLibrary|e]; [|intros [= <- <-]; weigh; lia].
  destruct (resolve loaded [] (Some <$> preloadedDependencies library))
    as [l1 c1] eqn:H1.
  destruct (resolve l1 [] (Some <$> editorDependencies library))
    as [l2 c2] eqn:H2.
  destruct (resolve l2 [] addonsForLibrary) as [l3 c3] eqn:H3.
  intros [= <- <-].
  apply resolve_bound in H1, H2, H3. rewrite length_fmap in H1, H2.
  weigh. lia.
Qed.

(** [advance] and [advance_chain], one unfolding at a time. *)
Lemma advance_Resolving (p : list nat) (loaded : gset jsstring)
  (n : LibraryName) (library : InstalledLibrary) (translation : option T)
  (c1 c2 c3 : chain T) :
  advance env p loaded (Resolving n library translation c1 c2 c3)
  = match p with
    | [] =>
        match c1, c2, c3 with
        | Resolved r1, Resolved r2, Resolved r3 =>
            Some (loaded,
                  Returned (finish env n library translation [r1; r2; r3]))
        | _, _, _ => None
        end
    | 0 :: p' =>
        into_chain p' loaded c1
          (fun c => Resolving n library translation c c2 c3)
    | 1 :: p' =>
        into_chain p' loaded c2
          (fun c => Resolving n library translation c1 c c3)
    | _ :: p' =>
        into_chain p' loaded c3
          (fun c => Resolving n library translation c1 c2 c)
    end.
Proof.
  destruct p as [|[|[|i]] p]; [done|..];
    [by destruct c1|by destruct c2|by destruct c3].
Qed.

Lemma advance_chain_Chain (p : list nat) (loaded : gset jsstring)
  (resolved : list (assets T)) (current : task T)
  (dependencies : list (option LibraryName)) :
  advance_chain env p loaded (Chain resolved current dependencies)
  = match current with
    | Null => Some (resolve loaded resolved dependencies)
    | Returned a => Some (resolve loaded (resolved ++ [a]) dependencies)
    | Rejected e => Some (loaded, Broken e)
    | _ =>
        match advance env p loaded current with
        | Some (loaded', current') =>
            Some (loaded', Chain resolved current' dependencies)
        | None => None
        end
    end.
Proof. by destruct current. Qed.

(** Every step lowers the bound. *)
Lemma advance_bound :
  (forall (t : task T) (p : list nat) (loaded loaded' : gset jsstring)
          (t' : task T),
      advance env p loaded t = Some (loaded', t') ->
      potential loaded' + weight t' < potential loaded + weight t)
  /\ (forall (c : chain T) (p : list nat) (loaded loaded' : gset jsstring)
             (c' : chain T),
        advance_chain env p loaded c = Some (loaded', c') ->
        potential loaded' + weight_chain c'
        < potential loaded + weight_chain c).
Proof.
  apply task_and_chain_ind.
  - done.
  - intros n p loaded loaded' t'. cbn [advance]. intros [= H].
    by apply expand_bound.
  - intros n library translation c1 IH1 c2 IH2 c3 IH3 p loaded loaded' t'.
    rewrite advance_Resolving. unfold into_chain.
    destruct p as [|[|[|i]] p].
    + destruct c1, c2, c3; try done. intros [= <- <-]. weigh. lia.
    + destruct c1 as [r1 t1 d1|r1|e1]; [| |intros [= <- <-]; weigh; lia].
      * destruct (advance_chain env p loaded (Chain r1 t1 d1))
          as [[l c1']|] eqn:Hadv; [|done].
        intros [= <- <-]. apply IH1 in Hadv. weigh. lia.
      * done.
    + destruct c2 as [r2 t2 d2|r2|e2]; [| |intros [= <- <-]; weigh; lia].
      * destruct (advance_chain env p loaded (Chain r2 t2 d2))
          as [[l c2']|] eqn:Hadv; [|done].
        intros [= <- <-]. apply IH2 in Hadv. weigh. lia.
      * done.
    + destruct c3 as [r3 t3 d3|r3|e3]; [| |intros [= <- <-]; weigh; lia].
      * destruct (advance_chain env p loaded (Chain r3 t3 d3))
          as [[l c3']|] eqn:Hadv; [|done].
        intros [= <- <-]. apply IH3 in Hadv. weigh. lia.
      * done.
  - done.
  - done.
  - intros resolved current IH dependencies p loaded loaded' c'.
    rewrite advance_chain_Chain.
    destruct current as [|n|n library translation c1 c2 c3|a|e].
    + intros [= H]. apply resolve_bound in H. weigh. lia.
    + destruct (advance env p loaded (Loading n)) as [[l t]|] eqn:Hadv;
        [|done].
      intros [= <- <-]. apply IH in Hadv. weigh. lia.
    + destruct (advance env p loaded
                  (Resolving n library translation c1 c2 c3))
        as [[l t]|] eqn:Hadv; [|done].
      intros [= <- <-]. apply IH in Hadv. weigh. lia.
    + intros [= H]. apply resolve_bound in H. weigh. lia.
    + intros [= <- <-]. weigh. lia.
  - done.
  - done.
Qed.

(** A schedule is never longer than the bound of where it starts. *)
Lemma run_bound (schedule : list (list nat)) :
  forall c c' : gset jsstring * task T,
    run env schedule c = Some c' -> length schedule + bound c' <= bound c.
Proof.
  induction schedule as [|p schedule IH]; intros c c'; cbn [run].
  - intros [= <-]. weigh. lia.
  - destruct (advance env p c.1 c.2) as [[l t]|] eqn:Hadv; [|done].
    cbn. intros Hrun. apply IH in Hrun.
    apply (proj1 advance_bound) in Hadv. unfold bound in *. weigh. lia.
Qed.

(** A call that has not settled can take a step: the leftmost one. *)
Lemma ready_advances :
  (forall (t : task T) (loaded : gset jsstring),
      settled t = false -> is_Some (advance env (ready t) loaded t))
  /\ (forall (c : chain T) (loaded : gset jsstring),
        match c with
        | Chain _ current _ =>
            is_Some (advance_chain env (ready current) loaded c)
        | _ => True
        end).
Proof.
  apply task_and_chain_ind; try done.
  - intros n library translation c1 IH1 c2 IH2 c3 IH3 loaded _.
    rewrite advance_Resolving. unfold into_chain. cbn [ready].
    destruct c1 as [r1 t1 d1|r1|e1]; cbn [ready_chain].
    + destruct (IH1 loaded) as [[l c] ->]. by eexists.
    + destruct c2 as [r2 t2 d2|r2|e2]; cbn [ready_chain].
      * destruct (IH2 loaded) as [[l c] ->]. by eexists.
      * destruct c3 as [r3 t3 d3|r3|e3]; cbn [ready_chain].
        -- destruct (IH3 loaded) as [[l c] ->]. by eexists.
        -- by eexists.
        -- by eexists.
      * by eexists.
    + by eexists.
  - intros resolved current IH dependencies loaded.
    rewrite advance_chain_Chain.
    destruct current as [|n|n library translation c1 c2 c3|a|e];
      try by eexists.
    + destruct (IH loaded eq_refl) as [[l t] ->]. by eexists.
    + destruct (IH loaded eq_refl) as [[l t] ->]. by eexists.
Qed.

(** The leftmost schedule, given as many steps as the bound, settles. *)
Lemma leftmost_settles (n : nat) :
  forall c : gset jsstring * task T,
    bound c <= n -> settled (leftmost env n c).2 = true.
Proof.
  induction n as [|n IH]; intros [loaded t] Hn; cbn [leftmost].
  - destruct t; try done; unfold bound in Hn; simpl in Hn; lia.
  - cbn [fst snd]. destruct (settled t) eqn:Hs; [done|].
    destruct (proj1 ready_advances t loaded Hs) as [[l t'] Hadv].
    rewrite Hadv. apply IH.
    apply (proj1 advance_bound) in Hadv. unfold bound in *. weigh. lia.
Qed.

End Termination.
End AssetsTermination.

(** * H5PEditor.js: listAssets takes every library once *)

Module AssetsOnce.
Import Assets AssetsSpec AssetsTermination.

Section Once.

Context {T : Type}.
Variable env : environment T.

Local Abbreviation dependencies_of := (AssetsSpec.dependencies_of env).
Local Abbreviation reachable := (AssetsSpec.reachable env).
Local Abbreviation stored := (AssetsSpec.stored env).
Local Abbreviation scripts_of := (AssetsSpec.scripts_of env).
Local Abbreviation styles_of := (AssetsSpec.styles_of env).
Local Abbreviation emits := (AssetsSpec.emits env).
Local Abbreviation emits_all := (AssetsSpec.emits_all env).
Local Abbreviation complete := (AssetsSpec.complete env).
Local Abbreviation inv := (AssetsSpec.inv env).
Local Abbreviation inv_chain := (AssetsSpec.inv_chain env).
Local Abbreviation fresh := (AssetsSpec.fresh env).
Local Abbreviation into_chain := (AssetsSpec.into_chain env).
Local Abbreviation bound := (AssetsSpec.bound env).
Local Abbreviation leftmost_schedule := (AssetsSpec.leftmost_schedule env).

Lemma fresh_nil (root : jsstring) (loaded : gset jsstring) :
  fresh root loaded loaded [].
Proof.
  split; [constructor|]. split; [|split]; intros k;
    rewrite ?elem_of_nil; tauto.
Qed.

Lemma fresh_subseteq (root : jsstring) (loaded loaded' : gset jsstring)
  (new : list jsstring) :
  fresh root loaded loaded' new -> loaded ⊆ loaded'.
Proof. intros (_ & H & _) k Hk. apply H. by left. Qed.

Lemma fresh_app (root : jsstring) (l0 l1 l2 : gset jsstring)
  (new1 new2 : list jsstring) :
  fresh root l0 l1 new1 -> fresh root l1 l2 new2 ->
  fresh root l0 l2 (new1 ++ new2).
Proof.
  intros (Hd1 & Hl1 & Hf1 & Hr1) (Hd2 & Hl2 & Hf2 & Hr2).
  split; [|split; [|split]].
  - apply NoDup_app. split; [done|]. split; [|done].
    intros k Hk1 Hk2. apply (Hf2 k Hk2), Hl1. by right.
  - intros k. rewrite Hl2, Hl1, elem_of_app. tauto.
  - intros k [Hk|Hk]%elem_of_app; [by apply Hf1|].
    intros Hk0. apply (Hf2 k Hk), Hl1. by left.
  - intros k [Hk|Hk]%elem_of_app; auto.
Qed.

Lemma marked_mono (loaded loaded' : gset jsstring) (d : LibraryName) :
  loaded ⊆ loaded' -> marked loaded d -> marked loaded' d.
Proof. intros Hsub (k & Hk & Hin). exists k. split; [done|]. by apply Hsub. Qed.

Lemma marked_some_mono (loaded loaded' : gset jsstring)
  (o : option LibraryName) :
  loaded ⊆ loaded' -> marked_some loaded o -> marked_some loaded' o.
Proof.
  intros Hsub (d & -> & Hd). exists d. eauto using marked_mono.
Qed.

Lemma complete_mono (loaded loaded' : gset jsstring) (e : entry) :
  loaded ⊆ loaded' -> complete loaded e -> complete loaded' e.
Proof.
  intros Hsub [Hs Hd]. split; [done|]. eauto using marked_mono.
Qed.

(** [loaded] only grows, and what held keeps holding. *)
Lemma inv_mono (loaded loaded' : gset jsstring) :
  loaded ⊆ loaded' ->
  (forall (t : task T) (ks : list jsstring),
      inv loaded t ks -> inv loaded' t ks)
  /\ (forall (c : chain T) (source : list (option LibraryName))
             (ks : list jsstring),
        inv_chain loaded source c ks -> inv_chain loaded' source c ks).
Proof.
  intros Hsub. apply task_and_chain_ind.
  - done.
  - intros n ks (k & ? & ? & ?). exists k. split; [done|].
    split; [by apply Hsub|done].
  - intros n library tr c1 IH1 c2 IH2 c3 IH3 ks
      (k & a & ks1 & ks2 & ks3 & ? & ? & ? & H1 & H2 & H3 & ?).
    exists k, a, ks1, ks2, ks3. split; [done|]. split; [by apply Hsub|].
    split; [done|]. split; [by apply IH1|]. split; [by apply IH2|].
    split; [by apply IH3|done].
  - intros a ks (es & ? & Hes & ?). exists es. split; [done|].
    split; [|done]. eapply Forall_impl; [done|].
    intros e. by apply complete_mono.
  - done.
  - intros resolved current IH dependencies source ks. cbn [inv_chain].
    destruct current; try done;
      intros (consumed & es & kt & ? & Hc & ? & Hes & Ht & ?);
      exists consumed, es, kt; (split; [done|]);
      (split; [eapply Forall_impl; [done|];
               intros o; by apply marked_some_mono|]);
      (split; [done|]);
      (split; [eapply Forall_impl; [done|];
               intros e; by apply complete_mono|]);
      (split; [by apply IH|done]).
  - intros resolved source ks (es & ? & Hes & ? & Hd). exists es.
    split; [done|]. split; [|split; [done|]].
    + eapply Forall_impl; [done|]. intros e. by apply complete_mono.
    + intros d Hin. eapply marked_mono; [done|]. by apply Hd.
  - done.
Qed.

Lemma effective_next (consumed : list (option LibraryName))
  (d : LibraryName) (rest : list (option LibraryName))
  (loaded : gset jsstring) :
  Forall (marked_some loaded) consumed ->
  d ∈ effective (consumed ++ Some d :: rest).
Proof.
  induction 1 as [|o consumed (d' & -> & _) _ IH]; simpl.
  - by left.
  - by right.
Qed.

Lemma effective_end (consumed dependencies : list (option LibraryName))
  (loaded : gset jsstring) :
  Forall (marked_some loaded) consumed ->
  match dependencies with Some _ :: _ => False | _ => True end ->
  forall d, d ∈ effective (consumed ++ dependencies) -> marked loaded d.
Proof.
  induction 1 as [|o consumed (d' & -> & Hd') _ IH]; simpl; intros Hend d.
  - destruct dependencies as [|[?|] ?]; [|done|];
      by intros ?%elem_of_nil.
  - intros [->|Hin]%elem_of_cons; [done|]. by apply IH.
Qed.

Lemma effective_fmap_Some (l : list LibraryName) :
  effective (Some <$> l) = l.
Proof. induction l as [|d l IH]; [done|]. csimpl. by rewrite IH. Qed.

Section Steps.

Variable root : jsstring.

Lemma start_inv (loaded loaded' : gset jsstring) (d : LibraryName)
  (t : task T) :
  start loaded d = (loaded', t) ->
  (forall k, key d = Ok k -> reachable root k) ->
  exists new,
    inv loaded' t new /\ fresh root loaded loaded' new
    /\ match t with Rejected _ => True | _ => marked loaded' d end.
Proof.
  unfold start. fold (key d). intros Hstart Hreach.
  destruct (key d) as [k|e] eqn:Hk.
  - case_decide as Hin; injection Hstart as <- <-.
    + exists []. split; [done|]. split; [apply fresh_nil|]. by exists k.
    + assert (k ∈ ({[k]} ∪ loaded : gset jsstring)) as Hk'
        by (apply elem_of_union; left; by apply elem_of_singleton).
      exists [k]. split; [by exists k|]. split; [|by exists k].
      split; [apply NoDup_singleton|]. split; [|split].
      * intros k'. rewrite elem_of_union, elem_of_singleton,
          list_elem_of_singleton. tauto.
      * by intros k' ->%list_elem_of_singleton.
      * intros k' ->%list_elem_of_singleton. by apply Hreach.
  - injection Hstart as <- <-. exists []. split; [done|].
    split; [apply fresh_nil|done].
Qed.

Lemma resolve_inv (loaded loaded' : gset jsstring)
  (resolved : list (assets T)) (dependencies : list (option LibraryName))
  (c : chain T) (source consumed : list (option LibraryName))
  (es : list entry) (ks : list jsstring) :
  resolve loaded resolved dependencies = (loaded', c) ->
  source = consumed ++ dependencies ->
  Forall (marked_some loaded) consumed ->
  emits_all es resolved -> Forall (complete loaded) es ->
  ks ≡ₚ key_of <$> es ->
  (forall d k, d ∈ effective source -> key d = Ok k -> reachable root k) ->
  exists new,
    inv_chain loaded' source c (ks ++ new) /\ fresh root loaded loaded' new.
Proof.
  intros Hres -> Hconsumed Hemits Hes Hks Hreach. unfold resolve in Hres.
  destruct dependencies as [|[d|] rest].
  - injection Hres as <- <-. exists []. split; [|apply fresh_nil].
    exists es. rewrite app_nil_r. repeat split; try done; try apply Hemits.
    by apply effective_end.
  - destruct (start loaded d) as [l t] eqn:Hstart.
    injection Hres as <- <-.
    destruct (start_inv _ _ _ _ Hstart) as (new & Ht & Hfresh & Hd).
    { intros k. apply Hreach. by eapply effective_next. }
    exists new. split; [|done].
    pose proof (fresh_subseteq _ _ _ _ Hfresh) as Hsub.
    cbn [inv_chain]. destruct t; try done;
      exists (consumed ++ [Some d]), es, new;
      (split; [by rewrite <- app_assoc|]);
      (split; [apply Forall_app; split;
               [eapply Forall_impl; [done|];
                intros o; by apply marked_some_mono
               |apply Forall_singleton; by exists d]|]);
      (split; [done|]);
      (split; [eapply Forall_impl; [done|];
               intros e; by apply complete_mono|]);
      (split; [done|by rewrite Hks]).
  - injection Hres as <- <-. exists []. split; [|apply fresh_nil].
    exists es. rewrite app_nil_r. repeat split; try done; try apply Hemits.
    by apply effective_end.
Qed.

Lemma emits_all_nil : emits_all [] [].
Proof. by split. Qed.

Lemma expand_inv (loaded loaded' : gset jsstring) (n : LibraryName)
  (t : task T) (k : jsstring) :
  (forall k, k ∈ loaded -> reachable root k) ->
  expand env loaded n = (loaded', t) -> key n = Ok k -> k ∈ loaded ->
  exists new,
    inv loaded' t ([k] ++ new) /\ fresh root loaded loaded' new.
Proof.
  intros Hreach Hexp Hk Hin. unfold expand in Hexp. fold (key n) in Hexp.
  rewrite Hk in Hexp.
  destruct (repo env !! k) as [[library|e]|] eqn:Hrepo;
    [| injection Hexp as <- <-; exists []; split; [done|apply fresh_nil]
     | destruct (getLanguage env k); injection Hexp as <- <-; exists [];
       (split; [done|apply fresh_nil])].
  destruct (getLanguage env k) as [translation|e];
    [|injection Hexp as <- <-; exists []; split; [done|apply fresh_nil]].
  destruct (getAddonsForLibrary env (machineName (identity library)))
    as [addonsForLibrary|e] eqn:Haddons;
    [|injection Hexp as <- <-; exists []; split; [done|apply fresh_nil]].
  assert (forall d k', d ∈ dependencies_of library -> key d = Ok k' ->
                       reachable root k') as Hdeps.
  { intros d k' Hd Hk'. eapply reachable_dependency; eauto. }
  destruct (resolve loaded [] (Some <$> preloadedDependencies library))
    as [l1 c1] eqn:H1.
  destruct (resolve l1 [] (Some <$> editorDependencies library))
    as [l2 c2] eqn:H2.
  destruct (resolve l2 [] addonsForLibrary) as [l3 c3] eqn:H3.
  injection Hexp as <- <-.
  destruct (resolve_inv _ _ _ _ _ _ [] [] [] H1 eq_refl
              (Forall_nil_2 _) emits_all_nil (Forall_nil_2 _)
              (Permutation_refl []))
    as (new1 & Hc1 & Hf1).
  { intros d k'. cbn [app]. rewrite effective_fmap_Some.
    intros Hd. apply Hdeps.
    unfold dependencies_of. apply elem_of_app. by left. }
  destruct (resolve_inv _ _ _ _ _ _ [] [] [] H2 eq_refl
              (Forall_nil_2 _) emits_all_nil (Forall_nil_2 _)
              (Permutation_refl []))
    as (new2 & Hc2 & Hf2).
  { intros d k'. cbn [app]. rewrite effective_fmap_Some.
    intros Hd. apply Hdeps.
    unfold dependencies_of. rewrite !elem_of_app. auto. }
  destruct (resolve_inv _ _ _ _ _ _ [] [] [] H3 eq_refl
              (Forall_nil_2 _) emits_all_nil (Forall_nil_2 _)
              (Permutation_refl []))
    as (new3 & Hc3 & Hf3).
  { intros d k' Hd. apply Hdeps.
    unfold dependencies_of. rewrite Haddons, !elem_of_app. auto. }
  cbn [app] in Hc1, Hc2, Hc3.
  pose proof (fresh_subseteq _ _ _ _ Hf1) as Hs1.
  pose proof (fresh_subseteq _ _ _ _ Hf2) as Hs2.
  pose proof (fresh_subseteq _ _ _ _ Hf3) as Hs3.
  exists (new1 ++ new2 ++ new3). split.
  - exists k, addonsForLibrary, new1, new2, new3.
    split; [done|]. split; [by apply Hs3, Hs2, Hs1|]. split; [done|].
    split; [apply (inv_mono l1 l3); [by etrans|done]|].
    split; [by apply (inv_mono l2 l3)|]. by split.
  - eauto using fresh_app.
Qed.

Lemma foldl_add_dependency (resolved : list (assets T)) :
  forall a : assets T,
    scripts (foldl add_dependency a resolved)
    = scripts a ++ resolved ≫= scripts
    /\ styles (foldl add_dependency a resolved)
      = styles a ++ resolved ≫= styles.
Proof.
  induction resolved as [|d resolved IH]; intros a; csimpl.
  - by rewrite !app_nil_r.
  - destruct (IH (add_dependency a d)) as [-> ->]. simpl.
    by rewrite <- !app_assoc.
Qed.

Lemma finish_emits (n : LibraryName) (library : InstalledLibrary)
  (translation : option T) (r1 r2 r3 : list (assets T))
  (es1 es2 es3 : list entry) :
  emits_all es1 r1 -> emits_all es2 r2 -> emits_all es3 r3 ->
  emits (es1 ++ es2 ++ es3 ++ [(n, library)])
        (finish env n library translation [r1; r2; r3]).
Proof.
  intros [Hs1 Ht1] [Hs2 Ht2] [Hs3 Ht3]. unfold emits, finish.
  cbn [scripts styles foldl].
  repeat match goal with
         | |- context [foldl add_dependency ?a ?r] =>
             let Hs := fresh in let Ht := fresh in
             destruct (foldl_add_dependency r a) as [Hs Ht];
             rewrite ?Hs, ?Ht; clear Hs Ht
         end.
  cbn [scripts styles]. unfold scripts_of, styles_of.
  rewrite !bind_app, Hs1, Hs2, Hs3, Ht1, Ht2, Ht3. csimpl.
  unfold scripts_of, styles_of. by rewrite !app_nil_r, <- !app_assoc.
Qed.

Lemma emits_all_snoc (es es' : list entry) (resolved : list (assets T))
  (a : assets T) :
  emits_all es resolved -> emits es' a ->
  emits_all (es ++ es') (resolved ++ [a]).
Proof.
  intros [Hs Ht] [Hs' Ht']. unfold emits_all, scripts_of, styles_of.
  rewrite !bind_app, Hs, Ht. csimpl. by rewrite !app_nil_r, Hs', Ht'.
Qed.

Lemma key_of_stored (e : entry) (k : jsstring) :
  stored e k -> key_of e = k.
Proof. intros [Hk _]. unfold key_of. by rewrite Hk. Qed.

Lemma dependency_reachable (n : LibraryName) (library : InstalledLibrary)
  (k : jsstring) (loaded : gset jsstring) :
  (forall k, k ∈ loaded -> reachable root k) ->
  stored (n, library) k -> k ∈ loaded ->
  forall d k', d ∈ dependencies_of library -> key d = Ok k' ->
               reachable root k'.
Proof.
  intros Hreach [_ Hrepo] Hin d k' Hd Hk'.
  eapply reachable_dependency; eauto.
Qed.

(** A step keeps what holds of the calls in flight; the keys it enters
    in [loaded] are new ones. *)
Lemma advance_inv :
  (forall (t : task T) (p : list nat) (loaded loaded' : gset jsstring)
          (t' : task T) (ks : list jsstring),
      (forall k, k ∈ loaded -> reachable root k) ->
      advance env p loaded t = Some (loaded', t') -> inv loaded t ks ->
      exists new,
        inv loaded' t' (ks ++ new) /\ fresh root loaded loaded' new)
  /\ (forall (c : chain T) (p : list nat) (loaded loaded' : gset jsstring)
             (c' : chain T) (source : list (option LibraryName))
             (ks : list jsstring),
        (forall k, k ∈ loaded -> reachable root k) ->
        (forall d k, d ∈ effective source -> key d = Ok k ->
                     reachable root k) ->
        advance_chain env p loaded c = Some (loaded', c') ->
        inv_chain loaded source c ks ->
        exists new,
          inv_chain loaded' source c' (ks ++ new)
          /\ fresh root loaded loaded' new).
Proof.
  apply task_and_chain_ind.
  - done.
  - intros n p loaded loaded' t' ks Hreach [= Hexp] (k & Hk & Hin & ->).
    by eapply expand_inv.
  - intros n library tr c1 IH1 c2 IH2 c3 IH3 p loaded loaded' t' ks Hreach.
    rewrite advance_Resolving. unfold into_chain.
    intros Hadv (k & addonsForLibrary & ks1 & ks2 & ks3 & Hst & Hin
                 & Haddons & Hc1 & Hc2 & Hc3 & Hks).
    pose proof (dependency_reachable _ _ _ _ Hreach Hst Hin) as Hdeps.
    assert (forall d k',
              d ∈ effective (Some <$> preloadedDependencies library) ->
              key d = Ok k' -> reachable root k') as Hsrc1.
    { intros d k'. rewrite effective_fmap_Some. intros Hd. apply Hdeps.
      unfold dependencies_of. rewrite !elem_of_app. auto. }
    assert (forall d k',
              d ∈ effective (Some <$> editorDependencies library) ->
              key d = Ok k' -> reachable root k') as Hsrc2.
    { intros d k'. rewrite effective_fmap_Some. intros Hd. apply Hdeps.
      unfold dependencies_of. rewrite !elem_of_app. auto. }
    assert (forall d k', d ∈ effective addonsForLibrary ->
                         key d = Ok k' -> reachable root k') as Hsrc3.
    { intros d k' Hd. apply Hdeps. unfold dependencies_of.
      rewrite Haddons, !elem_of_app. auto. }
    destruct p as [|[|[|i]] p].
    + destruct c1 as [| r1 |]; [done| |done].
      destruct c2 as [| r2 |]; [done| |done].
      destruct c3 as [| r3 |]; [done| |done].
      injection Hadv as <- <-. exists []. split; [|apply fresh_nil].
      destruct Hc1 as (es1 & He1 & Hf1 & Hk1 & Hd1).
      destruct Hc2 as (es2 & He2 & Hf2 & Hk2 & Hd2).
      destruct Hc3 as (es3 & He3 & Hf3 & Hk3 & Hd3).
      rewrite effective_fmap_Some in Hd1, Hd2.
      exists (es1 ++ es2 ++ es3 ++ [(n, library)]).
      split; [by apply finish_emits|]. split.
      * rewrite !Forall_app. repeat split; try done.
        apply Forall_singleton. split; [by exists k|].
        intros d. unfold dependencies_of. cbn [snd].
        rewrite Haddons, !elem_of_app. intros [?|[?|?]]; auto.
      * rewrite !fmap_app, app_nil_r, Hks, Hk1, Hk2, Hk3. csimpl.
        rewrite (key_of_stored _ _ Hst). solve_Permutation.
    + destruct c1 as [r1 t1 d1|r1|e1];
        [|done|injection Hadv as <- <-; exists [];
               split; [done|apply fresh_nil]].
      destruct (advance_chain env p loaded (Chain r1 t1 d1))
        as [[l c1']|] eqn:Hstep; [|done].
      injection Hadv as <- <-.
      destruct (IH1 _ _ _ _ _ _ Hreach Hsrc1 Hstep Hc1)
        as (new & Hc1' & Hfresh).
      pose proof (fresh_subseteq _ _ _ _ Hfresh) as Hsub.
      exists new. split; [|done].
      exists k, addonsForLibrary, (ks1 ++ new), ks2, ks3.
      split; [done|]. split; [by apply Hsub|]. split; [done|].
      split; [done|]. split; [by apply (inv_mono loaded l)|].
      split; [by apply (inv_mono loaded l)|].
      rewrite Hks. solve_Permutation.
    + destruct c2 as [r2 t2 d2|r2|e2];
        [|done|injection Hadv as <- <-; exists [];
               split; [done|apply fresh_nil]].
      destruct (advance_chain env p loaded (Chain r2 t2 d2))
        as [[l c2']|] eqn:Hstep; [|done].
      injection Hadv as <- <-.
      destruct (IH2 _ _ _ _ _ _ Hreach Hsrc2 Hstep Hc2)
        as (new & Hc2' & Hfresh).
      pose proof (fresh_subseteq _ _ _ _ Hfresh) as Hsub.
      exists new. split; [|done].
      exists k, addonsForLibrary, ks1, (ks2 ++ new), ks3.
      split; [done|]. split; [by apply Hsub|]. split; [done|].
      split; [by apply (inv_mono loaded l)|]. split; [done|].
      split; [by apply (inv_mono loaded l)|].
      rewrite Hks. solve_Permutation.
    + destruct c3 as [r3 t3 d3|r3|e3];
        [|done|injection Hadv as <- <-; exists [];
               split; [done|apply fresh_nil]].
      destruct (advance_chain env p loaded (Chain r3 t3 d3))
        as [[l c3']|] eqn:Hstep; [|done].
      injection Hadv as <- <-.
      destruct (IH3 _ _ _ _ _ _ Hreach Hsrc3 Hstep Hc3)
        as (new & Hc3' & Hfresh).
      pose proof (fresh_subseteq _ _ _ _ Hfresh) as Hsub.
      exists new. split; [|done].
      exists k, addonsForLibrary, ks1, ks2, (ks3 ++ new).
      split; [done|]. split; [by apply Hsub|]. split; [done|].
      split; [by apply (inv_mono loaded l)|].
      split; [by apply (inv_mono loaded l)|]. split; [done|].
      rewrite Hks. solve_Permutation.
  - done.
  - done.
  - intros resolved current IH dependencies p loaded loaded' c' source ks
      Hreach Hsource.
    rewrite advance_chain_Chain. cbn [inv_chain].
    destruct current as [|n|n library tr c1 c2 c3|a|e].
    + intros [= Hres] (consumed & es & kt & Hsrc & Hcons & Hem & Hes
                       & -> & Hks).
      rewrite app_nil_r in Hks. by eapply resolve_inv.
    + destruct (advance env p loaded (Loading n)) as [[l t]|] eqn:Hstep;
        [|done].
      intros [= <- <-] (consumed & es & kt & Hsrc & Hcons & Hem & Hes
                        & Ht & Hks).
      destruct (IH _ _ _ _ _ Hreach Hstep Ht) as (new & Ht' & Hfresh).
      pose proof (fresh_subseteq _ _ _ _ Hfresh) as Hsub.
      exists new. split; [|done]. cbn [inv_chain].
      destruct t; try done; exists consumed, es, (kt ++ new);
        (split; [done|]);
        (split; [eapply Forall_impl; [done|];
                 intros o; by apply marked_some_mono|]);
        (split; [done|]);
        (split; [eapply Forall_impl; [done|];
                 intros x; by apply complete_mono|]);
        (split; [done|rewrite Hks; solve_Permutation]).
    + destruct (advance env p loaded (Resolving n library tr c1 c2 c3))
        as [[l t]|] eqn:Hstep; [|done].
      intros [= <- <-] (consumed & es & kt & Hsrc & Hcons & Hem & Hes
                        & Ht & Hks).
      destruct (IH _ _ _ _ _ Hreach Hstep Ht) as (new & Ht' & Hfresh).
      pose proof (fresh_subseteq _ _ _ _ Hfresh) as Hsub.
      exists new. split; [|done]. cbn [inv_chain].
      destruct t; try done; exists consumed, es, (kt ++ new);
        (split; [done|]);
        (split; [eapply Forall_impl; [done|];
                 intros o; by apply marked_some_mono|]);
        (split; [done|]);
        (split; [eapply Forall_impl; [done|];
                 intros x; by apply complete_mono|]);
        (split; [done|rewrite Hks; solve_Permutation]).
    + intros [= Hres] (consumed & es & kt & Hsrc & Hcons & Hem & Hes
                       & (es' & Hem' & Hes' & Hkt) & Hks).
      eapply (resolve_inv _ _ _ _ _ _ consumed (es ++ es'));
        try done.
      * by apply emits_all_snoc.
      * by apply Forall_app.
      * by rewrite fmap_app, Hks, Hkt.
    + intros [= <- <-] _. exists []. split; [done|apply fresh_nil].
  - done.
  - done.
Qed.

Local Abbreviation consistent := (AssetsSpec.consistent env root).

Lemma listAssets_consistent (n : LibraryName) :
  key n = Ok root -> consistent (listAssets n).
Proof.
  intros Hk. unfold listAssets, start. fold (key n). rewrite Hk.
  rewrite decide_False by apply not_elem_of_empty.
  exists [root]. cbn [fst snd inv].
  assert (forall k, k ∈ ({[root]} ∪ ∅ : gset jsstring) <-> k = root) as Hin.
  { intros k. rewrite elem_of_union, elem_of_singleton.
    pose proof (not_elem_of_empty (C:=gset jsstring) k). tauto. }
  split; [exists root; by rewrite Hin|]. split; [apply NoDup_singleton|].
  split; [intros k; by rewrite Hin, list_elem_of_singleton|].
  split; [intros k ->%Hin; constructor|by apply Hin].
Qed.

Lemma advance_consistent (p : list nat) (c c' : gset jsstring * task T) :
  consistent c -> advance env p c.1 c.2 = Some c' -> consistent c'.
Proof.
  destruct c as [loaded t], c' as [loaded' t']. cbn [fst snd].
  intros (ks & Hinv & Hnd & Hks & Hreach & Hroot) Hadv.
  destruct (proj1 advance_inv _ _ _ _ _ _ Hreach Hadv Hinv)
    as (new & Hinv' & Hnew & Hl & Hfresh & Hr).
  exists (ks ++ new). cbn [fst snd]. split; [done|]. split; [|split; [|split]].
  - apply NoDup_app. split; [done|]. split; [|done].
    intros k Hk Hk'. by apply (Hfresh k Hk'), Hks.
  - intros k. rewrite elem_of_app, Hl, Hks. tauto.
  - intros k [?|?]%Hl; auto.
  - apply Hl. by left.
Qed.

Lemma run_consistent (schedule : list (list nat)) :
  forall c c' : gset jsstring * task T,
    consistent c -> run env schedule c = Some c' -> consistent c'.
Proof.
  induction schedule as [|p schedule IH]; intros c c' Hc; cbn [run].
  - by intros [= <-].
  - destruct (advance env p c.1 c.2) as [c1|] eqn:Hadv; [|done].
    cbn. apply IH. by eapply advance_consistent.
Qed.

(** The assets returned in the end hold every library that [root]
    leads to, once. *)
Lemma returned_once (loaded : gset jsstring) (a : assets T) :
  consistent (loaded, Returned a) ->
  exists es,
    emits es a /\ NoDup (key_of <$> es)
    /\ (forall k, k ∈ key_of <$> es <-> reachable root k)
    /\ Forall (fun e => stored e (key_of e)) es.
Proof.
  intros (ks & (es & Hemits & Hes & Hperm) & Hnd & Hks & Hreach & Hroot).
  cbn [fst snd] in *. exists es. split; [done|].
  split; [by rewrite <- Hperm|].
  assert (forall k, k ∈ key_of <$> es <-> k ∈ loaded) as Hin.
  { intros k. by rewrite <- Hperm. }
  split; [|].
  - intros k. split; [intros ?%Hin; auto|].
    induction 1 as [|k library d k' _ IH Hrepo Hd Hk']; [by apply Hin|].
    apply list_elem_of_fmap in IH as (e & -> & He).
    rewrite Forall_forall in Hes.
    destruct (Hes e He) as [(k0 & Hst) Hdeps].
    rewrite (key_of_stored _ _ Hst) in Hrepo.
    destruct Hst as [_ Hst]. rewrite Hst in Hrepo.
    injection Hrepo as <-.
    destruct (Hdeps d Hd) as (k'' & Hk'' & Hl).
    rewrite Hk' in Hk''. injection Hk'' as <-. by apply Hin.
  - eapply Forall_impl; [done|].
    intros e [(k & Hst) _]. by rewrite (key_of_stored _ _ Hst).
Qed.

(** The outermost call never returns [null]. *)
Lemma settled_outermost (loaded : gset jsstring) (t : task T) :
  consistent (loaded, t) -> settled t = true ->
  (exists a, t = Returned a) \/ (exists e, t = Rejected e).
Proof.
  intros (ks & Hinv & _ & Hks & _ & Hroot) Hsettled.
  destruct t as [| | |a|e]; try done; [|left; by exists a|right; by exists e].
  cbn in Hinv, Hks, Hroot. subst ks. by apply Hks, elem_of_nil in Hroot.
Qed.

(** *** When every library can be loaded, no call throws *)

Hypothesis loads : AssetsSpec.available env root.

Local Abbreviation clean := (AssetsSpec.clean (T:=T)).
Local Abbreviation clean_chain := (AssetsSpec.clean_chain (T:=T)).

Lemma start_clean (loaded loaded' : gset jsstring) (d : LibraryName)
  (t : task T) :
  start loaded d = (loaded', t) -> is_Ok (key d) -> clean t.
Proof.
  unfold start. fold (key d). intros Hstart [k Hk]. rewrite Hk in Hstart.
  case_decide; by injection Hstart as <- <-.
Qed.

Lemma resolve_clean (loaded loaded' : gset jsstring)
  (resolved : list (assets T)) (dependencies : list (option LibraryName))
  (c : chain T) :
  resolve loaded resolved dependencies = (loaded', c) ->
  (forall d rest, dependencies = Some d :: rest -> is_Ok (key d)) ->
  clean_chain c.
Proof.
  unfold resolve. destruct dependencies as [|[d|] rest];
    [by intros [= <- <-]| |by intros [= <- <-]].
  destruct (start loaded d) as [l t] eqn:Hstart. intros [= <- <-] Hd.
  cbn [AssetsSpec.clean_chain]. eapply start_clean; [done|]. by eapply Hd.
Qed.

Lemma expand_clean (loaded loaded' : gset jsstring) (n : LibraryName)
  (t : task T) (k : jsstring) :
  expand env loaded n = (loaded', t) -> key n = Ok k -> reachable root k ->
  clean t.
Proof.
  intros Hexp Hk Hreach.
  destruct (loads k Hreach)
    as (library & Hrepo & [tr Hlang] & [addons Haddons] & Hdeps).
  unfold expand in Hexp. fold (key n) in Hexp.
  rewrite Hk, Hrepo, Hlang, Haddons in Hexp.
  destruct (resolve loaded [] (Some <$> preloadedDependencies library))
    as [l1 c1] eqn:H1.
  destruct (resolve l1 [] (Some <$> editorDependencies library))
    as [l2 c2] eqn:H2.
  destruct (resolve l2 [] addons) as [l3 c3] eqn:H3.
  injection Hexp as <- <-. cbn [AssetsSpec.clean].
  split; [|split]; (eapply resolve_clean; [done|]); intros d rest Hlist;
    apply Hdeps; unfold AssetsSpec.dependencies_of; rewrite !elem_of_app.
  - left. destruct (preloadedDependencies library); [done|].
    injection Hlist as <- _. by left.
  - right. left. destruct (editorDependencies library); [done|].
    injection Hlist as <- _. by left.
  - right. right. rewrite Haddons, Hlist. by left.
Qed.

(** A step of calls of which none has thrown leaves calls of which none
    has thrown. *)
Lemma advance_clean :
  (forall (t : task T) (p : list nat) (loaded loaded' : gset jsstring)
          (t' : task T) (ks : list jsstring),
      (forall k, k ∈ loaded -> reachable root k) ->
      advance env p loaded t = Some (loaded', t') -> inv loaded t ks ->
      clean t -> clean t')
  /\ (forall (c : chain T) (p : list nat) (loaded loaded' : gset jsstring)
             (c' : chain T) (source : list (option LibraryName))
             (ks : list jsstring),
        (forall k, k ∈ loaded -> reachable root k) ->
        (forall d, d ∈ effective source -> is_Ok (key d)) ->
        advance_chain env p loaded c = Some (loaded', c') ->
        inv_chain loaded source c ks -> clean_chain c -> clean_chain c').
Proof.
  apply task_and_chain_ind.
  - done.
  - intros n p loaded loaded' t' ks Hreach [= Hexp] (k & Hk & Hin & ->) _.
    eapply expand_clean; eauto.
  - intros n library tr c1 IH1 c2 IH2 c3 IH3 p loaded loaded' t' ks Hreach.
    rewrite advance_Resolving. unfold into_chain.
    intros Hadv (k & addonsForLibrary & ks1 & ks2 & ks3 & Hst & Hin
                 & Haddons & Hc1 & Hc2 & Hc3 & Hks) (Hcl1 & Hcl2 & Hcl3).
    destruct (loads k (Hreach k Hin)) as (library' & Hrepo & _ & _ & Hdeps).
    destruct Hst as [_ Hst]. cbn [fst snd] in Hst. rewrite Hst in Hrepo.
    injection Hrepo as <-.
    assert (forall d,
              d ∈ effective (Some <$> preloadedDependencies library) ->
              is_Ok (key d)) as Hsrc1.
    { intros d. rewrite effective_fmap_Some. intros Hd. apply Hdeps.
      unfold AssetsSpec.dependencies_of. rewrite !elem_of_app. auto. }
    assert (forall d,
              d ∈ effective (Some <$> editorDependencies library) ->
              is_Ok (key d)) as Hsrc2.
    { intros d. rewrite effective_fmap_Some. intros Hd. apply Hdeps.
      unfold AssetsSpec.dependencies_of. rewrite !elem_of_app. auto. }
    assert (forall d, d ∈ effective addonsForLibrary -> is_Ok (key d))
      as Hsrc3.
    { intros d Hd. apply Hdeps. unfold AssetsSpec.dependencies_of.
      rewrite Haddons, !elem_of_app. auto. }
    destruct p as [|[|[|i]] p].
    + destruct c1 as [| r1 |]; [done| |done].
      destruct c2 as [| r2 |]; [done| |done].
      destruct c3 as [| r3 |]; [done| |done].
      by injection Hadv as <- <-.
    + destruct c1 as [r1 t1 d1|r1|e1]; [|done|done].
      destruct (advance_chain env p loaded (Chain r1 t1 d1))
        as [[l c1']|] eqn:Hstep; [|done].
      injection Hadv as <- <-. cbn [AssetsSpec.clean].
      split; [|done].
      apply (IH1 p loaded l c1' _ ks1 Hreach Hsrc1 Hstep Hc1 Hcl1).
    + destruct c2 as [r2 t2 d2|r2|e2]; [|done|done].
      destruct (advance_chain env p loaded (Chain r2 t2 d2))
        as [[l c2']|] eqn:Hstep; [|done].
      injection Hadv as <- <-. cbn [AssetsSpec.clean].
      split; [done|]. split; [|done].
      apply (IH2 p loaded l c2' _ ks2 Hreach Hsrc2 Hstep Hc2 Hcl2).
    + destruct c3 as [r3 t3 d3|r3|e3]; [|done|done].
      destruct (advance_chain env p loaded (Chain r3 t3 d3))
        as [[l c3']|] eqn:Hstep; [|done].
      injection Hadv as <- <-. cbn [AssetsSpec.clean].
      split; [done|]. split; [done|].
      apply (IH3 p loaded l c3' _ ks3 Hreach Hsrc3 Hstep Hc3 Hcl3).
  - done.
  - done.
  - intros resolved current IH dependencies p loaded loaded' c' source ks
      Hreach Hsource.
    rewrite advance_chain_Chain.
    cbn [AssetsSpec.inv_chain AssetsSpec.clean_chain].
    destruct current as [|n|n library tr c1 c2 c3|a|e].
    + intros [= Hres] (consumed & es & kt & Hsrc & Hcons & _) _.
      eapply resolve_clean; [done|]. intros d rest ->.
      apply Hsource. rewrite Hsrc. by eapply effective_next.
    + destruct (advance env p loaded (Loading n)) as [[l t]|] eqn:Hstep;
        [|done].
      intros [= <- <-] (consumed & es & kt & Hsrc & Hcons & Hem & Hes
                        & Ht & Hks) Hcl.
      cbn [AssetsSpec.clean_chain].
      apply (IH p loaded l t kt Hreach Hstep Ht Hcl).
    + destruct (advance env p loaded (Resolving n library tr c1 c2 c3))
        as [[l t]|] eqn:Hstep; [|done].
      intros [= <- <-] (consumed & es & kt & Hsrc & Hcons & Hem & Hes
                        & Ht & Hks) Hcl.
      cbn [AssetsSpec.clean_chain].
      apply (IH p loaded l t kt Hreach Hstep Ht Hcl).
    + intros [= Hres] (consumed & es & kt & Hsrc & Hcons & _) _.
      eapply resolve_clean; [done|]. intros d rest ->.
      apply Hsource. rewrite Hsrc. by eapply effective_next.
    + by intros _ _ [].
  - done.
  - done.
Qed.

Lemma run_clean (schedule : list (list nat)) :
  forall c c' : gset jsstring * task T,
    consistent c -> clean c.2 -> run env schedule c = Some c' ->
    clean c'.2.
Proof.
  induction schedule as [|p schedule IH]; intros c c' Hc Hcl; cbn [run].
  - by intros [= <-].
  - destruct (advance env p c.1 c.2) as [c1|] eqn:Hadv; [|done].
    cbn. apply IH; [by eapply advance_consistent|].
    destruct Hc as (ks & Hinv & _ & _ & Hreach & _).
    destruct c as [loaded t], c1 as [loaded1 t1].
    eapply (proj1 advance_clean); eauto.
Qed.

(** With every library at hand, a call that has settled has returned
    assets. *)
Lemma listAssets_returns (n : LibraryName) (schedule : list (list nat))
  (loaded : gset jsstring) (t : task T) :
  key n = Ok root ->
  run env schedule (listAssets n) = Some (loaded, t) ->
  settled t = true -> exists a, t = Returned a.
Proof.
  intros Hk Hrun Hsettled.
  pose proof (listAssets_consistent n Hk) as Hc.
  pose proof (run_consistent schedule _ _ Hc Hrun) as Hc'.
  assert (clean t) as Hcl.
  { apply (run_clean schedule _ _ Hc) in Hrun; [done|].
    unfold listAssets, start. fold (key n). rewrite Hk.
    by rewrite decide_False by apply not_elem_of_empty. }
  by destruct (settled_outermost loaded t Hc' Hsettled) as [?|[e ->]].
Qed.

End Steps.

(** What a closed repository stores can be loaded, with all that it
    leads to. *)
Lemma closed_available (root : jsstring) :
  AssetsSpec.closed env -> is_Some (repo env !! root) ->
  AssetsSpec.available env root.
Proof.
  intros Hclosed Hroot k Hreach.
  assert (is_Some (repo env !! k)) as [r Hr].
  { induction Hreach as [|k library d k' _ IH Hrepo Hd Hk']; [done|].
    destruct (Hclosed k _ Hrepo) as (library' & [= <-] & _ & _ & Hdeps).
    destruct (Hdeps d Hd) as (k'' & Hk'' & Hsome).
    rewrite Hk' in Hk''. by injection Hk'' as <-. }
  destruct (Hclosed k r Hr) as (library & -> & Hlang & Haddons & Hdeps).
  exists library. do 3 (split; [done|]).
  intros d Hd. destruct (Hdeps d Hd) as (k' & -> & _). by eexists.
Qed.

Lemma leftmost_run (n : nat) :
  forall c : gset jsstring * task T,
    run env (leftmost_schedule n c) c = Some (leftmost env n c).
Proof.
  induction n as [|n IH]; intros c; cbn [leftmost_schedule leftmost];
    [done|].
  destruct (settled c.2); [done|].
  destruct (advance env (ready c.2) c.1 c.2) as [c'|] eqn:Hadv; [|done].
  cbn [run]. rewrite Hadv. cbn. apply IH.
Qed.

(** C3: listAssets, on whatever is stored (cycles included) and in
    whatever order the pending continuations run (a schedule):
    - takes no more steps than [bound] says, can take a step as long as it
      has not settled, and settles within that many steps if the leftmost
      continuation runs each time;
    - when it returns assets, these are the scripts and the styles of a
      list of libraries [es], each the library stored under the ubername
      of its name, in which no ubername comes twice, and whose ubernames
      are those that the dependency graph reaches from the root;
    - and it does return assets, under every schedule, once it has
      settled, when every library that the dependency graph reaches from
      the root can be loaded. *)
Theorem listAssets_takes_each_library_once (n : LibraryName) :
  (forall schedule c,
      run env schedule (listAssets n) = Some c ->
      (length schedule <= bound (listAssets n))%nat)
  /\ (forall schedule loaded t,
        run env schedule (listAssets n) = Some (loaded, t) ->
        settled t = false -> is_Some (advance env (ready t) loaded t))
  /\ (exists schedule c,
        run env schedule (listAssets n) = Some c /\ settled c.2 = true)
  /\ (forall schedule loaded a,
        run env schedule (listAssets n) = Some (loaded, Returned a) ->
        exists root es,
          key n = Ok root
          /\ scripts a = scripts_of es /\ styles a = styles_of es
          /\ NoDup (key_of <$> es)
          /\ (forall k, k ∈ key_of <$> es <-> reachable root k)
          /\ Forall (fun e => stored e (key_of e)) es)
  /\ (forall root,
        key n = Ok root -> AssetsSpec.available env root ->
        forall schedule loaded t,
          run env schedule (listAssets n) = Some (loaded, t) ->
          settled t = true -> exists a, t = Returned a).
Proof.
  split; [|split; [|split; [|split]]];
    [..|intros root Hk Hloads schedule loaded t;
        by apply (listAssets_returns root Hloads)].
  - intros schedule c Hrun. apply run_bound in Hrun. lia.
  - intros schedule loaded t _ Hs. by apply ready_advances.
  - exists (leftmost_schedule (bound (listAssets n)) (listAssets n)).
    eexists. split; [apply leftmost_run|]. by apply leftmost_settles.
  - intros schedule loaded a Hrun.
    destruct (key n) as [root|e] eqn:Hk.
    + exists root.
      destruct (returned_once root loaded a) as (es & [? ?] & ? & ? & ?).
      { eapply run_consistent; [|done]. by apply listAssets_consistent. }
      by exists es.
    + exfalso. unfold listAssets, start in Hrun. fold (key n) in Hrun.
      rewrite Hk in Hrun. destruct schedule as [|p schedule]; [done|].
      by destruct p as [|[|[|?]] ?].
Qed.

End Once.
End AssetsOnce.

Module AssetsWitness.
Import Assets AssetsSpec AssetsTermination AssetsOnce AssetsExample.

(** The cyclic repository is closed. *)
Lemma cyclic_closed : closed cyclic.
Proof.
  intros k r Hk. apply elem_of_list_to_map_2 in Hk.
  repeat (apply elem_of_cons in Hk as [[= -> ->]|Hk]);
    [..|by apply elem_of_nil in Hk].
  all: eexists; split; [reflexivity|].
  all: split; [eexists; reflexivity|]; split; [eexists; reflexivity|].
  all: intros d Hd; unfold dependencies_of in Hd; cbn in Hd.
  all: repeat (apply elem_of_cons in Hd as [->|Hd]);
    try (by apply elem_of_nil in Hd).
  all: eexists; split; [reflexivity|].
  all: apply (bool_decide_unpack _); by vm_compute.
Qed.

Lemma listAssets_takes_each_library_once_witness :
  (forall schedule loaded t,
      run cyclic schedule (listAssets (version_1_0 "A")) = Some (loaded, t) ->
      settled t = true -> exists a, t = Returned a)
  /\ exists schedule loaded root es,
       run cyclic schedule (listAssets (version_1_0 "A"))
       = Some (loaded, Returned cyclic_assets)
       /\ key (version_1_0 "A") = Ok root
       /\ scripts cyclic_assets = scripts_of cyclic es
       /\ styles cyclic_assets = styles_of cyclic es
       /\ NoDup (key_of <$> es)
       /\ (forall k, k ∈ key_of <$> es <-> reachable cyclic root k)
       /\ Forall (fun e => stored cyclic e (key_of e)) es.
Proof.
  pose proof (listAssets_takes_each_library_once cyclic (version_1_0 "A"))
    as (_ & _ & _ & Honce & Hreturns).
  split.
  - apply (Hreturns (str "A-1.0") eq_refl).
    apply closed_available; [apply cyclic_closed|].
    apply (bool_decide_unpack _). by vm_compute.
  - assert (run cyclic
              (leftmost_schedule cyclic 20 (listAssets (version_1_0 "A")))
              (listAssets (version_1_0 "A"))
            = Some ((leftmost cyclic 20 (listAssets (version_1_0 "A"))).1,
                    Returned cyclic_assets)) as Hrun by (by vm_compute).
    destruct (Honce _ _ _ Hrun) as (root & es & Hes).
    eexists _, _, root, es. split; [exact Hrun|exact Hes].
Defined.

End AssetsWitness.

(** * LibraryName.js: what fromUberName accepts and what toUberName
      renders *)

Module UberNameFacts.
Import LibraryName LibraryNameFacts LibraryNameSpec UberNameSpec.

Lemma exec_versions_sound (s major minor : jsstring) :
  exec_versions s = Some (major, minor) ->
  s = major ++ Char.dot :: minor /\ digits major /\ digits minor.
Proof.
  unfold exec_versions.
  pose proof (span_app Char.is_digit s) as Happ.
  pose proof (span_prefix Char.is_digit s) as Hpre.
  destruct (span Char.is_digit s) as [a r3]. simpl in *.
  destruct a as [|a0 a]; [done|]. destruct r3 as [|d r4]; [done|].
  assert (d = 46 \/ d <> 46) as [->|Hd] by lia;
    [|by destruct d as [|d]; [|do 6 (destruct d as [d|d|]; try done)]].
  pose proof (span_app Char.is_digit r4) as Happ'.
  pose proof (span_prefix Char.is_digit r4) as Hpre'.
  destruct (span Char.is_digit r4) as [b r5]. simpl in *.
  destruct b as [|b0 b]; [done|]. destruct r5; [|done].
  intros [= <- <-]. rewrite app_nil_r in Happ'. subst r4.
  by rewrite <- Happ.
Qed.

Section Exec.

Variable sep : N -> bool.

(** What the expression matches is a name, one separator, digits, a dot
    and digits, and the groups are these parts. *)
Lemma exec_sound (s name major minor : jsstring) :
  exec sep s = Some (name, major, minor) ->
  exists c, s = name ++ c :: major ++ Char.dot :: minor /\ sep c = true
            /\ test_machineName name = true
            /\ digits major /\ digits minor.
Proof.
  unfold exec.
  pose proof (span_app Char.is_name s) as Happ.
  pose proof (span_prefix Char.is_name s) as Hpre.
  destruct (span Char.is_name s) as [n r1]. simpl in *.
  destruct n as [|x n]; [done|]. destruct r1 as [|c r2]; [done|].
  destruct (sep c) eqn:Hc; [|done].
  destruct (exec_versions r2) as [[a b]|] eqn:Hv; [|done].
  intros [= <- <- <-].
  apply exec_versions_sound in Hv as (-> & Ha & Hb).
  exists c. by rewrite <- Happ.
Qed.

(** A character between name and versions that is not a separator makes
    the match fail. *)
Lemma exec_bad_separator (name : jsstring) (c : N) (major minor : jsstring) :
  forallb Char.is_name name = true -> digits major -> digits minor ->
  sep c = false -> exec sep (name ++ c :: major ++ Char.dot :: minor) = None.
Proof.
  intros Hname [_ Hmajor] [_ Hminor] Hc. unfold exec.
  destruct (Char.is_name c) eqn:Hn.
  - rewrite span_all; [by destruct (name ++ _)|].
    rewrite forallb_app, Hname. cbn [forallb]. rewrite Hn.
    rewrite forallb_app, (CharFacts.digits_are_name _ Hmajor).
    cbn [forallb]. by rewrite (CharFacts.digits_are_name _ Hminor).
  - rewrite (span_stop _ _ _ _ Hname Hn). rewrite Hc. by destruct name.
Qed.

End Exec.

Lemma test_machineName_iff (name : jsstring) :
  test_machineName name = true <->
  name <> [] /\ forallb Char.is_name name = true.
Proof.
  destruct name as [|c name]; cbn [test_machineName].
  - split; [done|]. by intros [? _].
  - split; [done|]. by intros [_ ?].
Qed.

(** The constructor accepts a valid name with two Numbers that are not
    NaN. *)
Lemma new_numbers (name : jsstring) (x y : number) :
  test_machineName name = true ->
  Number.isNaN x = false -> Number.isNaN y = false ->
  new name (VNumber x) (VNumber y)
  = Ok {| machineName := name; majorVersion := VNumber x;
          minorVersion := VNumber y |}.
Proof.
  intros Hname Hx Hy.
  unfold new, validate, validateMachineName, mbind, result_bind,
    invalid_version.
  cbn [machineName majorVersion minorVersion parse_if_string Value.typeof
         Value.isNaN negb orb].
  by rewrite Hname, Hx, Hy.
Qed.

Lemma of_integer_not_NaN (negative : bool) (n : N) :
  Number.isNaN (Number.of_integer negative n) = false.
Proof. unfold Number.of_integer. by destruct (Number.nearest n). Qed.

(** What parseInt makes of digits is not negative, and it is their value
    when that is below 2^53. *)
Lemma number_of_non_negative (ds : jsstring) : non_negative (number_of ds).
Proof.
  unfold number_of.
  destruct (NumberFacts.of_integer_spec false (Number.of_digits ds))
    as [(z & -> & Hd & Hz & _)|[-> _]]; [left|by right].
  by exists z.
Qed.

Lemma number_of_small (ds : jsstring) :
  Number.of_digits ds < 2 ^ 53 ->
  number_of ds = VNumber (Int (Z.of_N (Number.of_digits ds))).
Proof.
  intros Hds. unfold number_of. by rewrite NumberFacts.of_integer_small.
Qed.

(** The constructor, given what parseInt makes of two runs of digits. *)
Lemma new_parsed (name major minor : jsstring) :
  test_machineName name = true -> digits major -> digits minor ->
  new name (VNumber (Number.parseInt major))
    (VNumber (Number.parseInt minor))
  = Ok {| machineName := name; majorVersion := number_of major;
          minorVersion := number_of minor |}.
Proof.
  intros Hname [? ?] [? ?].
  rewrite !NumberFacts.parseInt_digits by done.
  apply new_numbers; [done|..]; apply of_integer_not_NaN.
Qed.

Lemma separator_enabled (o : options) :
  useHyphen o || useWhitespace o = true ->
  negb (useHyphen o) && negb (useWhitespace o) = false.
Proof. by destruct o as [[|] [|]]. Qed.

(** What fromUberName does once a separator mode is enabled. *)
Lemma fromUberName_unfold (ubername : jsstring) (o : options) :
  useHyphen o || useWhitespace o = true ->
  fromUberName ubername o
  = match exec (nameRegex o) ubername with
    | None => Throw (invalid_ubername_pattern o ubername)
    | Some (name, major, minor) =>
        new name (VNumber (Number.parseInt major))
                 (VNumber (Number.parseInt minor))
    end.
Proof.
  intros Ho. unfold fromUberName. by rewrite (separator_enabled o Ho).
Qed.

(** X1: fromUberName only returns what it read from a string of the form
    name, separator, digits, dot, digits: the name is a valid machine name,
    the separator is one that the options accept, and the versions are
    what parseInt makes of the digits: Numbers that are not negative (so
    not NaN either), namely the values of the digits when these are below
    2^53 (the identity is then a valid one), the nearest double beyond,
    and Infinity beyond the largest double. *)
Theorem fromUberName_sound (ubername : jsstring) (o : options)
  (library : LibraryName) :
  fromUberName ubername o = Ok library ->
  exists (c : N) (major minor : jsstring),
    ubername = machineName library ++ c :: major ++ Char.dot :: minor
    /\ nameRegex o c = true
    /\ test_machineName (machineName library) = true
    /\ digits major /\ digits minor
    /\ majorVersion library = number_of major
    /\ minorVersion library = number_of minor
    /\ non_negative (majorVersion library)
    /\ non_negative (minorVersion library)
    /\ (Number.of_digits major < 2 ^ 53 ->
        Number.of_digits minor < 2 ^ 53 ->
        majorVersion library = VNumber (Int (Z.of_N (Number.of_digits major)))
        /\ minorVersion library
           = VNumber (Int (Z.of_N (Number.of_digits minor)))
        /\ valid_identity library).
Proof.
  intros Hparse.
  assert (useHyphen o || useWhitespace o = true) as Ho.
  { unfold fromUberName in Hparse. by destruct o as [[|] [|]]. }
  rewrite (fromUberName_unfold _ _ Ho) in Hparse.
  destruct (exec (nameRegex o) ubername) as [[[name major] minor]|] eqn:He;
    [|done].
  apply exec_sound in He
    as (c & -> & Hc & Hname & Hmajor & Hminor).
  rewrite new_parsed in Hparse by done. injection Hparse as <-.
  exists c, major, minor. cbn [machineName majorVersion minorVersion].
  do 7 (split; [done|]).
  split; [apply number_of_non_negative|].
  split; [apply number_of_non_negative|].
  intros HM Hm. rewrite !number_of_small by done.
  do 2 (split; [done|]). split; [done|].
  split; eexists; (split; [reflexivity|lia]).
Qed.

Lemma fromUberName_sound_witness :
  exists (c : N) (major minor : jsstring),
    str "H5P.Example 01.20"
    = str "H5P.Example" ++ c :: major ++ Char.dot :: minor
    /\ nameRegex {| useHyphen := false; useWhitespace := true |} c = true
    /\ test_machineName (str "H5P.Example") = true
    /\ digits major /\ digits minor
    /\ VNumber (Int 1) = number_of major
    /\ VNumber (Int 20) = number_of minor
    /\ non_negative (VNumber (Int 1))
    /\ non_negative (VNumber (Int 20))
    /\ (Number.of_digits major < 2 ^ 53 ->
        Number.of_digits minor < 2 ^ 53 ->
        VNumber (Int 1) = VNumber (Int (Z.of_N (Number.of_digits major)))
        /\ VNumber (Int 20) = VNumber (Int (Z.of_N (Number.of_digits minor)))
        /\ valid_identity {| machineName := str "H5P.Example";
                             majorVersion := VNumber (Int 1);
                             minorVersion := VNumber (Int 20) |}).
Proof.
  apply (fromUberName_sound (str "H5P.Example 01.20")
           {| useHyphen := false; useWhitespace := true |}
           {| machineName := str "H5P.Example";
              majorVersion := VNumber (Int 1);
              minorVersion := VNumber (Int 20) |}).
  reflexivity.
Defined.

(** A string built from a valid name, an accepted separator and two runs
    of digits is parsed into these. *)
Lemma fromUberName_accepts (name : jsstring) (c : N)
  (major minor : jsstring) (o : options) :
  useHyphen o || useWhitespace o = true ->
  test_machineName name = true -> digits major -> digits minor ->
  nameRegex o c = true ->
  fromUberName (name ++ c :: major ++ Char.dot :: minor) o
  = Ok {| machineName := name; majorVersion := number_of major;
          minorVersion := number_of minor |}.
Proof.
  intros Ho Hname Hmajor Hminor Hc.
  rewrite (fromUberName_unfold _ _ Ho).
  apply test_machineName_iff in Hname as [Hne Hall].
  rewrite (exec_build _ (nameRegex_not_name o))
    by (by destruct Hmajor, Hminor).
  apply new_parsed; [by apply test_machineName_iff|done..].
Qed.

(** Whatever fromUberName throws with a separator mode enabled is the
    error of the pattern. *)
Lemma fromUberName_throws (ubername : jsstring) (o : options) (e : exn) :
  useHyphen o || useWhitespace o = true ->
  fromUberName ubername o = Throw e ->
  e = invalid_ubername_pattern o ubername.
Proof.
  intros Ho. rewrite (fromUberName_unfold _ _ Ho).
  destruct (exec (nameRegex o) ubername) as [[[name major] minor]|] eqn:He;
    [|by intros [= <-]].
  apply exec_sound in He as (c & -> & Hc & Hname & Hmajor & Hminor).
  by rewrite new_parsed.
Qed.

(** X2: with a separator mode enabled, a string made of a valid machine
    name, one character [c], digits, a dot and digits is parsed into that
    name and what parseInt makes of the digits when the options accept
    [c] as the separator; otherwise fromUberName throws the H5pError
    invalid-ubername-pattern with status 400. What parseInt makes of
    digits is their value when that is below 2^53 (leading zeros are
    dropped), and in any case a Number that is not negative: the nearest
    double, or Infinity. *)
Theorem fromUberName_separator_policy (name : jsstring) (c : N)
  (major minor : jsstring) (o : options) :
  useHyphen o || useWhitespace o = true ->
  test_machineName name = true -> digits major -> digits minor ->
  let ubername := name ++ c :: major ++ Char.dot :: minor in
  fromUberName ubername o
  = (if nameRegex o c then
       Ok {| machineName := name; majorVersion := number_of major;
             minorVersion := number_of minor |}
     else Throw (invalid_ubername_pattern o ubername))
  /\ Forall (fun ds =>
               non_negative (number_of ds)
               /\ (Number.of_digits ds < 2 ^ 53 ->
                   number_of ds
                   = VNumber (Int (Z.of_N (Number.of_digits ds)))))
            [major; minor].
Proof.
  intros Ho Hname Hmajor Hminor ubername. unfold ubername. split.
  - destruct (nameRegex o c) eqn:Hc; [by apply fromUberName_accepts|].
    rewrite (fromUberName_unfold _ _ Ho).
    apply test_machineName_iff in Hname as [Hne Hall].
    by rewrite exec_bad_separator.
  - repeat apply Forall_cons_2; [..|apply Forall_nil_2];
      (split; [apply number_of_non_negative|apply number_of_small]).
Qed.

Lemma fromUberName_separator_policy_witness :
  fromUberName (str "H5P.Example 1.0") default_options
  = Throw (invalid_ubername_pattern default_options (str "H5P.Example 1.0")).
Proof.
  pose proof (fromUberName_separator_policy (str "H5P.Example") 32
                (str "1") (str "0") default_options eq_refl eq_refl)
    as Hpolicy.
  specialize (Hpolicy ltac:(by vm_compute) ltac:(by vm_compute)).
  apply (proj1 Hpolicy).
Defined.

(** X3: with a separator mode enabled, fromUberName either returns an
    identity or throws the H5pError invalid-ubername-pattern (status 400)
    that names the string and shows an example: it never throws a plain
    Error. *)
Theorem fromUberName_error_kind (ubername : jsstring) (o : options) :
  useHyphen o || useWhitespace o = true ->
  is_Ok (fromUberName ubername o)
  \/ fromUberName ubername o = Throw (invalid_ubername_pattern o ubername).
Proof.
  intros Ho. destruct (fromUberName ubername o) as [library|e] eqn:Hparse.
  - left. by exists library.
  - right. f_equal. by apply (fromUberName_throws ubername o).
Qed.

Lemma fromUberName_error_kind_witness :
  is_Ok (fromUberName (str "H5P Example-1.0") default_options)
  \/ fromUberName (str "H5P Example-1.0") default_options
     = Throw (invalid_ubername_pattern default_options
                (str "H5P Example-1.0")).
Proof.
  apply (fromUberName_error_kind (str "H5P Example-1.0") default_options).
  reflexivity.
Defined.

End UberNameFacts.

Module ToUberNameFacts.
Import LibraryName LibraryNameFacts LibraryNameSpec UberNameSpec.
Import UberNameFacts.

(** A string with one character outside a class is cut at that character
    in one way only. *)
Lemma only_outside_unique (p : N -> bool) (n : jsstring) (c : N)
  (rest : jsstring) : forall (a : jsstring) (x : N) (b : jsstring),
  forallb p rest = true -> p x = false ->
  forallb p n = true ->
  n ++ c :: rest = a ++ x :: b -> a = n /\ x = c /\ b = rest.
Proof.
  induction n as [|h n IH]; intros a x b Hrest Hx Hn Heq.
  - destruct a as [|y a]; cbn in Heq.
    + by injection Heq as -> ->.
    + injection Heq as -> ->.
      rewrite (forallb_bad p (a ++ x :: b) x) in Hrest; [done| |done].
      apply elem_of_app; right; apply elem_of_cons; by left.
  - cbn [forallb] in Hn. apply andb_true_iff in Hn as [Hh Hn].
    destruct a as [|y a]; cbn in Heq.
    + injection Heq as -> _. congruence.
    + injection Heq as -> Heq.
      destruct (IH a x b Hrest Hx Hn Heq) as (-> & -> & ->). done.
Qed.

(** A Number prints as plain digits when it is an integer from 0 up to,
    and not including, 10^21, and only then; parseInt reads the digits
    back as that Number. *)
Lemma to_string_digits (x : number) :
  digits (Number.to_string x) ->
  exists z : Z,
    x = Int z /\ (0 <= z)%Z
    /\ (Number.is_double z = true ->
        (z < 10 ^ 21)%Z /\ number_of (Number.to_string x) = VNumber (Int z)).
Proof.
  intros [_ Hd].
  destruct x as [|z|[|]]; [done| |by vm_compute in Hd..].
  exists z. split; [done|].
  assert (0 <= z)%Z as Hz.
  { destruct (Z.ltb_spec z 0) as [Hneg|Hpos]; [|done].
    unfold Number.to_string in Hd. by destruct (Z.ltb_spec z 0); [|lia]. }
  split; [done|]. intros Hdouble.
  assert (z < 10 ^ 21)%Z as Hlt.
  { destruct (Z.ltb_spec z (10 ^ 21)) as [|Hbig]; [done|].
    apply NumberFacts.to_string_from_1e21 in Hbig; [|done].
    by rewrite (forallb_bad _ _ _ Hbig) in Hd. }
  split; [done|]. unfold number_of.
  by destruct (NumberFacts.parseInt_to_string z Hdouble ltac:(lia))
    as (_ & _ & -> & _).
Qed.

Lemma in_range_digits (z : Z) :
  Number.is_double z = true -> (0 <= z < 10 ^ 21)%Z ->
  digits (Number.to_string (Int z)).
Proof.
  intros Hdouble Hz.
  by destruct (NumberFacts.parseInt_to_string z Hdouble Hz) as (? & ? & _).
Qed.

(** What toUberName returns was built from a valid name and versions
    that print as digits. *)
Lemma toUberName_Ok_inv (libraryName : LibraryName) (o : options)
  (ubername : jsstring) :
  toUberName libraryName o = Ok ubername ->
  useHyphen o || useWhitespace o = true
  /\ test_machineName (machineName libraryName) = true
  /\ digits (Value.to_string (majorVersion libraryName))
  /\ digits (Value.to_string (minorVersion libraryName))
  /\ ubername = template (separator o) libraryName.
Proof.
  intros Hrender.
  assert (useHyphen o || useWhitespace o = true) as Ho.
  { unfold toUberName in Hrender. by destruct o as [[|] [|]]. }
  rewrite (UberNameClaims.toUberName_unfold _ _ Ho) in Hrender.
  cbn zeta in Hrender.
  destruct (exec _ _) as [[[n M] m]|] eqn:He; [|done].
  injection Hrender as <-.
  apply exec_sound in He as (c & Heq & Hc & Hn & HM & Hm).
  apply test_machineName_iff in Hn as [Hne Hn].
  rewrite UberNameClaims.template_cons in Heq. symmetry in Heq.
  apply (only_outside_unique Char.is_name) in Heq
    as (Hname & _ & Hrest); try done.
  - symmetry in Hrest.
    apply (only_outside_unique Char.is_digit) in Hrest
      as (-> & _ & ->); try apply HM; try apply Hm; try done.
    rewrite Hname. split; [done|]. split; [by apply test_machineName_iff|].
    done.
  - rewrite forallb_app, (CharFacts.digits_are_name _ (proj2 HM)).
    cbn [forallb]. by rewrite (CharFacts.digits_are_name _ (proj2 Hm)).
  - eapply UberNameClaims.writer_not_name, UberNameClaims.writer_separator.
Qed.

Lemma toUberName_Ok_intro (libraryName : LibraryName) (o : options) :
  useHyphen o || useWhitespace o = true ->
  test_machineName (machineName libraryName) = true ->
  digits (Value.to_string (majorVersion libraryName)) ->
  digits (Value.to_string (minorVersion libraryName)) ->
  toUberName libraryName o = Ok (template (separator o) libraryName).
Proof.
  intros Ho Hname HM Hm.
  rewrite (UberNameClaims.toUberName_unfold _ _ Ho). cbn zeta.
  apply test_machineName_iff in Hname as [Hne Hn].
  rewrite UberNameClaims.template_cons.
  rewrite (exec_build _ (UberNameClaims.writer_not_name o));
    try apply HM; try apply Hm; try done.
  apply UberNameClaims.writer_separator.
Qed.

(** X4: toUberName returns exactly when a separator mode is enabled, the
    machine name matches [^[\w.]+$] and both versions print as plain digits;
    what it returns is the name, the separator (a hyphen when useHyphen is
    set, a space otherwise) and the versions around a dot. *)
Theorem toUberName_returns_iff (libraryName : LibraryName) (o : options)
  (ubername : jsstring) :
  toUberName libraryName o = Ok ubername <->
  useHyphen o || useWhitespace o = true
  /\ test_machineName (machineName libraryName) = true
  /\ digits (Value.to_string (majorVersion libraryName))
  /\ digits (Value.to_string (minorVersion libraryName))
  /\ ubername = template (separator o) libraryName.
Proof.
  split; [apply toUberName_Ok_inv|].
  intros (Ho & Hname & HM & Hm & ->). by apply toUberName_Ok_intro.
Qed.

Lemma toUberName_returns_iff_witness :
  toUberName {| machineName := str "H5P.Example";
                majorVersion := VString (str "1");
                minorVersion := VNumber (Int 12) |}
    {| useHyphen := false; useWhitespace := true |}
  = Ok (str "H5P.Example 1.12").
Proof.
  apply (toUberName_returns_iff
           {| machineName := str "H5P.Example";
              majorVersion := VString (str "1");
              minorVersion := VNumber (Int 12) |}
           {| useHyphen := false; useWhitespace := true |}
           (str "H5P.Example 1.12")).
  by vm_compute.
Defined.

(** X5: whatever toUberName returns, fromUberName reads back under the same
    options: the identity it gives has the same machine name and, as
    versions, what parseInt makes of the digits that the versions print
    as; when the versions of the rendered object are Numbers, it is that
    object (also beyond 2^53, where the ubername shows the shortest decimal
    that reads back as the version; the sign of a zero, which [number]
    does not hold, apart), and when they are strings they come back as
    Numbers. *)
Theorem toUberName_can_be_parsed (libraryName : LibraryName) (o : options)
  (ubername : jsstring) :
  toUberName libraryName o = Ok ubername ->
  fromUberName ubername o
  = Ok {| machineName := machineName libraryName;
          majorVersion :=
            number_of (Value.to_string (majorVersion libraryName));
          minorVersion :=
            number_of (Value.to_string (minorVersion libraryName)) |}
  /\ (forall a b : Z,
        majorVersion libraryName = VNumber (Int a) ->
        minorVersion libraryName = VNumber (Int b) ->
        Number.is_double a = true -> Number.is_double b = true ->
        fromUberName ubername o = Ok libraryName).
Proof.
  intros (Ho & Hname & HM & Hm & ->)%toUberName_Ok_inv.
  rewrite UberNameClaims.template_cons.
  rewrite (fromUberName_accepts _ _ _ _ _ Ho Hname HM Hm
             (UberNameClaims.separator_accepted o Ho)).
  split; [done|].
  intros a b Ha Hb Hdouble_a Hdouble_b.
  rewrite Ha, Hb in *. cbn [Value.to_string] in *.
  destruct (to_string_digits _ HM) as (a' & [= <-] & _ & Hback_a).
  destruct (to_string_digits _ Hm) as (b' & [= <-] & _ & Hback_b).
  destruct (Hback_a Hdouble_a) as [_ ->].
  destruct (Hback_b Hdouble_b) as [_ ->].
  destruct libraryName as [n ? ?]. cbn in *. by subst.
Qed.

Lemma toUberName_can_be_parsed_witness :
  fromUberName (str "H5P.Example-01.0") default_options
  = Ok {| machineName := str "H5P.Example";
          majorVersion := number_of (str "01");
          minorVersion := number_of (str "0") |}
  /\ fromUberName (str "H5P.Example-18446744073709552000.0") default_options
     = Ok {| machineName := str "H5P.Example";
             majorVersion := VNumber (Int (2 ^ 64));
             minorVersion := VNumber (Int 0) |}.
Proof.
  split.
  - pose proof (toUberName_can_be_parsed
                  {| machineName := str "H5P.Example";
                     majorVersion := VString (str "01");
                     minorVersion := VNumber (Int 0) |}
                  default_options (str "H5P.Example-01.0")) as Hparsed.
    specialize (Hparsed ltac:(by vm_compute)). apply (proj1 Hparsed).
  - pose proof (toUberName_can_be_parsed
                  {| machineName := str "H5P.Example";
                     majorVersion := VNumber (Int (2 ^ 64));
                     minorVersion := VNumber (Int 0) |}
                  default_options
                  (str "H5P.Example-18446744073709552000.0")) as Hparsed.
    specialize (Hparsed ltac:(by vm_compute)).
    apply (proj2 Hparsed (2 ^ 64)%Z 0%Z eq_refl eq_refl);
      by vm_compute.
Defined.

(** What the constructor returns holds the name it was given and two
    Numbers that are not NaN. *)
Lemma new_sound (name : jsstring) (major minor : value)
  (library : LibraryName) :
  new name major minor = Ok library ->
  exists x y : number,
    Number.isNaN x = false /\ Number.isNaN y = false
    /\ library = {| machineName := name; majorVersion := VNumber x;
                    minorVersion := VNumber y |}.
Proof.
  unfold new, validate, validateMachineName, mbind, result_bind.
  cbn [machineName majorVersion minorVersion].
  destruct (test_machineName name); [|done]. cbn.
  destruct (parse_if_string major) as [| |?|x|?]; try done.
  destruct (parse_if_string minor) as [| |?|y|?];
    try (by destruct x as [|?|?]).
  destruct x as [|?|?], y as [|?|?]; try done;
    intros [= <-];
    refine (ex_intro _ _ (ex_intro _ _ (conj _ (conj _ eq_refl)))); done.
Qed.

(** X6: validate accepts an object exactly when the constructor, given the
    fields of the object, returns that same object: a valid machine name and
    two versions that are Numbers other than NaN. A version that is a string
    of digits, which the constructor would parse, is refused. *)
Theorem validate_iff_constructed (library : LibraryName) :
  validate library = Ok tt <->
  new (machineName library) (majorVersion library) (minorVersion library)
  = Ok library.
Proof.
  destruct library as [name major minor].
  unfold new, validate, validateMachineName, mbind, result_bind.
  cbn [machineName majorVersion minorVersion].
  destruct (test_machineName name); cbn [negb]; [|done].
  destruct major as [| |?|[|a|a]|?]; try done;
    try (cbn; destruct (Number.parseInt _); cbn;
         try done; destruct minor as [| |?|[|?|?]|?]; cbn;
         try done; try (destruct (Number.parseInt _); done));
    destruct minor as [| |?|[|b|b]|?]; try done;
    cbn; destruct (Number.parseInt _); done.
Qed.

(** X7: equal is symmetric, and on two identities that the constructor
    returned it holds exactly when they have the same machine name and the
    same versions (whether these were given as Numbers or as strings). *)
Theorem equal_constructed (name1 name2 : jsstring)
  (major1 minor1 major2 minor2 : value) (library1 library2 : LibraryName) :
  new name1 major1 minor1 = Ok library1 ->
  new name2 major2 minor2 = Ok library2 ->
  (equal library1 library2 = true <-> library1 = library2)
  /\ equal library1 library2 = equal library2 library1.
Proof.
  intros (x1 & y1 & Hx1 & Hy1 & ->)%new_sound
         (x2 & y2 & Hx2 & Hy2 & ->)%new_sound.
  unfold equal.
  cbn [machineName majorVersion minorVersion Value.strict_eq].
  split.
  - rewrite !andb_true_iff, bool_decide_eq_true,
      !NumberFacts.strict_eq_iff by done.
    split.
    + by intros [[-> ->] ->].
    + by intros [= -> -> ->].
  - rewrite (NumberFacts.strict_eq_sym x1), (NumberFacts.strict_eq_sym y1).
    f_equal. f_equal. apply bool_decide_ext. split; by intros ->.
Qed.

Lemma equal_constructed_witness :
  (equal {| machineName := str "H5P.Example";
            majorVersion := VNumber (Int 1);
            minorVersion := VNumber (Int 0) |}
         {| machineName := str "H5P.Example";
            majorVersion := VNumber (Int 1);
            minorVersion := VNumber (Int 0) |} = true
   <-> {| machineName := str "H5P.Example";
          majorVersion := VNumber (Int 1);
          minorVersion := VNumber (Int 0) |}
       = {| machineName := str "H5P.Example";
            majorVersion := VNumber (Int 1);
            minorVersion := VNumber (Int 0) |})
  /\ equal {| machineName := str "H5P.Example";
              majorVersion := VNumber (Int 1);
              minorVersion := VNumber (Int 0) |}
           {| machineName := str "H5P.Example";
              majorVersion := VNumber (Int 1);
              minorVersion := VNumber (Int 0) |}
     = equal {| machineName := str "H5P.Example";
                majorVersion := VNumber (Int 1);
                minorVersion := VNumber (Int 0) |}
             {| machineName := str "H5P.Example";
                majorVersion := VNumber (Int 1);
                minorVersion := VNumber (Int 0) |}.
Proof.
  apply (equal_constructed (str "H5P.Example") (str "H5P.Example")
           (VString (str "1")) (VNumber (Int 0))
           (VNumber (Int 1)) (VString (str "0"))); reflexivity.
Defined.

End ToUberNameFacts.

(** * H5PEditor.js: language codes and library data *)

Module LanguageCodeFacts.
Import H5PEditor H5PEditorSpec.

Lemma hyphen_not_letter : is_letter Char.hyphen = false.
Proof. reflexivity. Qed.

Lemma test_languageCode_iff (s : jsstring) :
  test_languageCode s = true <-> language_code s.
Proof.
  unfold test_languageCode. split.
  - pose proof (span_app is_letter s) as Happ.
    pose proof (span_prefix is_letter s) as Hpre.
    destruct (span is_letter s) as [language rest].
    cbn [fst snd] in Happ, Hpre.
    intros [[H2%Nat.leb_le H3%Nat.leb_le]%andb_true_iff Hrest]%andb_true_iff.
    exists language. split; [done|]. split; [done|].
    destruct rest as [|c variant].
    + left. by rewrite app_nil_r in Happ.
    + right. assert (c = 45 \/ c <> 45) as [->|Hc] by lia;
        [|by destruct c as [|c]; [|do 6 (destruct c as [c|c|]; try done)]].
      apply andb_true_iff in Hrest as [[Hv H2v%Nat.leb_le]%andb_true_iff
                                         H6v%Nat.leb_le].
      by exists variant.
  - intros (language & Hl & [H2 H3] & [->|(variant & -> & Hv & [H2v H6v])]).
    + rewrite span_all by done.
      apply andb_true_iff. split; [|done].
      apply andb_true_iff. split; by apply Nat.leb_le.
    + rewrite (span_stop _ _ _ _ Hl hyphen_not_letter).
      unfold Char.hyphen. rewrite Hv. cbn [andb].
      repeat (apply andb_true_iff; split); by apply Nat.leb_le.
Qed.

(** X8: validateLanguageCode lets a string through exactly when it is two or
    three ASCII letters, possibly followed by a hyphen and two to six ASCII
    letters; so what it lets through has from 2 to 10 characters, each a
    letter or a hyphen (no dot, no slash, no white space). *)
Theorem validateLanguageCode_accepts (languageCode : jsstring) :
  (validateLanguageCode languageCode = Ok tt <-> language_code languageCode)
  /\ (validateLanguageCode languageCode = Ok tt ->
      (2 <= length languageCode <= 10)%nat
      /\ Forall (fun c => is_letter c = true \/ c = Char.hyphen)
                languageCode).
Proof.
  assert (validateLanguageCode languageCode = Ok tt
          <-> language_code languageCode) as Hiff.
  { rewrite <- test_languageCode_iff. unfold validateLanguageCode.
    by destruct (test_languageCode languageCode). }
  split; [done|]. intros Hok. apply Hiff in Hok
    as (language & Hl & [H2 H3] & [->|(variant & -> & Hv & [H2v H6v])]).
  - split; [lia|]. apply Forall_forall. intros c Hc. left.
    rewrite forallb_forall in Hl. by apply Hl, list_elem_of_In.
  - split; [rewrite length_app; cbn [length]; lia|].
    rewrite forallb_forall in Hl, Hv.
    apply Forall_app. split; [|apply Forall_cons; split; [by right|]];
      apply Forall_forall; intros c Hc; left;
      [apply Hl|apply Hv]; by apply list_elem_of_In.
Qed.

Lemma validateLanguageCode_accepts_witness :
  (2 <= length (str "zh-hans") <= 10)%nat
  /\ Forall (fun c => is_letter c = true \/ c = Char.hyphen) (str "zh-hans").
Proof.
  apply (validateLanguageCode_accepts (str "zh-hans")). reflexivity.
Defined.

End LanguageCodeFacts.

Module LibraryDataFacts.
Import LibraryName LibraryNameSpec UberNameSpec UberNameFacts ToUberNameFacts.
Import H5PEditor H5PEditorSpec.

Section Facts.

Context {A : Type}.
Variable libraryExists : LibraryName -> result bool.
Variable load : LibraryName -> jsstring -> result A.

(** X9: getLibraryData for a library that the library manager does not hold,
    name, versions and language code being accepted, [x] and [y] being
    what parseInt makes of the version arguments: when both are integers
    from 0 up to, and not including, 10^21 (they print as digits, those of
    the integer itself up to 2^53), it throws the H5pError
    library-not-found with status 404, naming the hyphenated ubername;
    with a negative version (parseInt reads a sign), one of 10^21 or more
    (21 nines are read as 10^21) or Infinity, the ubername for that error
    cannot be rendered and the plain Error of toUberName is thrown
    instead. The rest of the function is not reached. *)
Theorem getLibraryData_missing_library (name : jsstring)
  (major minor : value) (language : jsstring) (x y : number) :
  test_machineName name = true ->
  parseInt_of major = x -> parseInt_of minor = y ->
  Number.isNaN x = false -> Number.isNaN y = false ->
  validateLanguageCode language = Ok tt ->
  libraryExists {| machineName := name; majorVersion := VNumber x;
                   minorVersion := VNumber y |} = Ok false ->
  let outcome :=
    getLibraryData libraryExists load name major minor language in
  (in_range x -> in_range y ->
     outcome
     = Throw (library_not_found
                (name ++ Char.hyphen :: Number.to_string x
                      ++ Char.dot :: Number.to_string y))
     /\ digits (Number.to_string x) /\ digits (Number.to_string y)
     /\ Forall (fun n =>
                  forall z : Z,
                    n = Int z -> (z < 2 ^ 53)%Z ->
                    Number.to_string n = Number.decimal (Z.to_N z))
               [x; y])
  /\ (~ in_range x \/ ~ in_range y -> is_programming_error outcome).
Proof.
  intros Hname Hx Hy Hnan_x Hnan_y Hlang Hmissing. cbn zeta.
  unfold getLibraryData.
  rewrite Hx, Hy, (new_numbers name x y Hname Hnan_x Hnan_y).
  unfold mbind, result_bind. rewrite Hlang, Hmissing. cbn [negb].
  set (library := {| machineName := name |}).
  assert (forall z, x = Int z -> Number.is_double z = true) as Hdouble_x.
  { intros z Hz. apply (NumberFacts.parseInt_double (Value.to_string major)).
    by rewrite <- Hz, <- Hx. }
  assert (forall z, y = Int z -> Number.is_double z = true) as Hdouble_y.
  { intros z Hz. apply (NumberFacts.parseInt_double (Value.to_string minor)).
    by rewrite <- Hz, <- Hy. }
  split.
  - intros (a & Ha & Hza) (b & Hb & Hzb).
    pose proof (in_range_digits a (Hdouble_x a Ha) Hza) as HM.
    pose proof (in_range_digits b (Hdouble_y b Hb) Hzb) as Hm.
    rewrite <- Ha in HM. rewrite <- Hb in Hm.
    rewrite (toUberName_Ok_intro library default_options) by done.
    split; [done|]. do 2 (split; [done|]).
    repeat apply Forall_cons_2; [..|apply Forall_nil_2];
      intros z -> Hz; apply NumberFacts.to_string_exact.
    + injection Ha as ->. lia.
    + injection Hb as ->. lia.
  - intros Hbad.
    destruct (toUberName library default_options) as [u|e] eqn:Hu.
    + exfalso. apply toUberName_Ok_inv in Hu as (_ & _ & HM & Hm & _).
      cbn [machineName majorVersion minorVersion library Value.to_string]
        in HM, Hm.
      apply to_string_digits in HM as (a & Ha & Hza & Hlt_a).
      apply to_string_digits in Hm as (b & Hb & Hzb & Hlt_b).
      destruct (Hlt_a (Hdouble_x a Ha)) as [? _].
      destruct (Hlt_b (Hdouble_y b Hb)) as [? _].
      destruct Hbad as [Hbad|Hbad]; apply Hbad; by eexists.
    + unfold toUberName in Hu. cbn in Hu.
      destruct (bool_decide _) in Hu; [done|]. injection Hu as <-.
      by eexists.
Qed.

End Facts.

(** X26: getLibraryData looks at its arguments before it asks the library
    manager anything: with a machine name that does not match [^[\w.]+$], a
    version of which parseInt makes NaN, or a language code that is not
    accepted, it throws a plain Error that is the same whatever the library
    manager holds or does. *)
Theorem getLibraryData_checks_arguments (name : jsstring)
  (major minor : value) (language : jsstring) :
  test_machineName name = false
  \/ parseInt_of major = NaN \/ parseInt_of minor = NaN
  \/ validateLanguageCode language <> Ok tt ->
  exists message : jsstring,
    forall (A : Type) (libraryExists : LibraryName -> result bool)
           (load : LibraryName -> jsstring -> result A),
      getLibraryData libraryExists load name major minor language
      = Throw (Error message).
Proof.
  intros Hbad. unfold getLibraryData, new, validate, validateMachineName.
  unfold mbind, result_bind.
  cbn [machineName majorVersion minorVersion parse_if_string].
  destruct (test_machineName name) eqn:Hname; cbn [negb];
    [|by eexists].
  destruct (parseInt_of major) as [|a|a] eqn:Ha; [by eexists|..];
    (destruct (parseInt_of minor) as [|b|b] eqn:Hb; [by eexists|..]);
    cbn; unfold validateLanguageCode in *;
    (destruct (test_languageCode language); cbn [negb] in *; [|by eexists]);
    by destruct Hbad as [?|[?|[?|?]]].
Qed.

Lemma getLibraryData_checks_arguments_witness :
  exists message : jsstring,
    forall (A : Type) (libraryExists : LibraryName -> result bool)
           (load : LibraryName -> jsstring -> result A),
      getLibraryData libraryExists load (str "H5P.Example")
        (VString (str "1")) (VString (str "x")) (str "en")
      = Throw (Error message).
Proof.
  apply (getLibraryData_checks_arguments (str "H5P.Example")
           (VString (str "1")) (VString (str "x")) (str "en")).
  right. right. left. reflexivity.
Defined.

Lemma getLibraryData_missing_library_witness :
  is_programming_error
    (getLibraryData (fun _ => Ok false) (fun _ _ => Ok tt)
       (str "H5P.Example") (VString (str "999999999999999999999"))
       (VString (str "0")) (str "en")).
Proof.
  pose proof (getLibraryData_missing_library (fun _ => Ok false)
                (fun _ _ => Ok tt) (str "H5P.Example")
                (VString (str "999999999999999999999"))
                (VString (str "0")) (str "en") (Int (10 ^ 21)) (Int 0))
    as Hmissing.
  specialize (Hmissing eq_refl ltac:(by vm_compute) ltac:(by vm_compute)
                eq_refl eq_refl eq_refl eq_refl).
  apply (proj2 Hmissing). left. intros (z & [= <-] & Hz). lia.
Defined.

End LibraryDataFacts.

(** * H5PEditor.js: lists of ubernames *)

Module UbernameListFacts.
Import LibraryName UberNameSpec UberNameFacts.
Import Overview H5PEditor LanguageFilesSpec.

Lemma parse_all_bad (good : list jsstring) (bad : jsstring)
  (rest : list jsstring) (e : exn) :
  Forall parses good ->
  fromUberName bad overview_options = Throw e ->
  parse_all (good ++ bad :: rest) = Throw e.
Proof.
  intros Hgood Hbad. induction Hgood as [|name good [lib Hlib] _ IH].
  - cbn [app parse_all]. by rewrite Hbad.
  - cbn [app parse_all]. by rewrite Hlib, IH.
Qed.

Lemma not_parsed (name : jsstring) :
  ~ parses name ->
  fromUberName name overview_options
  = Throw (invalid_ubername_pattern overview_options name).
Proof.
  intros Hbad.
  destruct (fromUberName name overview_options) as [lib|e] eqn:Hparse.
  - destruct Hbad. exists lib. done.
  - f_equal. by apply (fromUberName_throws name overview_options).
Qed.

(** X10: one ubername that does not parse (white space is the only separator
    accepted here, so the hyphenated form does not) makes getLibraryOverview
    fail as a whole: it throws the H5pError invalid-ubername-pattern of the
    first such name, whatever the library manager holds and whatever the
    other names are. *)
Theorem overview_fails_on_unparsable_name {Lang : Type}
  (getLibrary : LibraryName -> Lang -> result (option InstalledLibrary))
  (good : list jsstring) (bad : jsstring) (rest : list jsstring)
  (language : Lang) :
  Forall parses good -> ~ parses bad ->
  getLibraryOverview getLibrary (good ++ bad :: rest) language
  = Throw (invalid_ubername_pattern overview_options bad).
Proof.
  intros Hgood Hbad. unfold getLibraryOverview.
  by rewrite (parse_all_bad good bad rest _ Hgood (not_parsed bad Hbad)).
Qed.

Lemma overview_fails_on_unparsable_name_witness :
  getLibraryOverview OverviewSpec.example_getLibrary
    ([str "H5P.Example 1.0"] ++ str "H5P.Example-1.0" :: [str "H5P.Other 1.0"])
    tt
  = Throw (invalid_ubername_pattern overview_options (str "H5P.Example-1.0")).
Proof.
  apply (overview_fails_on_unparsable_name OverviewSpec.example_getLibrary
           [str "H5P.Example 1.0"] (str "H5P.Example-1.0")
           [str "H5P.Other 1.0"] tt).
  - repeat constructor. by eexists.
  - intros [lib Hlib]. by vm_compute in Hlib.
Defined.

Section LanguageFiles.

Variable getLanguage : LibraryName -> jsstring -> result (option jsstring).
Variable first_rejection : list exn -> exn.

Local Abbreviation language_entry := (H5PEditor.language_entry getLanguage).
Local Abbreviation promise_all := (H5PEditor.promise_all first_rejection).
Local Abbreviation language_string :=
  (LanguageFilesSpec.language_string getLanguage).
Local Abbreviation language_fails :=
  (LanguageFilesSpec.language_fails getLanguage).

(** When Promise.all fulfils, every name was parsed and its language was
    read. *)
Lemma promise_all_entries (language : jsstring) (names : list jsstring)
  (entries : list (option jsstring * jsstring)) :
  promise_all (language_entry language <$> names) = Ok entries ->
  Forall2 (fun name entry =>
             exists lib,
               fromUberName name overview_options = Ok lib
               /\ getLanguage lib language = Ok (entry.1)
               /\ entry.2 = name) names entries.
Proof.
  unfold H5PEditor.promise_all.
  destruct (omap rejected_at_once _) as [|? ?] eqn:Hat; [|done].
  destruct (omap rejected_later _) as [|? ?] eqn:Hlater; [|done].
  intros [= <-]. induction names as [|name names IH]; [constructor|].
  rewrite fmap_cons in *. cbn [omap list_omap] in *.
  destruct (language_entry language name) as [e|[entry|e]] eqn:Hentry;
    cbn [rejected_at_once rejected_later fulfilled] in Hat, Hlater |- *;
    [done| |done].
  constructor; [|by apply IH].
  unfold H5PEditor.language_entry in Hentry.
  destruct (fromUberName name overview_options) as [lib|e]; [|done].
  exists lib. split; [done|].
  destruct (getLanguage lib language) as [l|e]; [|done].
  cbn in Hentry. by injection Hentry as <-.
Qed.

Lemma add_language_entries (language : jsstring) (names : list jsstring) :
  forall (entries : list (option jsstring * jsstring))
         (files : gmap jsstring jsstring) (name s : jsstring),
    Forall2 (fun name entry =>
               exists lib,
                 fromUberName name overview_options = Ok lib
                 /\ getLanguage lib language = Ok (entry.1)
                 /\ entry.2 = name) names entries ->
    foldl add_language files entries !! name = Some s <->
    (name ∈ names /\ language_string language name = Some s)
    \/ (language_string language name = None /\ files !! name = Some s)
    \/ ((name ∉ names) /\ files !! name = Some s).
Proof.
  induction names as [|n names IH]; intros entries files name s Hall.
  - apply Forall2_nil_inv_l in Hall as ->. cbn. split.
    + intros ?. right; right. split; [apply not_elem_of_nil|done].
    + intros [[[]%elem_of_nil _]|[[_ ?]|[_ ?]]]; done.
  - apply Forall2_cons_inv_l in Hall
      as ([l n'] & entries' & (lib & Hlib & Hl & Hn) & Hall & ->).
    cbn in Hl, Hn. subst n'. cbn [foldl]. rewrite (IH _ _ _ _ Hall).
    assert (language_string language n
            = match l with Some (c :: r) => Some (c :: r) | _ => None end)
      as Hn.
    { unfold LanguageFilesSpec.language_string. by rewrite Hlib, Hl. }
    rewrite elem_of_cons.
    destruct (decide (name = n)) as [->|Hne].
    + rewrite Hn. unfold add_language.
      destruct l as [[|c r]|]; rewrite ?lookup_insert_eq;
        destruct (decide (n ∈ names)); intuition congruence.
    + assert (add_language files (l, n) !! name = files !! name) as ->.
      { unfold add_language. destruct l as [[|c r]|]; try done.
        by rewrite lookup_insert_ne. }
      destruct (decide (name ∈ names)); intuition congruence.
Qed.

(** X11: when listLibraryLanguageFiles returns, the language code was
    accepted, every ubername was parsed and its language read without an
    exception, and the object holds, under each ubername of the list whose
    library has a language string that is neither [null] nor empty, that
    string, and nothing else. *)
Theorem language_files_returned (names : list jsstring)
  (language : jsstring) (files : gmap jsstring jsstring) :
  listLibraryLanguageFiles getLanguage first_rejection names language
  = Ok files ->
  validateLanguageCode language = Ok tt
  /\ Forall (fun name =>
               exists lib l,
                 fromUberName name overview_options = Ok lib
                 /\ getLanguage lib language = Ok l) names
  /\ forall name s : jsstring,
       files !! name = Some s <->
       name ∈ names /\ language_string language name = Some s.
Proof.
  unfold listLibraryLanguageFiles, mbind, result_bind.
  destruct (validateLanguageCode language) as [[]|e]; [|done].
  destruct (H5PEditor.promise_all _ _) as [entries|e] eqn:Hall; [|done].
  intros [= <-]. apply promise_all_entries in Hall.
  split; [done|]. split.
  - clear -Hall. induction Hall as [|n [l n'] ? ? (lib & ? & ? & ?) _ IH];
      constructor; [by exists lib, l|done].
  - intros name s.
    rewrite (add_language_entries language names entries ∅ name s Hall).
    rewrite lookup_empty. split; [|by left].
    by intros [?|[[_ ?]|[_ ?]]].
Qed.

Lemma promise_all_rejected_at_once {B : Type} (good : list (promise B))
  (e : exn) (rest : list (promise B)) :
  Forall (fun p => rejected_at_once p = None) good ->
  promise_all (good ++ RejectedAtOnce e :: rest) = Throw e.
Proof.
  intros Hgood. unfold H5PEditor.promise_all. rewrite omap_app.
  assert (omap rejected_at_once good = []) as ->.
  { induction Hgood as [|p good Hp _ IH]; [done|].
    cbn [omap list_omap]. by rewrite Hp. }
  done.
Qed.

(** X12: listLibraryLanguageFiles, the language code being accepted, does
    not leave a failure out (as getLibraryOverview does): an ubername that
    does not parse makes it throw the H5pError invalid-ubername-pattern of
    the first such name, whatever getLanguage does for the others; and when
    all names parse, a failure of getLanguage makes it throw one of the
    exceptions that getLanguage threw. *)
Theorem language_files_failures (names : list jsstring)
  (language : jsstring) :
  validateLanguageCode language = Ok tt ->
  let outcome :=
    listLibraryLanguageFiles getLanguage first_rejection names language in
  (forall good bad rest,
      names = good ++ bad :: rest -> Forall parses good -> ~ parses bad ->
      outcome = Throw (invalid_ubername_pattern overview_options bad))
  /\ (Forall parses names ->
      (forall es, es <> [] -> first_rejection es ∈ es) ->
      forall name e,
        name ∈ names -> language_fails language name e ->
        exists name' e',
          name' ∈ names /\ language_fails language name' e'
          /\ outcome = Throw e').
Proof.
  intros Hlang. cbn zeta.
  unfold listLibraryLanguageFiles, mbind at 1, result_bind.
  rewrite Hlang. split.
  - intros good bad rest -> Hgood Hbad.
    rewrite fmap_app, fmap_cons.
    unfold H5PEditor.language_entry at 2. rewrite (not_parsed bad Hbad).
    rewrite promise_all_rejected_at_once; [done|].
    apply Forall_fmap. eapply Forall_impl; [done|].
    intros name [lib Hlib]. cbn. unfold H5PEditor.language_entry.
    by rewrite Hlib.
  - intros Hparse Hpick name e Hin (lib & Hlib & He).
    unfold H5PEditor.promise_all.
    assert (omap rejected_at_once (language_entry language <$> names) = [])
      as ->.
    { clear -Hparse. induction Hparse as [|n names [lib Hlib] _ IH]; [done|].
      rewrite fmap_cons. cbn [omap list_omap].
      unfold H5PEditor.language_entry at 1. by rewrite Hlib. }
    assert (forall e',
              e' ∈ omap rejected_later (language_entry language <$> names)
              <-> exists name', name' ∈ names
                                /\ language_fails language name' e') as Hes.
    { intros e'. rewrite list_elem_of_omap. split.
      - intros (p & (n & -> & Hn)%list_elem_of_fmap & Hp).
        exists n. split; [done|]. unfold H5PEditor.language_entry in Hp.
        destruct (fromUberName n overview_options) as [lib'|] eqn:Hl;
          [|done].
        cbn in Hp. destruct (getLanguage lib' language) eqn:Hg; [done|].
        cbn in Hp. injection Hp as ->. by exists lib'.
      - intros (n & Hn & lib' & Hl & Hg).
        exists (language_entry language n).
        split; [by apply list_elem_of_fmap_2|].
        unfold H5PEditor.language_entry. rewrite Hl. cbn. by rewrite Hg. }
    destruct (omap rejected_later _) as [|e0 es] eqn:Hlater.
    + exfalso. apply (not_elem_of_nil e), Hes. exists name. split; [done|].
      by exists lib.
    + destruct (proj1 (Hes (first_rejection (e0 :: es)))) as (n' & ? & ?);
        [by apply Hpick|].
      by exists n', (first_rejection (e0 :: es)).
Qed.

End LanguageFiles.

Lemma language_files_returned_witness :
  validateLanguageCode (str "de") = Ok tt
  /\ Forall (fun name =>
               exists lib l,
                 fromUberName name overview_options = Ok lib
                 /\ example_getLanguage lib (str "de") = Ok l)
            [str "H5P.Example 1.0"; str "H5P.Missing 1.2"]
  /\ forall name s : jsstring,
       ({[ str "H5P.Example 1.0" := str "{}" ]} : gmap jsstring jsstring)
         !! name = Some s <->
       name ∈ [str "H5P.Example 1.0"; str "H5P.Missing 1.2"]
       /\ language_string example_getLanguage (str "de") name = Some s.
Proof.
  apply (language_files_returned example_getLanguage (fun _ => Error [])
           [str "H5P.Example 1.0"; str "H5P.Missing 1.2"] (str "de")).
  reflexivity.
Defined.

Lemma language_files_failures_witness :
  listLibraryLanguageFiles example_getLanguage (fun _ => Error [])
    ([str "H5P.Broken 1.0"] ++ str "H5P.Example-1.0" :: []) (str "de")
  = Throw (invalid_ubername_pattern overview_options (str "H5P.Example-1.0")).
Proof.
  apply (proj1 (language_files_failures example_getLanguage
                  (fun _ => Error [])
                  [str "H5P.Broken 1.0"; str "H5P.Example-1.0"] (str "de")
                  eq_refl)
           [str "H5P.Broken 1.0"] (str "H5P.Example-1.0") [] eq_refl).
  - repeat constructor. by eexists.
  - intros [lib Hlib]. by vm_compute in Hlib.
Defined.

End UbernameListFacts.

(** * H5PEditor.js: findLibrariesInParameters *)

Module ParametersFacts.
Import LibraryName UberNameSpec UberNameFacts.
Import Overview H5PEditor LanguageFilesSpec ParametersSpec.

Lemma keys_assign (key : jsstring) (library : LibraryName)
  (collect : collected) (s : jsstring) :
  s ∈ keys (assign key library collect) <-> s ∈ keys collect \/ s = key.
Proof.
  induction collect as [|[k l] collect IH]; cbn [assign].
  - cbn [fmap list_fmap fst]. rewrite list_elem_of_singleton.
    pose proof (not_elem_of_nil s). tauto.
  - case_decide as Hk; cbn [fmap list_fmap fst].
    + subst k. rewrite !elem_of_cons. tauto.
    + rewrite !elem_of_cons. fold (keys (assign key library collect)).
      fold (keys collect). rewrite IH. tauto.
Qed.

Lemma NoDup_assign (key : jsstring) (library : LibraryName)
  (collect : collected) :
  NoDup (keys collect) -> NoDup (keys (assign key library collect)).
Proof.
  induction collect as [|[k l] collect IH]; cbn [assign].
  - intros _. apply NoDup_singleton.
  - cbn [fmap list_fmap fst]. fold (keys collect).
    intros [Hk Hnd]%NoDup_cons. case_decide as Hkey.
    + cbn [fmap list_fmap fst]. by apply NoDup_cons.
    + cbn [fmap list_fmap fst]. fold (keys (assign key library collect)).
      apply NoDup_cons. split; [|by apply IH].
      rewrite keys_assign. intros [?|?]; [done|]. by subst.
Qed.

Lemma parsed_assign (key : jsstring) (library : LibraryName)
  (collect : collected) :
  fromUberName key overview_options = Ok library ->
  parsed collect -> parsed (assign key library collect).
Proof.
  intros Hkey. induction collect as [|[k l] collect IH]; cbn [assign].
  - intros _. by repeat constructor.
  - intros [Hk Hrest]%Forall_cons. case_decide as Heq.
    + subst k. by constructor.
    + constructor; [done|by apply IH].
Qed.

Lemma crawled_nil (collect : collected) : crawled [] collect collect.
Proof.
  split; [done|]. split; [done|]. split; [constructor|].
  intros s. pose proof (not_elem_of_nil s). tauto.
Qed.

Lemma crawled_app (l1 l2 : list jsstring) (c1 c2 c3 : collected) :
  crawled l1 c1 c2 -> crawled l2 c2 c3 -> crawled (l1 ++ l2) c1 c3.
Proof.
  intros (N1 & P1 & F1 & K1) (N2 & P2 & F2 & K2).
  repeat split; auto.
  - by apply Forall_app.
  - rewrite K2, K1, elem_of_app. tauto.
  - rewrite K2, K1, elem_of_app. tauto.
Qed.

Lemma crawl_crawled (p : parameters) :
  forall collect collect' : collected,
    crawl p collect = Ok collect' ->
    crawled (library_strings p) collect collect'.
Proof.
  induction p as [v|elements IH|properties IH] using parameters_ind;
    intros collect collect'; cbn [crawl library_strings].
  - intros [= <-]. apply crawled_nil.
  - revert collect. induction IH as [|e elements He _ IHl]; intros collect.
    + intros [= <-]. apply crawled_nil.
    + cbn [forEach]. unfold mbind at 1, result_bind.
      destruct (crawl e collect) as [c1|] eqn:Hc1; [|done].
      intros Hrest. cbn [mbind list_bind].
      eapply crawled_app; [by apply He|by apply IHl].
  - revert collect.
    induction IH as [|[key value] properties He _ IHl]; intros collect.
    + intros [= <-]. apply crawled_nil.
    + cbn [forEach]. unfold mbind at 1, result_bind. cbn [fst snd] in *.
      cbn [mbind list_bind fst snd].
      destruct (decide (key = str "library")) as [Hkey|Hkey];
        [destruct value as [[| |?|?|s]|?|?]|];
        try (destruct (crawl _ collect) as [c1|] eqn:Hc1; [|done];
             intros Hrest;
             eapply crawled_app; [by apply He|by apply IHl]).
      destruct (match_library s).
      * unfold mbind at 1, result_bind.
        destruct (fromUberName s overview_options) as [library|] eqn:Hs;
          [|done].
        intros Hrest. eapply crawled_app; [|by apply IHl].
        repeat split.
        -- apply NoDup_assign.
        -- by apply parsed_assign.
        -- repeat constructor. by exists library.
        -- rewrite keys_assign, list_elem_of_singleton. tauto.
        -- rewrite keys_assign, list_elem_of_singleton. tauto.
      * intros Hrest. cbn [app]. by apply IHl.
Qed.

(** X13: when findLibrariesInParameters, called with the default [collect],
    returns: for parameters that are no object (a primitive value, [null]
    and [undefined] included) it returns the empty [collect] object itself,
    not a list; otherwise it returns a list of identities, one for each
    string that stands under a [library] property anywhere in the parameters
    and matches [/.+ \d+\.\d+/], each parsed from its string with white
    space as the separator, and no string is taken twice. *)
Theorem found_libraries (p : parameters) (result : found) :
  findLibrariesInParameters p [] = Ok result ->
  match p with
  | Primitive _ => result = Collect []
  | _ =>
      exists collect : collected,
        result = Values (snd <$> collect)
        /\ NoDup (keys collect)
        /\ (forall s, s ∈ keys collect <-> s ∈ library_strings p)
        /\ Forall (fun kv =>
                     fromUberName kv.1 overview_options = Ok kv.2) collect
  end.
Proof.
  assert (forall collect,
            crawl p [] = Ok collect ->
            NoDup (keys collect)
            /\ (forall s, s ∈ keys collect <-> s ∈ library_strings p)
            /\ parsed collect) as Hcrawl.
  { intros collect (Hnd & Hp & _ & Hk)%crawl_crawled.
    split; [apply Hnd, NoDup_nil_2|]. split; [|apply Hp, Forall_nil_2].
    intros s. rewrite Hk. cbn. pose proof (not_elem_of_nil s). tauto. }
  unfold findLibrariesInParameters.
  destruct p as [v|elements|properties].
  - by intros [= <-].
  - unfold mbind, result_bind.
    destruct (crawl _ []) as [collect|] eqn:Hc; [|done]. intros [= <-].
    exists collect. split; [done|]. by apply Hcrawl.
  - unfold mbind, result_bind.
    destruct (crawl _ []) as [collect|] eqn:Hc; [|done]. intros [= <-].
    exists collect. split; [done|]. by apply Hcrawl.
Qed.

Lemma found_libraries_witness :
  exists collect : collected,
    Values [{| machineName := str "H5P.Column";
               majorVersion := VNumber (Int 1);
               minorVersion := VNumber (Int 16) |}]
    = Values (snd <$> collect)
    /\ NoDup (keys collect)
    /\ (forall s,
          s ∈ keys collect <-> s ∈ library_strings example_parameters)
    /\ Forall (fun kv =>
                 fromUberName kv.1 overview_options = Ok kv.2) collect.
Proof.
  apply (found_libraries example_parameters
           (Values [{| machineName := str "H5P.Column";
                       majorVersion := VNumber (Int 1);
                       minorVersion := VNumber (Int 16) |}])).
  reflexivity.
Defined.

(** The crawl throws nothing but the error of a reference that does not
    parse. *)
Lemma crawl_throws (p : parameters) :
  forall (collect : collected) (e : exn),
    crawl p collect = Throw e ->
    exists s, s ∈ library_strings p /\ ~ parses s
              /\ e = invalid_ubername_pattern overview_options s.
Proof.
  induction p as [v|elements IH|properties IH] using parameters_ind;
    intros collect err; cbn [crawl library_strings].
  - done.
  - revert collect. induction IH as [|e elements He _ IHl]; intros collect;
      [done|].
    cbn [mbind list_bind forEach]. unfold mbind at 1, result_bind.
    destruct (crawl e collect) as [c1|err'] eqn:Hc1.
    + intros (s & Hin & Hs)%IHl. exists s.
      split; [apply elem_of_app; by right|done].
    + intros [= <-]. destruct (He _ _ Hc1) as (s & Hin & Hs).
      exists s. split; [apply elem_of_app; by left|done].
  - revert collect.
    induction IH as [|[key value] properties He _ IHl]; intros collect;
      [done|].
    cbn [forEach]. unfold mbind at 1, result_bind. cbn [fst snd] in *.
    cbn [mbind list_bind fst snd].
    destruct (decide (key = str "library")) as [Hkey|Hkey];
      [destruct value as [[| |?|?|s]|?|?]|];
      try (destruct (crawl _ collect) as [c1|err'] eqn:Hc1;
           [intros (s & Hin & Hs)%IHl; exists s;
            split; [apply elem_of_app; by right|done]
           |intros [= <-]; destruct (He _ _ Hc1) as (s & Hin & Hs);
            exists s; split; [apply elem_of_app; by left|done]]).
    destruct (match_library s).
    + unfold mbind at 1, result_bind.
      destruct (fromUberName s overview_options) as [library|err'] eqn:Hs.
      * intros (s' & Hin & Hs')%IHl. exists s'.
        split; [apply elem_of_app; by right|done].
      * intros [= <-]. exists s.
        assert (~ parses s) as Hbad by (intros [? ?]; congruence).
        split; [apply elem_of_app; left; by apply list_elem_of_singleton|].
        split; [done|].
        rewrite (UbernameListFacts.not_parsed s Hbad) in Hs. congruence.
    + intros (s' & Hin & Hs')%IHl. by exists s'.
Qed.

(** X14: one string under a [library] property that matches the loose
    expression [/.+ \d+\.\d+/] but is no ubername with white space as the
    separator makes findLibrariesInParameters throw: the H5pError
    invalid-ubername-pattern of such a string. *)
Theorem malformed_reference_fails (p : parameters) (collect : collected) :
  Exists (fun s => ~ parses s) (library_strings p) ->
  exists s,
    s ∈ library_strings p /\ ~ parses s
    /\ findLibrariesInParameters p collect
       = Throw (invalid_ubername_pattern overview_options s).
Proof.
  intros Hbad. destruct (crawl p collect) as [collect'|e] eqn:Hcrawl.
  - apply crawl_crawled in Hcrawl as (_ & _ & Hall & _).
    apply Exists_exists in Hbad as (s & Hin & Hs).
    rewrite Forall_forall in Hall. by destruct (Hs (Hall s Hin)).
  - destruct (crawl_throws p collect e Hcrawl) as (s & Hin & Hs & ->).
    exists s. split; [done|]. split; [done|].
    unfold findLibrariesInParameters.
    destruct p; [done|by rewrite Hcrawl..].
Qed.

Lemma malformed_reference_fails_witness :
  exists s,
    s ∈ library_strings
          (Object [(str "library",
                    Primitive (VString (str "H5P-Text 1.1")))])
    /\ ~ parses s
    /\ findLibrariesInParameters
         (Object [(str "library",
                   Primitive (VString (str "H5P-Text 1.1")))]) []
       = Throw (invalid_ubername_pattern overview_options s).
Proof.
  apply (malformed_reference_fails
           (Object [(str "library",
                     Primitive (VString (str "H5P-Text 1.1")))]) []).
  apply Exists_cons_hd. intros [lib Hlib]. by vm_compute in Hlib.
Defined.

Lemma version_ahead_digits (major minor : jsstring) :
  digits major -> digits minor ->
  version_ahead (major ++ Char.dot :: minor) = true.
Proof.
  intros [Hne Hmajor] [Hne' Hminor]. unfold version_ahead.
  rewrite (span_stop _ _ _ _ Hmajor CharFacts.dot_not_digit).
  destruct major as [|d major]; [done|].
  destruct minor as [|d' minor]; [done|].
  cbn [forallb] in Hminor. by apply andb_true_iff in Hminor as [-> _].
Qed.

Lemma match_from_no_space (s : jsstring) : forall previous : N,
  (32 ∉ s) -> match_from previous s = false.
Proof.
  induction s as [|c s IH]; intros previous Hs; [done|].
  apply not_elem_of_cons in Hs as [Hc Hs]. cbn [match_from].
  rewrite IH by done.
  assert ((c =? 32) = false) as -> by (apply N.eqb_neq; congruence). done.
Qed.

Lemma match_from_space (name : jsstring) (rest : jsstring) :
  forall previous : N,
    forallb Char.is_name (previous :: name) = true ->
    version_ahead rest = true ->
    match_from previous (name ++ 32 :: rest) = true.
Proof.
  induction name as [|c name IH]; intros previous Hname Hrest.
  - cbn [app match_from]. rewrite Hrest.
    cbn [forallb] in Hname. apply andb_true_iff in Hname as [Hp _].
    assert (is_line_terminator previous = false) as ->; [|done].
    apply not_true_is_false. intros Ht. revert Hp Ht. clear.
    unfold is_line_terminator. intros Hp Ht.
    CharFacts.classes; lia.
  - cbn [app match_from]. rewrite IH; [apply orb_true_r| |done].
    cbn [forallb] in Hname. by apply andb_true_iff in Hname as [_ ?].
Qed.

(** X15: an ubername with one space as the separator is always matched by
    the loose expression of findLibrariesInParameters, so a reference
    written that way is found; an ubername written with another white space
    character (a tab, say), which fromUberName accepts as well, is not
    matched, so such a reference is passed over without an error. *)
Theorem reference_needs_a_space (name : jsstring) (c : N)
  (major minor : jsstring) :
  test_machineName name = true -> digits major -> digits minor ->
  Char.is_space c = true ->
  parses (name ++ c :: major ++ Char.dot :: minor)
  /\ match_library (name ++ c :: major ++ Char.dot :: minor)
     = bool_decide (c = Char.space).
Proof.
  intros Hname Hmajor Hminor Hc. split.
  - unfold parses.
    rewrite (fromUberName_accepts name c major minor overview_options
               eq_refl Hname Hmajor Hminor Hc).
    by eexists.
  - apply test_machineName_iff in Hname as [Hne Hname].
    destruct name as [|n0 name]; [done|]. cbn [app match_library].
    case_bool_decide as Hspace.
    + subst c. apply match_from_space; [done|].
      by apply version_ahead_digits.
    + apply match_from_no_space. intros Hin.
      cbn [forallb] in Hname. apply andb_true_iff in Hname as [_ Hname].
      apply elem_of_app in Hin as [Hin|Hin].
      { rewrite (LibraryNameFacts.forallb_bad _ _ _ Hin) in Hname;
          [done|reflexivity]. }
      apply elem_of_cons in Hin as [Hin|Hin]; [by subst c|].
      apply elem_of_app in Hin as [Hin|Hin].
      { destruct Hmajor as [_ Hmajor].
        by rewrite (LibraryNameFacts.forallb_bad _ _ _ Hin) in Hmajor. }
      apply elem_of_cons in Hin as [Hin|Hin]; [done|].
      destruct Hminor as [_ Hminor].
      by rewrite (LibraryNameFacts.forallb_bad _ _ _ Hin) in Hminor.
Qed.

Lemma reference_needs_a_space_witness :
  parses (str "H5P.Text" ++ 9 :: str "1" ++ Char.dot :: str "1")
  /\ match_library (str "H5P.Text" ++ 9 :: str "1" ++ Char.dot :: str "1")
     = bool_decide (9 = Char.space).
Proof.
  apply (reference_needs_a_space (str "H5P.Text") 9 (str "1") (str "1"));
    by vm_compute.
Defined.

End ParametersFacts.

(** * H5PEditor.js: the library's own files, and missing libraries *)

Module AssetsOrderFacts.
Import Assets AssetsSpec AssetsOrderSpec.

Section Facts.

Context {T : Type}.
Variable env : environment T.

Local Abbreviation own_last := (AssetsOrderSpec.own_last env).
Local Abbreviation outermost := (AssetsOrderSpec.outermost env).
Local Abbreviation unavailable := (AssetsOrderSpec.unavailable env).
Local Abbreviation reachable := (AssetsSpec.reachable env).

Lemma finish_own_last (n : LibraryName) (library : InstalledLibrary)
  (translation : option T) (root : jsstring)
  (combinedDependencies : list (list (assets T))) :
  key n = Ok root -> repo env !! root = Some (Ok library) ->
  getLanguage env root = Ok translation ->
  own_last n (finish env n library translation combinedDependencies).
Proof.
  intros Hk Hrepo Hlang.
  exists root, library,
    (foldl (foldl add_dependency)
       {| scripts := []; styles := []; translations := ∅ |}
       combinedDependencies).
  split; [done|]. split; [done|]. unfold finish.
  cbn [scripts styles translations]. split; [done|]. split; [done|].
  intros tr Htr. rewrite Hlang in Htr. injection Htr as ->.
  apply lookup_insert_eq.
Qed.

Lemma into_chain_outermost (n : LibraryName) (library : InstalledLibrary)
  (translation : option T) (p : list nat) (loaded loaded' : gset jsstring)
  (c : chain T) (rebuild : chain T -> task T) (t' : task T) :
  (forall c', outermost n (rebuild c')) ->
  into_chain env p loaded c rebuild = Some (loaded', t') ->
  outermost n t'.
Proof.
  intros Hrebuild. unfold into_chain.
  destruct c as [resolved current dependencies|resolved|e];
    [| |by intros [= <- <-]];
    (destruct (advance_chain env p loaded _) as [[l c']|]; [|done]);
    intros [= <- <-]; apply Hrebuild.
Qed.

Lemma advance_outermost (n : LibraryName) (p : list nat)
  (loaded loaded' : gset jsstring) (t t' : task T) :
  outermost n t -> advance env p loaded t = Some (loaded', t') ->
  outermost n t'.
Proof.
  destruct t as [|n'|n' library translation c1 c2 c3|a|e]; try done.
  - cbn [AssetsOrderSpec.outermost advance]. intros ->. unfold expand.
    fold (key n). destruct (key n) as [root|e] eqn:Hk;
      [|by intros [= <- <-]].
    destruct (repo env !! root) as [[library|e]|] eqn:Hrepo;
      [|by intros [= <- <-]|by destruct (getLanguage env root);
                               intros [= <- <-]].
    destruct (getLanguage env root) as [translation|e] eqn:Hlang;
      [|by intros [= <- <-]].
    destruct (getAddonsForLibrary env _) as [addons|e];
      [|by intros [= <- <-]].
    destruct (resolve loaded [] _) as [l1 c1].
    destruct (resolve l1 [] _) as [l2 c2].
    destruct (resolve l2 [] addons) as [l3 c3].
    intros [= <- <-]. split; [done|]. by exists root.
  - intros [-> (root & Hk & Hrepo & Hlang)].
    rewrite AssetsTermination.advance_Resolving.
    assert (forall c1 c2 c3,
              outermost n (Resolving n library translation c1 c2 c3))
      as Hsame.
    { intros ? ? ?. split; [done|]. by exists root. }
    destruct p as [|[|[|i]] p].
    + destruct c1 as [| r1 |]; try done. destruct c2 as [| r2 |]; try done.
      destruct c3 as [| r3 |]; try done. intros [= <- <-].
      by apply (finish_own_last n library translation root).
    + apply (into_chain_outermost n library translation).
      intros c'. apply Hsame.
    + apply (into_chain_outermost n library translation).
      intros c'. apply Hsame.
    + apply (into_chain_outermost n library translation).
      intros c'. apply Hsame.
Qed.

Lemma run_outermost (n : LibraryName) (schedule : list (list nat)) :
  forall c c' : gset jsstring * task T,
    outermost n c.2 -> run env schedule c = Some c' -> outermost n c'.2.
Proof.
  induction schedule as [|p schedule IH]; intros c c' Hc; cbn [run].
  - by intros [= <-].
  - destruct (advance env p c.1 c.2) as [[l t]|] eqn:Hadv; [|done].
    cbn. apply IH. cbn. by eapply advance_outermost.
Qed.

Lemma listAssets_outermost (n : LibraryName) :
  outermost n (listAssets n).2.
Proof.
  unfold listAssets, start.
  destruct (LibraryName.toUberName n _); [|done].
  by rewrite decide_False by apply not_elem_of_empty.
Qed.

(** X16: whatever the order in which the pending continuations run, the
    assets that listAssets returns for a library end with the library's own
    scripts and its own styles (after those of all its dependencies and
    addons), and hold the library's translation, when there is one, under
    its machine name, whatever a dependency stored there. *)
Theorem own_files_come_last (n : LibraryName) (schedule : list (list nat))
  (loaded : gset jsstring) (a : assets T) :
  run env schedule (listAssets n) = Some (loaded, Returned a) ->
  exists (root : jsstring) (library : InstalledLibrary)
         (dependencies : assets T),
    key n = Ok root /\ repo env !! root = Some (Ok library)
    /\ scripts a = scripts dependencies ++ own_scripts env n library
    /\ styles a = styles dependencies ++ own_styles env n library
    /\ forall translation,
         getLanguage env root = Ok (Some translation) ->
         translations a !! machineName n = Some translation.
Proof.
  intros Hrun.
  apply (run_outermost n schedule _ _ (listAssets_outermost n) Hrun).
Qed.

(** X17: when a library that the dependency graph reaches from the requested
    one cannot be loaded (it is not installed, or getLibrary throws for it),
    listAssets throws: whatever the order in which the pending continuations
    run, the call, once settled, is rejected, and it does settle. When it is
    the requested library that is not installed, the call is rejected at
    its first step: with the H5pError library-missing (status 404, naming
    its ubername) when its language was read without an exception, and
    with the exception of getLanguage when that threw. *)
Theorem listAssets_throws_when_unavailable (n : LibraryName)
  (root k : jsstring) :
  key n = Ok root -> reachable root k -> unavailable k ->
  (forall schedule loaded t,
      run env schedule (listAssets n) = Some (loaded, t) ->
      settled t = true -> exists e, t = Rejected e)
  /\ (exists schedule loaded e,
        run env schedule (listAssets n) = Some (loaded, Rejected e))
  /\ (repo env !! root = None ->
      exists loaded,
        run env [[]] (listAssets n)
        = Some (loaded,
                Rejected match getLanguage env root with
                         | Ok _ => library_missing root
                         | Throw e => e
                         end)).
Proof.
  intros Hk Hreach Hmissing.
  assert (forall schedule loaded t,
            run env schedule (listAssets n) = Some (loaded, t) ->
            settled t = true -> exists e, t = Rejected e) as Hall.
  { intros schedule loaded t Hrun Hsettled.
    pose proof (AssetsOnce.run_consistent env root schedule _ _
                  (AssetsOnce.listAssets_consistent env root n Hk) Hrun)
      as Hcons.
    destruct (AssetsOnce.settled_outermost env root loaded t Hcons Hsettled)
      as [[a ->]|?]; [exfalso|done].
    destruct (AssetsOnce.returned_once env root loaded a Hcons)
      as (es & _ & _ & Hkeys & Hstored).
    apply Hkeys, list_elem_of_fmap in Hreach as (e & -> & He).
    rewrite Forall_forall in Hstored.
    destruct (Hstored e He) as [_ Hrepo]. by apply (Hmissing e.2). }
  split; [done|]. split.
  - pose proof (AssetsOnce.leftmost_run env (bound env (listAssets n))
                  (listAssets n)) as Hrun.
    pose proof (AssetsTermination.leftmost_settles env
                  (bound env (listAssets n)) (listAssets n) (le_n _))
      as Hsettled.
    destruct (leftmost env _ _) as [loaded t]. cbn in Hsettled.
    destruct (Hall _ _ _ Hrun Hsettled) as [e ->]. by eexists _, _, _.
  - intros Hrepo. unfold listAssets, start.
    fold (key n). rewrite Hk.
    rewrite decide_False by apply not_elem_of_empty.
    cbn [run fst snd advance]. unfold expand. fold (key n).
    rewrite Hk, Hrepo. destruct (getLanguage env root); cbn; by eexists.
Qed.

End Facts.

Lemma own_files_come_last_witness :
  exists (root : jsstring) (library : InstalledLibrary)
         (dependencies : assets unit),
    key (AssetsExample.version_1_0 "A") = Ok root
    /\ repo AssetsExample.cyclic !! root = Some (Ok library)
    /\ scripts AssetsExample.cyclic_assets
       = scripts dependencies
         ++ own_scripts AssetsExample.cyclic
              (AssetsExample.version_1_0 "A") library
    /\ styles AssetsExample.cyclic_assets
       = styles dependencies
         ++ own_styles AssetsExample.cyclic
              (AssetsExample.version_1_0 "A") library
    /\ forall translation,
         getLanguage AssetsExample.cyclic root = Ok (Some translation) ->
         translations AssetsExample.cyclic_assets
           !! machineName (AssetsExample.version_1_0 "A")
         = Some translation.
Proof.
  apply (own_files_come_last AssetsExample.cyclic
           (AssetsExample.version_1_0 "A")
           (leftmost_schedule AssetsExample.cyclic 20
              (listAssets (AssetsExample.version_1_0 "A")))
           (leftmost AssetsExample.cyclic 20
              (listAssets (AssetsExample.version_1_0 "A"))).1).
  by vm_compute.
Defined.

Lemma listAssets_throws_when_unavailable_witness :
  exists schedule loaded e,
    run AssetsOrderExample.incomplete schedule
      (listAssets (AssetsExample.version_1_0 "A"))
    = Some (loaded, Rejected e).
Proof.
  apply (listAssets_throws_when_unavailable AssetsOrderExample.incomplete
           (AssetsExample.version_1_0 "A") (str "A-1.0") (str "C-1.0")).
  - reflexivity.
  - eapply (reachable_dependency _ _ (str "A-1.0") _
              (AssetsExample.version_1_0 "C")).
    + constructor.
    + by vm_compute.
    + apply elem_of_cons; right. apply elem_of_cons; by left.
    + reflexivity.
  - intros library Hl. by vm_compute in Hl.
Defined.

End AssetsOrderFacts.

(** * helpers/ValidatorBuilder.js: adding rules *)

Module ValidatorBuilderRules.
Import ValidatorBuilder ValidatorBuilderErrorsExample.

Section Facts.

Context {V P St E : Type}.

Lemma loop_snoc (rs : list (rule V P St E)) (r : rule V P St E) :
  forall (x : option V) (p : P) (st : St),
    rs <> [] \/ is_Some x ->
    loop (rs ++ [r]) x p st
    = match loop rs x p st with
      | (Return (Some v), st') => r (Some v) p st'
      | other => other
      end.
Proof.
  induction rs as [|r0 rs IH]; intros x p st Hx.
  - destruct Hx as [|[v ->]]; [done|]. cbn [app loop].
    by destruct (r (Some v) p st) as [[[?|]|?] ?].
  - cbn [app loop]. destruct (r0 x p st) as [[[v|]|e] st']; [|done|done].
    apply IH. right. by exists v.
Qed.

(** X18: addRule puts the rule at the end of the pipeline: the extended
    pipeline runs the old one and then, when that returned a value, the new
    rule on this value in the state that was left; when the old pipeline
    returned [undefined] or threw, the new rule is not called. This holds as
    soon as the old pipeline has a rule or the data is not [undefined]; a
    rule added to the empty pipeline is called on the data as it is,
    [undefined] included. *)
Theorem addRule_runs_last (this : builder V P St E) (r : rule V P St E)
  (data : option V) (pathPrefix : P) (st : St) :
  (rules this <> [] \/ is_Some data ->
   validate (addRule this r) data pathPrefix st
   = match validate this data pathPrefix st with
     | (Return (Some v), st') => r (Some v) pathPrefix st'
     | other => other
     end)
  /\ (rules this = [] ->
      validate (addRule this r) data pathPrefix st = r data pathPrefix st).
Proof.
  unfold validate, addRule. cbn [rules]. split.
  - apply loop_snoc.
  - intros ->. cbn [app loop].
    by destruct (r data pathPrefix st) as [[[?|]|?] ?].
Qed.

End Facts.

Lemma addRule_runs_last_witness :
  validate (addRule (addRule new ValidatorBuilderExample.double)
              ValidatorBuilderExample.double) (Some 3%nat) tt []
  = match validate (addRule new ValidatorBuilderExample.double)
            (Some 3%nat) tt [] with
    | (Return (Some v), st') =>
        ValidatorBuilderExample.double (Some v) tt st'
    | other => other
    end.
Proof.
  apply (addRule_runs_last (addRule new ValidatorBuilderExample.double)
           ValidatorBuilderExample.double (Some 3%nat) tt []).
  left. discriminate.
Defined.

Section Errors.

Context {V P W : Type}.
Implicit Types (this : builder V P (AggregateH5pError * W) AggregateH5pError).

(** X19: a pipeline that ends with throwErrorsNowRule: when the rules before
    it return a value, the run throws the error object if it holds an error
    and returns that value if it holds none, the state being left as it was,
    so a value is only returned with an error object without errors. When a
    rule before it returns [undefined], the run returns [undefined] and the
    errors collected so far are not thrown. *)
Theorem throwErrorsNowRule_at_the_end this (data : option V)
  (pathPrefix : P) (st : AggregateH5pError * W) :
  rules this <> [] ->
  let outcome :=
    validate (addRule this throwErrorsNowRule) data pathPrefix st in
  (forall v st',
      validate this data pathPrefix st = (Return (Some v), st') ->
      outcome = (if hasErrors (fst st') then Raise (fst st')
                 else Return (Some v), st'))
  /\ (forall st',
        validate this data pathPrefix st = (Return None, st') ->
        outcome = (Return None, st'))
  /\ (forall v st', outcome = (Return (Some v), st') ->
                    hasErrors (fst st') = false).
Proof.
  intros Hrules. cbn zeta.
  unfold validate, addRule. cbn [rules]. rewrite loop_snoc by by left.
  destruct (loop (rules this) data pathPrefix st) as [[[v|]|e] st1].
  - unfold throwErrorsNowRule. split; [|split].
    + intros ? ? [= <- <-]. by destruct (hasErrors (fst st1)).
    + done.
    + intros v' st'. destruct (hasErrors (fst st1)) eqn:He; [done|].
      by intros [= <- <-].
  - split; [done|]. split; [by intros ? [= <-]|done].
  - done.
Qed.

End Errors.

Lemma throwErrorsNowRule_at_the_end_witness :
  validate (addRule (addRule (addRule new complain) stop)
              throwErrorsNowRule) (Some 1%nat) tt (default_error, tt)
  = (Return None, (addError default_error (Error (str "invalid")), tt)).
Proof.
  apply (throwErrorsNowRule_at_the_end (addRule (addRule new complain) stop)
           (Some 1%nat) tt (default_error, tt)).
  - discriminate.
  - reflexivity.
Defined.

End ValidatorBuilderRules.

(** * implementation/fs/FileContentUserDataStorage.ts *)

Module UserDataFacts.
Import FileContentUserDataStorage UserDataSpec.

Lemma elem_of_List_filter {A : Type} (f : A -> bool) (l : list A) (x : A) :
  x ∈ List.filter f l <-> x ∈ l /\ f x = true.
Proof. rewrite !list_elem_of_In. apply filter_In. Qed.

(** [filter] keeps the order and the number of what it lets through. *)
Lemma sublist_List_filter {A : Type} (f : A -> bool) (l : list A) :
  List.filter f l `sublist_of` l.
Proof.
  induction l as [|x l IH]; cbn [List.filter]; [constructor|].
  destruct (f x); by constructor.
Qed.

Lemma find_app_none {A : Type} (f : A -> bool) (l r : list A) :
  (forall x, x ∈ l -> f x = false) ->
  List.find f (l ++ r) = List.find f r.
Proof.
  induction l as [|a l IH]; intros Hl; [done|]. cbn [app List.find].
  rewrite (Hl a) by by left. apply IH. intros x Hx. apply Hl. by right.
Qed.

Section FileSystem.

Context {D : Type}.
Variable write_error : jsstring -> bool.

Lemma readFile_writeFile (path : jsstring) (data : list D)
  (fs : directory_of D) :
  write_error path = false ->
  readFile (writeFile write_error path data fs) path = Some data.
Proof.
  intros Hw. unfold readFile, writeFile. by rewrite Hw, lookup_insert_eq.
Qed.

Lemma lookup_writeFile_ne (path path' : jsstring) (data : list D)
  (fs : directory_of D) :
  path' <> path -> writeFile write_error path data fs !! path' = fs !! path'.
Proof.
  intros Hne. unfold writeFile. destruct (write_error path); [done|].
  by apply lookup_insert_ne.
Qed.

Lemma readFile_Some (fs : directory_of D) (path : jsstring) (l : list D) :
  readFile fs path = Some l <-> fs !! path = Some (Json l).
Proof.
  unfold readFile. destruct (fs !! path) as [[l'|]|]; split; try done.
  - by intros [= ->].
  - by intros [= ->].
Qed.

End FileSystem.

Section UserData.

Context {U D : Type} `{!IUser U, !IContentUserData D}.
Variable write_error : jsstring -> bool.
Variable checkFilename : jsstring -> result unit.
Variable sanitizeFilename : jsstring -> nat -> (N -> bool) -> jsstring.
Variable join : jsstring -> jsstring -> jsstring.
Variable directory : jsstring.

Local Abbreviation path :=
  (getSafeUserDataFilePath checkFilename sanitizeFilename join directory).
Local Abbreviation createOrUpdateContentUserData :=
  (FileContentUserDataStorage.createOrUpdateContentUserData write_error
     checkFilename sanitizeFilename join directory).
Local Abbreviation getContentUserData :=
  (FileContentUserDataStorage.getContentUserData
     checkFilename sanitizeFilename join directory).
Local Abbreviation deleteInvalidatedContentUserData :=
  (FileContentUserDataStorage.deleteInvalidatedContentUserData write_error
     checkFilename sanitizeFilename join directory).
Local Abbreviation deleteAllContentUserDataByUser :=
  (FileContentUserDataStorage.deleteAllContentUserDataByUser
     (U:=U) (D:=D) write_error).
Local Abbreviation one_file_per_content :=
  (UserDataSpec.one_file_per_content path).
Local Abbreviation kept := (UserDataSpec.kept (D:=D) path).

Lemma another_key (userData data : D) :
  another userData data = true <-> state_key data <> state_key userData.
Proof.
  unfold another, state_key. rewrite !orb_true_iff, !negb_true_iff.
  rewrite !bool_decide_eq_false. split.
  - intros [[[[?|?]|?]|?]|?] [= ? ? ? ? ?]; done.
  - intros Hne.
    destruct (decide (contentId data = contentId userData)); [|tauto].
    destruct (decide (dataType data = dataType userData)); [|tauto].
    destruct (decide (subContentId data = subContentId userData)); [|tauto].
    destruct (decide (userId data = userId userData)); [|tauto].
    destruct (decide (contextId data = contextId userData)); [|tauto].
    destruct Hne. congruence.
Qed.

Lemma requested_self (userData : D) :
  requested (dataType userData) (subContentId userData) (userId userData)
    (contextId userData) userData = true.
Proof. unfold requested. by rewrite !bool_decide_eq_true_2. Qed.

(** X20: storing a user state and asking for it: when no two content ids
    share a file and every entry is in the file of its content id, a user
    state that createOrUpdateContentUserData has written (the write not
    failing) is the one that getContentUserData returns for its content,
    data type, sub-content, user and context; and every entry is still in
    the file of its content id. *)
Theorem stored_user_data_is_found (userData : D)
  (fs fs' : directory_of D) (file : jsstring) :
  one_file_per_content -> kept fs ->
  path (contentId userData) = Ok file -> write_error file = false ->
  createOrUpdateContentUserData userData fs = Ok fs' ->
  getContentUserData (contentId userData) (dataType userData)
    (subContentId userData) (userId userData) (contextId userData) fs'
  = Ok (Some userData)
  /\ kept fs'.
Proof.
  intros Hinj Hkept Hpath Hw.
  unfold FileContentUserDataStorage.createOrUpdateContentUserData,
    FileContentUserDataStorage.getContentUserData.
  rewrite Hpath. unfold mbind, result_bind. intros [= <-].
  rewrite readFile_writeFile by done.
  assert (forall x, x ∈ default [] (readFile fs file) ->
                    path (contentId x) = Ok file) as Hold.
  { intros x. destruct (readFile fs file) as [l|] eqn:Hl;
      [|by intros ?%elem_of_nil].
    apply readFile_Some in Hl. cbn. by apply Hkept. }
  split.
  - f_equal. rewrite find_app_none.
    + cbn [List.find]. by rewrite requested_self.
    + intros x [Hx Hother]%elem_of_List_filter.
      apply another_key in Hother.
      assert (contentId x = contentId userData) as Hc
        by (eapply Hinj; [by apply Hold|done]).
      apply not_true_is_false. unfold requested.
      rewrite !andb_true_iff, !bool_decide_eq_true.
      intros [[[? ?] ?] ?]. apply Hother. unfold state_key. congruence.
  - intros file' l data Hfile' Hdata.
    destruct (decide (file' = file)) as [->|Hne].
    + unfold writeFile in Hfile'. rewrite Hw, lookup_insert_eq in Hfile'.
      injection Hfile' as <-.
      apply elem_of_app in Hdata as [[Hdata _]%elem_of_List_filter|Hdata].
      * by apply Hold.
      * apply list_elem_of_singleton in Hdata. by subst.
    + rewrite lookup_writeFile_ne in Hfile' by done. by eapply Hkept.
Qed.

Lemma NoDup_filter_key (f : D -> bool) (l : list D) :
  NoDup (state_key <$> l) -> NoDup (state_key <$> List.filter f l).
Proof.
  induction l as [|a l IH]; [done|]. cbn [List.filter fmap list_fmap].
  intros [Ha Hl]%NoDup_cons. destruct (f a); [|by apply IH].
  cbn [fmap list_fmap]. apply NoDup_cons. split; [|by apply IH].
  intros (x & Hkey & [Hx _]%elem_of_List_filter)%list_elem_of_fmap.
  apply Ha. rewrite Hkey. by apply list_elem_of_fmap_2.
Qed.

(** X21: createOrUpdateContentUserData, the write not failing, leaves in the
    file of the content: the entries that were there for another content,
    data type, sub-content, user or context, in their order, and then the
    new user state. So the new state is the only entry for its five fields,
    a file with one entry at most for any five fields stays so, and all
    other files are as they were. A file that could not be read is replaced
    by one that holds the new state alone. *)
Theorem one_user_state_per_key (userData : D) (fs fs' : directory_of D)
  (file : jsstring) :
  path (contentId userData) = Ok file -> write_error file = false ->
  createOrUpdateContentUserData userData fs = Ok fs' ->
  exists new : list D,
    fs' !! file = Some (Json new)
    /\ (forall old, fs !! file = Some (Json old) ->
          new = List.filter (fun data =>
                               bool_decide
                                 (state_key data <> state_key userData))
                  old
                ++ [userData]
          /\ (NoDup (state_key <$> old) -> NoDup (state_key <$> new)))
    /\ (readFile fs file = None -> new = [userData])
    /\ List.filter
         (fun data => bool_decide (state_key data = state_key userData)) new
       = [userData]
    /\ forall file', file' <> file -> fs' !! file' = fs !! file'.
Proof.
  intros Hpath Hw.
  unfold FileContentUserDataStorage.createOrUpdateContentUserData.
  rewrite Hpath. unfold mbind, result_bind. intros [= <-].
  eexists. split; [unfold writeFile; by rewrite Hw, lookup_insert_eq|].
  assert (forall l,
            List.filter (another userData) l
            = List.filter (fun data =>
                             bool_decide
                               (state_key data <> state_key userData)) l)
    as Hfilter.
  { intros l. apply List.filter_ext. intros x.
    destruct (another userData x) eqn:Hx.
    - apply another_key in Hx. by rewrite bool_decide_eq_true_2.
    - rewrite bool_decide_eq_false_2; [done|]. intros Hne.
      apply another_key in Hne. congruence. }
  split; [|split; [|split]].
  - intros old Hold%readFile_Some. rewrite Hold. cbn [default].
    rewrite Hfilter. split; [done|]. intros Hnd.
    rewrite fmap_app. apply NoDup_app. split; [by apply NoDup_filter_key|].
    split; [|apply NoDup_singleton].
    intros k (x & -> & [_ Hx]%elem_of_List_filter)%list_elem_of_fmap.
    cbn. intros Hk%list_elem_of_singleton.
    by apply bool_decide_eq_true in Hx.
  - by intros ->.
  - rewrite List.filter_app. cbn [List.filter].
    rewrite bool_decide_eq_true_2 by done.
    rewrite Hfilter.
    assert (forall l : list D,
              List.filter
                (fun data =>
                   bool_decide (state_key data = state_key userData))
                (List.filter
                   (fun data =>
                      bool_decide (state_key data <> state_key userData)) l)
              = []) as ->; [|done].
    induction l as [|a l IH]; [done|]. cbn [List.filter].
    case_bool_decide as Ha; [|done]. cbn [List.filter].
    by rewrite bool_decide_eq_false_2.
  - intros file' Hne. by apply lookup_writeFile_ne.
Qed.

(** X22: deleteInvalidatedContentUserData, the write not failing, leaves in
    the file of the content the entries that are not both of this content
    and flagged [invalidate], in their order; all other files are as they
    were. Where there was no file, or one that could not be read, it leaves
    a file with the empty list. *)
Theorem invalidated_user_data_is_deleted (contentId' : jsstring)
  (fs fs' : directory_of D) (file : jsstring) :
  path contentId' = Ok file -> write_error file = false ->
  deleteInvalidatedContentUserData contentId' fs = Ok fs' ->
  exists new : list D,
    fs' !! file = Some (Json new)
    /\ (forall data, data ∈ new ->
          ~ (contentId data = contentId' /\ invalidate data = true))
    /\ (forall old data,
          fs !! file = Some (Json old) ->
          data ∈ new <->
          data ∈ old
          /\ ~ (contentId data = contentId' /\ invalidate data = true))
    /\ (readFile fs file = None -> new = [])
    /\ forall file', file' <> file -> fs' !! file' = fs !! file'.
Proof.
  intros Hpath Hw.
  unfold FileContentUserDataStorage.deleteInvalidatedContentUserData.
  rewrite Hpath. unfold mbind, result_bind. intros [= <-].
  eexists. split; [unfold writeFile; by rewrite Hw, lookup_insert_eq|].
  assert (forall data : D,
            negb (bool_decide (contentId data = contentId'))
            || negb (invalidate data) = true
            <-> ~ (contentId data = contentId' /\ invalidate data = true))
    as Hkeep.
  { intros data. rewrite orb_true_iff, !negb_true_iff, bool_decide_eq_false.
    destruct (invalidate data); [|intuition congruence].
    destruct (decide (contentId data = contentId')); intuition congruence. }
  split; [|split; [|split]].
  - intros data [_ Hdata]%elem_of_List_filter. by apply Hkeep.
  - intros old data Hold%readFile_Some. rewrite Hold. cbn [default].
    rewrite elem_of_List_filter. by rewrite Hkeep.
  - by intros ->.
  - intros file' Hne. by apply lookup_writeFile_ne.
Qed.

(** The entries that getContentUserDataByUser collects. *)
Lemma foldl_collect (fs : directory_of D) (f : D -> bool)
  (suffix : jsstring) (files : list jsstring) : forall (result : list D)
  (d : D),
  d ∈ foldl (fun result file =>
               if negb (endsWith file suffix) then result
               else match readFile fs file with
                    | None => result
                    | Some data => result ++ List.filter f data
                    end) result files
  <-> d ∈ result
      \/ exists file l, file ∈ files /\ endsWith file suffix = true
                        /\ fs !! file = Some (Json l) /\ d ∈ l
                        /\ f d = true.
Proof.
  induction files as [|file files IH]; intros result d; cbn [foldl].
  - split; [by left|]. intros [?|(? & ? & []%elem_of_nil & _)]. done.
  - rewrite IH. clear IH. split.
    + intros [Hd|(file' & l & Hin & ?)].
      * destruct (endsWith file suffix) eqn:Hs; cbn [negb] in Hd;
          [|by left].
        destruct (readFile fs file) as [data|] eqn:Hread; [|by left].
        apply elem_of_app in Hd as [?|[? ?]%elem_of_List_filter];
          [by left|].
        right. exists file, data. apply readFile_Some in Hread.
        split; [by left|done].
      * right. exists file', l. split; [by right|done].
    + intros [Hd|(file' & l & Hin & Hs & Hl & Hdl & Hf)].
      * left. destruct (negb _); [done|].
        destruct (readFile fs file); [|done]. apply elem_of_app. by left.
      * apply elem_of_cons in Hin as [->|Hin].
        -- left. rewrite Hs. cbn [negb].
           rewrite (proj2 (readFile_Some fs file l) Hl).
           apply elem_of_app. right. by apply elem_of_List_filter.
        -- right. by exists file', l.
Qed.

(** The entries of a user that getContentUserDataByUser finds. *)
Lemma user_entries (user : U) (fs : directory_of D) (d : D) :
  d ∈ getContentUserDataByUser user fs <->
  exists file l,
    endsWith file (str "-userdata.json") = true
    /\ fs !! file = Some (Json l) /\ d ∈ l /\ userId d = id user.
Proof.
  unfold getContentUserDataByUser. rewrite foldl_collect. split.
  - intros [[]%elem_of_nil|(file & l & _ & Hs & Hl & Hd & Hu)].
    exists file, l. by apply bool_decide_eq_true in Hu.
  - intros (file & l & Hs & Hl & Hd & Hu). right. exists file, l.
    split; [|by rewrite bool_decide_eq_true].
    unfold getAllFiles. apply list_elem_of_fmap.
    exists (file, Json l). split; [done|]. by apply elem_of_map_to_list.
Qed.

(** X23: getContentUserDataByUser returns the entries of the user that are
    in the files of the directory whose name ends with [-userdata.json] and
    that can be read; files that cannot be read are passed over. *)
Theorem user_data_of_a_user (user : U) (fs : directory_of D) (d : D) :
  d ∈ getContentUserDataByUser user fs <->
  exists file l,
    endsWith file (str "-userdata.json") = true
    /\ fs !! file = Some (Json l) /\ d ∈ l /\ userId d = id user.
Proof.
  unfold getContentUserDataByUser. rewrite foldl_collect. split.
  - intros [[]%elem_of_nil|(file & l & _ & Hs & Hl & Hd & Hu)].
    exists file, l. by apply bool_decide_eq_true in Hu.
  - intros (file & l & Hs & Hl & Hd & Hu). right. exists file, l.
    split; [|by rewrite bool_decide_eq_true].
    unfold getAllFiles. apply list_elem_of_fmap.
    exists (file, Json l). split; [done|]. by apply elem_of_map_to_list.
Qed.

Lemma foldl_without (user : U) (files : list jsstring) :
  (forall file, write_error file = false) -> NoDup files ->
  forall (fs : directory_of D) (file : jsstring),
    foldl (fun fs file =>
             if negb (endsWith file (str "-userdata.json")) then fs
             else match readFile fs file with
                  | None => fs
                  | Some data =>
                      writeFile write_error file
                        (List.filter
                           (fun d => negb (bool_decide (userId d = id user)))
                           data) fs
                  end) fs files !! file
    = if decide (file ∈ files) then without user file (fs !! file)
      else fs !! file.
Proof.
  intros Hw. induction files as [|f files IH]; intros Hnd fs file.
  - cbn [foldl]. by rewrite decide_False by apply not_elem_of_nil.
  - apply NoDup_cons in Hnd as [Hf Hnd]. cbn [foldl]. rewrite IH by done.
    set (fs1 := if negb (endsWith f (str "-userdata.json")) then fs else _).
    assert (forall file', fs1 !! file'
                          = if decide (file' = f)
                            then without user f (fs !! f)
                            else fs !! file') as Hfs1.
    { intros file'. unfold fs1, without, readFile.
      destruct (endsWith f _) eqn:Hs; cbn [negb].
      - destruct (fs !! f) as [[data|]|] eqn:Hread.
        + unfold writeFile. rewrite Hw.
          destruct (decide (file' = f)) as [->|Hne];
            [by rewrite lookup_insert_eq|by rewrite lookup_insert_ne].
        + by destruct (decide (file' = f)) as [->|].
        + by destruct (decide (file' = f)) as [->|].
      - destruct (decide (file' = f)) as [->|]; [|done].
        by destruct (fs !! f) as [[?|]|]. }
    rewrite Hfs1.
    destruct (decide (file = f)) as [->|Hne].
    + rewrite decide_False by done. rewrite decide_True by by left. done.
    + destruct (decide (file ∈ files)) as [Hin|Hin].
      * rewrite decide_True by by right. done.
      * rewrite decide_False; [done|].
        by intros [?|?]%elem_of_cons.
Qed.

Lemma deleteAll_lookup (user : U) (fs : directory_of D) (file : jsstring) :
  (forall file, write_error file = false) ->
  deleteAllContentUserDataByUser user fs !! file
  = without user file (fs !! file).
Proof.
  intros Hw. unfold FileContentUserDataStorage.deleteAllContentUserDataByUser.
  rewrite foldl_without; [|done|apply NoDup_fst_map_to_list].
  case_decide as Hin; [done|].
  assert (fs !! file = None) as ->; [|done].
  apply eq_None_not_Some. intros [content Hc]. apply Hin.
  unfold getAllFiles. apply list_elem_of_fmap. exists (file, content).
  split; [done|]. by apply elem_of_map_to_list.
Qed.

(** X24: after deleteAllContentUserDataByUser, no write failing,
    getContentUserDataByUser finds nothing of that user, and finds for every
    other user the entries it found before. *)
Theorem user_data_of_a_user_is_deleted (user : U) (fs : directory_of D) :
  (forall file, write_error file = false) ->
  getContentUserDataByUser user (deleteAllContentUserDataByUser user fs)
  = []
  /\ forall (other : U) (d : D),
       id other <> id user ->
       d ∈ getContentUserDataByUser other
             (deleteAllContentUserDataByUser user fs)
       <-> d ∈ getContentUserDataByUser other fs.
Proof.
  intros Hw. split.
  - apply elem_of_nil_inv. intros d.
    rewrite user_entries.
    intros (file & l & Hs & Hl & Hd & Hu).
    rewrite deleteAll_lookup in Hl by done. unfold without in Hl.
    destruct (fs !! file) as [[data|]|]; [|done|done].
    rewrite Hs in Hl. injection Hl as <-.
    apply elem_of_List_filter in Hd as [_ Hd].
    apply negb_true_iff, bool_decide_eq_false in Hd. done.
  - intros other d Hother. rewrite !user_entries. split.
    + intros (file & l & Hs & Hl & Hd & Hu).
      rewrite deleteAll_lookup in Hl by done. unfold without in Hl.
      destruct (fs !! file) as [[data|]|] eqn:Hfile; [|done|done].
      rewrite Hs in Hl. injection Hl as <-.
      apply elem_of_List_filter in Hd as [Hd _]. by exists file, data.
    + intros (file & l & Hs & Hl & Hd & Hu).
      exists file, (List.filter
                      (fun d => negb (bool_decide (userId d = id user))) l).
      split; [done|]. rewrite deleteAll_lookup by done.
      unfold without. rewrite Hl, Hs. split; [done|]. split; [|done].
      apply elem_of_List_filter. split; [done|].
      apply negb_true_iff, bool_decide_eq_false. congruence.
Qed.

End UserData.

Section Finished.

Context {F : Type} `{!IFinishedUserData F}.
Variable write_error : jsstring -> bool.
Variable checkFilename : jsstring -> result unit.
Variable sanitizeFilename : jsstring -> nat -> (N -> bool) -> jsstring.
Variable join : jsstring -> jsstring -> jsstring.
Variable directory : jsstring.

Local Abbreviation path :=
  (getSafeFinishedFilePath checkFilename sanitizeFilename join directory).
Local Abbreviation createOrUpdateFinishedData :=
  (FileContentUserDataStorage.createOrUpdateFinishedData write_error
     checkFilename sanitizeFilename join directory).
Local Abbreviation getFinishedDataByContentId :=
  (FileContentUserDataStorage.getFinishedDataByContentId (F:=F)
     checkFilename sanitizeFilename join directory).

(** X25: after createOrUpdateFinishedData, the write not failing,
    getFinishedDataByContentId returns for that content a list that ends
    with the new finished data, which is its only entry for that user;
    before it come the entries that other users had in the file, each as
    often as it was there and in their order: the old list with the
    entries of that user taken out. *)
Theorem finished_data_is_found (finishedData : F)
  (fs fs' : directory_of F) (file : jsstring) :
  path (finished_contentId finishedData) = Ok file ->
  write_error file = false ->
  createOrUpdateFinishedData finishedData fs = Ok fs' ->
  exists others : list F,
    getFinishedDataByContentId (finished_contentId finishedData) fs'
    = Ok (Some (others ++ [finishedData]))
    /\ others
       = List.filter
           (fun data =>
              negb (bool_decide
                      (finished_userId data = finished_userId finishedData)))
           (default [] (readFile fs file))
    /\ others `sublist_of` default [] (readFile fs file)
    /\ Forall (fun data =>
                 finished_userId data <> finished_userId finishedData)
              others
    /\ forall data,
         data ∈ others <->
         data ∈ default [] (readFile fs file)
         /\ finished_userId data <> finished_userId finishedData.
Proof.
  intros Hpath Hw.
  unfold FileContentUserDataStorage.createOrUpdateFinishedData,
    FileContentUserDataStorage.getFinishedDataByContentId.
  rewrite Hpath. unfold mbind, result_bind. intros [= <-].
  rewrite readFile_writeFile by done. eexists. split; [done|].
  split; [done|]. split; [apply sublist_List_filter|].
  assert (forall data,
            data ∈ List.filter
                     (fun data =>
                        negb (bool_decide
                                (finished_userId data
                                 = finished_userId finishedData)))
                     (default [] (readFile fs file))
            <-> data ∈ default [] (readFile fs file)
                /\ finished_userId data <> finished_userId finishedData)
    as Hin.
  { intros data. rewrite elem_of_List_filter.
    by rewrite negb_true_iff, bool_decide_eq_false. }
  split; [|done]. apply Forall_forall. intros data Hdata.
  by apply Hin in Hdata as [_ ?].
Qed.

End Finished.

Lemma example_path_injective : one_file_per_content example_path.
Proof.
  intros c c' file. unfold example_path, getSafeUserDataFilePath.
  cbn. intros [= <-] [= Heq]. by apply app_inv_tail in Heq.
Qed.

Lemma stored_user_data_is_found_witness :
  FileContentUserDataStorage.getContentUserData (fun _ => Ok tt)
    (fun name _ _ => name) (fun directory name => directory ++ 47 :: name)
    (str "data") (str "42") (str "state") (str "0") (str "alice") None
    {[ str "data/42-userdata.json" :=
         Json [example_state "bob" "b"; example_state "alice" "new"] ]}
  = Ok (Some (example_state "alice" "new"))
  /\ kept example_path
       {[ str "data/42-userdata.json" :=
            Json [example_state "bob" "b"; example_state "alice" "new"] ]}.
Proof.
  refine (stored_user_data_is_found (fun _ => false) (fun _ => Ok tt)
            (fun name _ _ => name)
            (fun directory name => directory ++ 47 :: name) (str "data")
            (example_state "alice" "new") example_directory
            {[ str "data/42-userdata.json" :=
                 Json [example_state "bob" "b";
                       example_state "alice" "new"] ]}
            (str "data/42-userdata.json") _ _ _ _ _).
  - apply example_path_injective.
  - intros file l data Hfile Hdata. unfold example_directory in Hfile.
    apply lookup_singleton_Some in Hfile as [<- [= <-]].
    apply elem_of_cons in Hdata as [->|Hdata]; [done|].
    apply list_elem_of_singleton in Hdata as ->. done.
  - reflexivity.
  - reflexivity.
  - unfold FileContentUserDataStorage.createOrUpdateContentUserData.
    cbn. by f_equal.
Defined.

Lemma one_user_state_per_key_witness :
  exists new : list user_state,
    ({[ str "data/42-userdata.json" :=
          Json [example_state "bob" "b"; example_state "alice" "new"] ]}
       : directory_of user_state) !! str "data/42-userdata.json"
    = Some (Json new)
    /\ (forall old,
          example_directory !! str "data/42-userdata.json"
          = Some (Json old) ->
          new = List.filter
                  (fun data =>
                     bool_decide
                       (state_key data
                        <> state_key (example_state "alice" "new")))
                  old
                ++ [example_state "alice" "new"]
          /\ (NoDup (state_key <$> old) -> NoDup (state_key <$> new)))
    /\ (readFile example_directory (str "data/42-userdata.json") = None ->
        new = [example_state "alice" "new"])
    /\ List.filter
         (fun data =>
            bool_decide
              (state_key data = state_key (example_state "alice" "new")))
         new
       = [example_state "alice" "new"]
    /\ forall file',
         file' <> str "data/42-userdata.json" ->
         ({[ str "data/42-userdata.json" :=
               Json [example_state "bob" "b";
                     example_state "alice" "new"] ]}
            : directory_of user_state) !! file'
         = example_directory !! file'.
Proof.
  refine (one_user_state_per_key (fun _ => false) (fun _ => Ok tt)
            (fun name _ _ => name)
            (fun directory name => directory ++ 47 :: name) (str "data")
            (example_state "alice" "new") example_directory
            {[ str "data/42-userdata.json" :=
                 Json [example_state "bob" "b";
                       example_state "alice" "new"] ]}
            (str "data/42-userdata.json") _ _ _).
  - reflexivity.
  - reflexivity.
  - unfold FileContentUserDataStorage.createOrUpdateContentUserData.
    cbn. by f_equal.
Defined.

Lemma invalidated_user_data_is_deleted_witness :
  exists new : list user_state,
    ({[ str "data/42-userdata.json" := Json [example_state "bob" "b"] ]}
       : directory_of user_state) !! str "data/42-userdata.json"
    = Some (Json new)
    /\ (forall data, data ∈ new ->
          ~ (contentId data = str "42" /\ invalidate data = true))
    /\ (forall old data,
          invalidated_directory !! str "data/42-userdata.json"
          = Some (Json old) ->
          data ∈ new <->
          data ∈ old
          /\ ~ (contentId data = str "42" /\ invalidate data = true))
    /\ (readFile invalidated_directory (str "data/42-userdata.json") = None
        -> new = [])
    /\ forall file',
         file' <> str "data/42-userdata.json" ->
         ({[ str "data/42-userdata.json" :=
               Json [example_state "bob" "b"] ]}
            : directory_of user_state) !! file'
         = invalidated_directory !! file'.
Proof.
  refine (invalidated_user_data_is_deleted (fun _ => false)
            (fun _ => Ok tt) (fun name _ _ => name)
            (fun directory name => directory ++ 47 :: name) (str "data")
            (str "42") invalidated_directory
            {[ str "data/42-userdata.json" :=
                 Json [example_state "bob" "b"] ]}
            (str "data/42-userdata.json") _ _ _).
  - reflexivity.
  - reflexivity.
  - unfold FileContentUserDataStorage.deleteInvalidatedContentUserData.
    cbn. by f_equal.
Defined.

Lemma user_data_of_a_user_is_deleted_witness :
  getContentUserDataByUser (str "alice")
    (deleteAllContentUserDataByUser (fun _ => false) (str "alice")
       example_directory)
  = [].
Proof.
  apply (user_data_of_a_user_is_deleted (U:=jsstring) (fun _ => false)
           (str "alice") example_directory).
  reflexivity.
Defined.

Lemma finished_data_is_found_witness :
  exists others : list user_state,
    FileContentUserDataStorage.getFinishedDataByContentId (fun _ => Ok tt)
      (fun name _ _ => name)
      (fun directory name => directory ++ 47 :: name) (str "data")
      (str "42")
      {[ str "data/42-finished.json" :=
           Json [example_state "bob" "b"; example_state "carol" "c";
                 example_state "alice" "done"] ]}
    = Ok (Some (others ++ [example_state "alice" "done"]))
    /\ others = [example_state "bob" "b"; example_state "carol" "c"].
Proof.
  pose proof (finished_data_is_found (fun _ => false) (fun _ => Ok tt)
                (fun name _ _ => name)
                (fun directory name => directory ++ 47 :: name) (str "data")
                (example_state "alice" "done") finished_directory
                {[ str "data/42-finished.json" :=
                     Json [example_state "bob" "b";
                           example_state "carol" "c";
                           example_state "alice" "done"] ]}
                (str "data/42-finished.json")) as Hfound.
  assert (example_finished_path (str "42")
          = Ok (str "data/42-finished.json")) as Hpath by (by vm_compute).
  assert (FileContentUserDataStorage.createOrUpdateFinishedData
            (fun _ => false) (fun _ => Ok tt) (fun name _ _ => name)
            (fun directory name => directory ++ 47 :: name) (str "data")
            (example_state "alice" "done") finished_directory
          = Ok {[ str "data/42-finished.json" :=
                    Json [example_state "bob" "b";
                          example_state "carol" "c";
                          example_state "alice" "done"] ]}) as Hstored
    by (vm_compute; reflexivity).
  specialize (Hfound Hpath eq_refl Hstored).
  destruct Hfound as (others & Hfound & Hothers & _).
  exists others. split; [exact Hfound|]. rewrite Hothers. by vm_compute.
Defined.

End UserDataFacts.

(** * implementation/fs/FileContentUserDataStorage.ts: storing twice
      and deleting *)

Module UserDataCompositionFacts.
Import FileContentUserDataStorage UserDataSpec UserDataFacts.

Section UserData.

Context {D : Type} `{!IContentUserData D}.
Variable write_error : jsstring -> bool.
Variable rm_error : jsstring -> bool.
Variable checkFilename : jsstring -> result unit.
Variable sanitizeFilename : jsstring -> nat -> (N -> bool) -> jsstring.
Variable join : jsstring -> jsstring -> jsstring.
Variable directory : jsstring.

Local Abbreviation path :=
  (getSafeUserDataFilePath checkFilename sanitizeFilename join directory).
Local Abbreviation createOrUpdateContentUserData :=
  (FileContentUserDataStorage.createOrUpdateContentUserData write_error
     checkFilename sanitizeFilename join directory).
Local Abbreviation getContentUserData :=
  (FileContentUserDataStorage.getContentUserData
     checkFilename sanitizeFilename join directory).
Local Abbreviation getContentUserDataByContentIdAndUser :=
  (FileContentUserDataStorage.getContentUserDataByContentIdAndUser
     checkFilename sanitizeFilename join directory).
Local Abbreviation deleteAllContentUserDataByContentId :=
  (FileContentUserDataStorage.deleteAllContentUserDataByContentId (D:=D)
     rm_error checkFilename sanitizeFilename join directory).

Lemma another_self (userData : D) : another userData userData = false.
Proof.
  unfold another. by rewrite !bool_decide_eq_true_2.
Qed.

Lemma filter_filter_same (f : D -> bool) (l : list D) :
  List.filter f (List.filter f l) = List.filter f l.
Proof.
  induction l as [|a l IH]; [done|]. cbn [List.filter].
  destruct (f a) eqn:Ha; [|done]. cbn [List.filter]. by rewrite Ha, IH.
Qed.

(** X27: storing the same user state a second time changes nothing: after
    createOrUpdateContentUserData has written a state, the write not
    failing, the same call leaves every file as it is. *)
Theorem storing_twice_is_storing_once (userData : D)
  (fs fs' : directory_of D) (file : jsstring) :
  path (contentId userData) = Ok file -> write_error file = false ->
  createOrUpdateContentUserData userData fs = Ok fs' ->
  createOrUpdateContentUserData userData fs' = Ok fs'.
Proof.
  intros Hpath Hw.
  unfold FileContentUserDataStorage.createOrUpdateContentUserData.
  rewrite Hpath. unfold mbind, result_bind. intros [= <-].
  rewrite readFile_writeFile by done.
  cbn [default from_option Datatypes.id].
  rewrite List.filter_app, filter_filter_same. cbn [List.filter].
  rewrite another_self, app_nil_r. f_equal.
  unfold writeFile. rewrite Hw. apply insert_insert_eq.
Qed.

(** X28: after deleteAllContentUserDataByContentId, the removal not failing,
    nothing is found for that content: getContentUserData returns [null] and
    getContentUserDataByContentIdAndUser returns the empty list, whatever is
    asked for; the files of other paths are as they were. *)
Theorem deleted_content_has_no_user_data (contentId' : jsstring)
  (fs fs' : directory_of D) (file : jsstring) :
  path contentId' = Ok file -> rm_error file = false ->
  deleteAllContentUserDataByContentId contentId' fs = Ok fs' ->
  (forall dataType' subContentId' userId' contextId',
      getContentUserData contentId' dataType' subContentId' userId'
        contextId' fs' = Ok None)
  /\ (forall userId' contextId',
        getContentUserDataByContentIdAndUser contentId' userId' contextId'
          fs' = Ok [])
  /\ forall file', file' <> file -> fs' !! file' = fs !! file'.
Proof.
  intros Hpath Hrm.
  unfold FileContentUserDataStorage.deleteAllContentUserDataByContentId,
    FileContentUserDataStorage.getContentUserData,
    FileContentUserDataStorage.getContentUserDataByContentIdAndUser.
  rewrite Hpath. unfold mbind, result_bind, rm. rewrite Hrm.
  intros [= <-].
  assert (readFile (delete file fs) file = None) as Hread.
  { unfold readFile. by rewrite lookup_delete_eq. }
  rewrite Hread. split; [done|]. split; [done|].
  intros file' Hne. by apply lookup_delete_ne.
Qed.

End UserData.

Lemma storing_twice_is_storing_once_witness :
  FileContentUserDataStorage.createOrUpdateContentUserData (fun _ => false)
    (fun _ => Ok tt) (fun name _ _ => name)
    (fun directory name => directory ++ 47 :: name) (str "data")
    (example_state "alice" "new")
    {[ str "data/42-userdata.json" :=
         Json [example_state "bob" "b"; example_state "alice" "new"] ]}
  = Ok {[ str "data/42-userdata.json" :=
            Json [example_state "bob" "b"; example_state "alice" "new"] ]}.
Proof.
  refine (storing_twice_is_storing_once (fun _ => false) (fun _ => Ok tt)
            (fun name _ _ => name)
            (fun directory name => directory ++ 47 :: name) (str "data")
            (example_state "alice" "new") example_directory
            {[ str "data/42-userdata.json" :=
                 Json [example_state "bob" "b";
                       example_state "alice" "new"] ]}
            (str "data/42-userdata.json") _ _ _).
  - reflexivity.
  - reflexivity.
  - unfold FileContentUserDataStorage.createOrUpdateContentUserData.
    cbn. by f_equal.
Defined.

Lemma deleted_content_has_no_user_data_witness :
  (forall dataType' subContentId' userId' contextId',
      FileContentUserDataStorage.getContentUserData (fun _ => Ok tt)
        (fun name _ _ => name)
        (fun directory name => directory ++ 47 :: name) (str "data")
        (str "42") dataType' subContentId' userId' contextId'
        (∅ : directory_of user_state) = Ok None)
  /\ (forall userId' contextId',
        FileContentUserDataStorage.getContentUserDataByContentIdAndUser
          (fun _ => Ok tt) (fun name _ _ => name)
          (fun directory name => directory ++ 47 :: name) (str "data")
          (str "42") userId' contextId' (∅ : directory_of user_state)
        = Ok [])
  /\ forall file',
       file' <> str "data/42-userdata.json" ->
       (∅ : directory_of user_state) !! file' = example_directory !! file'.
Proof.
  refine (deleted_content_has_no_user_data (fun _ => false) (fun _ => Ok tt)
            (fun name _ _ => name)
            (fun directory name => directory ++ 47 :: name) (str "data")
            (str "42") example_directory ∅ (str "data/42-userdata.json")
            _ _ _).
  - reflexivity.
  - reflexivity.
  - unfold FileContentUserDataStorage.deleteAllContentUserDataByContentId.
    cbn. by f_equal.
Defined.

End UserDataCompositionFacts.
